(** * Scrypted Cloud plugin: reachability controller, reverse pool, tunnel log

    A shallow embedding of the cloud plugin's [ScryptedCloud] class
    (forwarding-mode policy, relay registration, UPnP mapping, whitelist
    cache, callback rate limit, reverse connection pool and the
    cloudflared log scanner), followed by the properties proved about it.

    Conventions of the embedding:
    - a JavaScript value that may be [undefined] is an [option]; JavaScript
      truthiness is written out ([truthy_str], [truthy_num]);
    - numbers held by settings are integers ([Z]); a double is the
      rational it stands for, and arithmetic on doubles rounds its exact
      result with [binary64];
    - an [async] method runs against one [World], the record of what the
      outside (relay, router, push manager) answers during that run;
      what the method does to the outside is appended to the [trace] of
      the plugin state;
    - [whitelist], which reads the cache before its [await] and writes it
      after, is given in two halves, so that calls which overlap can be
      run next to the call that is not interrupted;
    - a thrown [Error] is the [Throw] result of the monad [M]. *)

From Stdlib Require Import ZArith QArith Qround Qabs Lqa String Ascii List Lia Bool.
From stdpp Require Import base option gmap sets list strings pretty.

Local Open Scope string_scope.
Local Open Scope list_scope.
Local Open Scope Z_scope.

(** ** JavaScript helpers *)

(** [!!s] for a string-or-undefined value. *)
Definition truthy_str (o : option string) : bool :=
  match o with
  | Some (String _ _) => true
  | _ => false
  end.

(** [!!n] for a number-or-undefined value. *)
Definition truthy_num (o : option Z) : bool :=
  match o with
  | Some n => negb (Z.eqb n 0)
  | None => false
  end.

(** [a && b] on string-or-undefined values. *)
Definition js_and_str (a b : option string) : option string :=
  if truthy_str a then b else a.

(** [a === b] on string-or-undefined values. *)
Definition str_opt_eqb (a b : option string) : bool :=
  match a, b with
  | Some x, Some y => String.eqb x y
  | None, None => true
  | _, _ => false
  end.

(** [a === b] on number-or-undefined values. *)
Definition num_opt_eqb (a b : option Z) : bool :=
  match a, b with
  | Some x, Some y => Z.eqb x y
  | None, None => true
  | _, _ => false
  end.

(** [Math.round]: the nearest integer, halves rounded up. *)
Definition Math_round (x : Q) : Z := Qfloor (x + (1 # 2)).

(** *** Double precision arithmetic

    The value of an arithmetic operation on doubles is its exact result
    rounded to the nearest double, ties to the even significand. *)

(** The nearest integer, ties to the even one. *)
Definition round_half_even (q : Q) : Z :=
  let f := Qfloor q in
  match Qcompare (q - inject_Z f) (1 # 2) with
  | Lt => f
  | Gt => f + 1
  | Eq => if Z.even f then f else f + 1
  end.

Definition pow2 (k : Z) : Q :=
  if 0 <=? k then inject_Z (2 ^ k) else (1 / inject_Z (2 ^ (- k)))%Q.

(** The exponent [e] with [2^e <= |q| < 2^(e+1)], for [q] other than 0. *)
Definition binade (q : Q) : Z :=
  let e := Z.log2 (Z.abs (Qnum q)) - Z.log2 (Zpos (Qden q)) in
  if Qle_bool (pow2 e) (Qabs q) then e else e - 1.

(** The exponent of the spacing of the doubles around [q]: 52 below the
    binade for the 53-bit significand, and -1074 over the subnormal
    range. *)
Definition ulp_exp (q : Q) : Z := Z.max (binade q - 52) (-1074).

(** The double nearest to [q]. A result of magnitude 2^1024 or more
    stands for the infinity of its sign. *)
Definition binary64 (q : Q) : Q :=
  let u := pow2 (ulp_exp q) in
  (inject_Z (round_half_even (q / u)) * u)%Q.

(** ** Data model *)

(** The four [choices] of the [forwardingMode] setting. *)
Inductive ForwardingMode := UPNP | RouterForward | CustomDomain | Disabled.

Definition mode_eqb (a b : ForwardingMode) : bool :=
  match a, b with
  | UPNP, UPNP | RouterForward, RouterForward
  | CustomDomain, CustomDomain | Disabled, Disabled => true
  | _, _ => false
  end.

(** [storageSettings.values], the persisted key/value configuration. *)
Record Settings := {
  token_info : option string;
  lastPersistedRegistrationId : option string;
  registrationSecret : string;
  serverId : string;
  serverName : string;
  forwardingMode : ForwardingMode;
  hostname : option string;
  duckDnsToken : option string;
  duckDnsHostname : option string;
  duckDnsCertValid : bool;
  upnpPort : option Z;
  securePortSetting : option Z;
  lastPersistedUpnpPort : option Z;
  lastPersistedIp : option string;
  cloudflareEnabled : bool;
  cloudflaredTunnelToken : option string;
  connectHomeScryptedApp : bool
}.

(** The object returned by [getAuthority]: [{}], [{upnp_port, port}] or
    [{upnp_port, port, hostname}]. *)
Record Authority := {
  a_upnp_port : option Z;
  a_port : option Z;
  a_hostname : option string
}.

Definition empty_authority : Authority :=
  {| a_upnp_port := None; a_port := None; a_hostname := None |}.

(** The object handed to [qsstringify] by [sendRegistrationId]. *)
Record RegistrationQuery := {
  q_authority : Authority;
  q_registration_id : string;
  q_server_id : string;
  q_server_name : string;
  q_sender_id : string;
  q_registration_secret : string;
  q_force : string
}.

(** The JSON body of the relay's [/_punch/register] response. *)
Record RegisterBody := {
  rb_error : option string;
  rb_ip_address : option string
}.

(** The JSON body of the relay's [/_punch/scope] response. *)
Record ScopeBody := {
  userToken : option string;
  userTokenSignature : option string
}.

(** The argument of [upnpClient.portMapping]. *)
Record PortMapping := {
  pm_public_port : Z;
  pm_private_host : string;
  pm_private_port : option Z;
  pm_ttl : Z
}.

(** What the plugin does to the outside world. *)
Inductive event :=
| Alert (msg : string)
| SettingsEvent
| HttpIp
| HttpDuckDns (domains token : string)
| HttpRegister (q : RegistrationQuery) (bearer : string)
| HttpScope (host scope : string) (ttl : Z) (bearer : string)
| UpnpPortMapping (m : PortMapping)
| UpnpGetMappings
| UnhandledRejection (e : string).

Inductive result (A : Type) :=
| Ok (a : A)
| Throw (e : string).
Arguments Ok {A} a.
Arguments Throw {A} e.

(** What the outside answers during one run of a method. *)
Record World := {
  w_random : Q;
  w_localAddresses : option (list string);
  w_portMapping_err : option string;
  w_registrationId : string;
  w_ip : result (option string);
  w_duckdns : result unit;
  w_register : result (option RegisterBody);
  w_scope : result ScopeBody;
  w_cloudMessagePath : string
}.

(** The fields of the [ScryptedCloud] instance. *)
Record Cloud := {
  values : Settings;
  cloudflareTunnel : option string;
  securePort : option Z;
  upnpStatus : string;
  whitelisted : gmap string string;
  trace : list event
}.

(** Operations of the platform that the plugin calls and that are not part
    of it: the WHATWG [URL] class, [URLSearchParams], the repository's
    [qsstringify] and the relay's host name. *)
Class Platform := {
  (** [SCRYPTED_SERVER] *)
  SCRYPTED_SERVER : string;
  (** [new URL(u).host] *)
  URL_host : string -> string;
  (** [new URL(u).pathname]; [None] when the constructor throws *)
  URL_pathname : string -> option string;
  (** [u = new URL(data, base); u.host = host; u.port = ''; u.toString()] *)
  URL_rehost : string -> string -> string -> string;
  (** [new URLSearchParams(t.split(';')[1] || '').get('short-lived') === 'true'] *)
  mime_short_lived : string -> bool;
  (** [qsstringify] of a list of keys and values *)
  qsstringify : list (string * option string) -> string
}.

Definition DEFAULT_SENDER_ID : string := "827888101440".
Definition SCRYPTED_CLOUD_MESSAGE_PATH : string := "/_punch/cloudmessage".

(** ** Field updates *)

Definition set_upnpPort (p : option Z) (v : Settings) : Settings :=
  {| token_info := token_info v;
     lastPersistedRegistrationId := lastPersistedRegistrationId v;
     registrationSecret := registrationSecret v;
     serverId := serverId v;
     serverName := serverName v;
     forwardingMode := forwardingMode v;
     hostname := hostname v;
     duckDnsToken := duckDnsToken v;
     duckDnsHostname := duckDnsHostname v;
     duckDnsCertValid := duckDnsCertValid v;
     upnpPort := p;
     securePortSetting := securePortSetting v;
     lastPersistedUpnpPort := lastPersistedUpnpPort v;
     lastPersistedIp := lastPersistedIp v;
     cloudflareEnabled := cloudflareEnabled v;
     cloudflaredTunnelToken := cloudflaredTunnelToken v;
     connectHomeScryptedApp := connectHomeScryptedApp v |}.

Definition set_lastPersistedIp (ip : option string) (v : Settings) : Settings :=
  {| token_info := token_info v;
     lastPersistedRegistrationId := lastPersistedRegistrationId v;
     registrationSecret := registrationSecret v;
     serverId := serverId v;
     serverName := serverName v;
     forwardingMode := forwardingMode v;
     hostname := hostname v;
     duckDnsToken := duckDnsToken v;
     duckDnsHostname := duckDnsHostname v;
     duckDnsCertValid := duckDnsCertValid v;
     upnpPort := upnpPort v;
     securePortSetting := securePortSetting v;
     lastPersistedUpnpPort := lastPersistedUpnpPort v;
     lastPersistedIp := ip;
     cloudflareEnabled := cloudflareEnabled v;
     cloudflaredTunnelToken := cloudflaredTunnelToken v;
     connectHomeScryptedApp := connectHomeScryptedApp v |}.

(** The two assignments made after a successful registration. *)
Definition set_registration_baseline (rid : string) (p : option Z)
    (v : Settings) : Settings :=
  {| token_info := token_info v;
     lastPersistedRegistrationId := Some rid;
     registrationSecret := registrationSecret v;
     serverId := serverId v;
     serverName := serverName v;
     forwardingMode := forwardingMode v;
     hostname := hostname v;
     duckDnsToken := duckDnsToken v;
     duckDnsHostname := duckDnsHostname v;
     duckDnsCertValid := duckDnsCertValid v;
     upnpPort := upnpPort v;
     securePortSetting := securePortSetting v;
     lastPersistedUpnpPort := p;
     lastPersistedIp := lastPersistedIp v;
     cloudflareEnabled := cloudflareEnabled v;
     cloudflaredTunnelToken := cloudflaredTunnelToken v;
     connectHomeScryptedApp := connectHomeScryptedApp v |}.

Definition with_values (f : Settings -> Settings) (c : Cloud) : Cloud :=
  {| values := f (values c);
     cloudflareTunnel := cloudflareTunnel c;
     securePort := securePort c;
     upnpStatus := upnpStatus c;
     whitelisted := whitelisted c;
     trace := trace c |}.

Definition with_upnpStatus (s : string) (c : Cloud) : Cloud :=
  {| values := values c;
     cloudflareTunnel := cloudflareTunnel c;
     securePort := securePort c;
     upnpStatus := s;
     whitelisted := whitelisted c;
     trace := trace c |}.

Definition with_whitelisted (f : gmap string string -> gmap string string)
    (c : Cloud) : Cloud :=
  {| values := values c;
     cloudflareTunnel := cloudflareTunnel c;
     securePort := securePort c;
     upnpStatus := upnpStatus c;
     whitelisted := f (whitelisted c);
     trace := trace c |}.

Definition with_tunnel (t : option string) (c : Cloud) : Cloud :=
  {| values := values c;
     cloudflareTunnel := t;
     securePort := securePort c;
     upnpStatus := upnpStatus c;
     whitelisted := whitelisted c;
     trace := trace c |}.

Definition with_event (e : event) (c : Cloud) : Cloud :=
  {| values := values c;
     cloudflareTunnel := cloudflareTunnel c;
     securePort := securePort c;
     upnpStatus := upnpStatus c;
     whitelisted := whitelisted c;
     trace := trace c ++ [e] |}.

(** ** The monad of plugin methods: state and exceptions *)

Definition M (A : Type) : Type := Cloud -> result A * Cloud.

Definition ret {A} (a : A) : M A := fun c => (Ok a, c).

Definition throw {A} (e : string) : M A := fun c => (Throw e, c).

Definition bind {A B} (m : M A) (k : A -> M B) : M B :=
  fun c =>
    match m c with
    | (Ok a, c') => k a c'
    | (Throw e, c') => (Throw e, c')
    end.

Notation "x <- m ;; k" := (bind m (fun x => k))
  (at level 100, m at next level, right associativity).
Notation "m ;;; k" := (bind m (fun _ => k))
  (at level 100, right associativity).

Definition read {A} (f : Cloud -> A) : M A := fun c => (Ok (f c), c).

Definition update (f : Cloud -> Cloud) : M unit := fun c => (Ok tt, f c).

Definition emit (e : event) : M unit := update (with_event e).

(** [this.log.a(msg)] *)
Definition alert (msg : string) : M unit := emit (Alert msg).

(** Awaiting an answer of the outside: a rejection is thrown. *)
Definition await {A} (r : result A) : M A := fun c => (r, c).

(** A promise nobody awaits: its effects happen, its rejection is lost. *)
Definition detached {A} (m : M A) : M unit :=
  fun c =>
    match m c with
    | (Ok _, c') => (Ok tt, c')
    | (Throw e, c') => (Ok tt, with_event (UnhandledRejection e) c')
    end.

(** ** Reachability controller *)

(** [get cloudflareTunnelHost()] *)
Definition cloudflareTunnelHost `{Platform} (c : Cloud) : option string :=
  if truthy_str (cloudflareTunnel c)
  then option_map URL_host (cloudflareTunnel c)
  else None.

(** The constant [upnp_port] of [getAuthority]. *)
Definition authority_upnp_port (v : Settings) : option Z :=
  if mode_eqb (forwardingMode v) CustomDomain then Some 443 else upnpPort v.

(** The constant [hostname] of [getAuthority]. *)
Definition authority_hostname (v : Settings) : option string :=
  if mode_eqb (forwardingMode v) CustomDomain
  then hostname v
  else js_and_str (duckDnsToken v) (duckDnsHostname v).

Definition port_443_error (v : Settings) : string :=
  if mode_eqb (forwardingMode v) CustomDomain
  then "Hostname is required for port Custom Domain setup."
  else "Port 443 requires Custom Domain configuration.".

Definition getAuthority : M Authority :=
  v <- read values ;;
  if mode_eqb (forwardingMode v) Disabled then ret empty_authority
  else
    let upnp_port := authority_upnp_port v in
    let hostname := authority_hostname v in
    if num_opt_eqb upnp_port (Some 443) && negb (truthy_str hostname)
    then alert (port_443_error v) ;;; throw (port_443_error v)
    else if negb (truthy_str hostname)
    then ret {| a_upnp_port := upnp_port; a_port := upnp_port;
                a_hostname := None |}
    else ret {| a_upnp_port := upnp_port; a_port := upnp_port;
                a_hostname := hostname |}.

Definition error_body (e : string) : option RegisterBody :=
  Some {| rb_error := Some e; rb_ip_address := None |}.

Definition disabled_error `{Platform} : string :=
  "Scrypted Cloud connection to " ++ SCRYPTED_SERVER ++ " is disabled.".

Definition login_error : string :=
  "Login to the Scrypted Cloud plugin to reach this server from the cloud, or disable this alert in the Scrypted Cloud plugin Connection settings.".

(** [body?.error], when truthy. *)
Definition body_error (b : option RegisterBody) : option string :=
  match b with
  | Some r => if truthy_str (rb_error r) then rb_error r else None
  | None => None
  end.

Definition sendRegistrationId `{Platform} (w : World)
    (registration_id : string) (force : bool) : M (option RegisterBody) :=
  authority <- getAuthority ;;
  v <- read values ;;
  let q := {| q_authority := authority;
              q_registration_id := registration_id;
              q_server_id := serverId v;
              q_server_name := serverName v;
              q_sender_id := DEFAULT_SENDER_ID;
              q_registration_secret := registrationSecret v;
              q_force := if force then "true" else EmptyString |} in
  if negb (connectHomeScryptedApp v) then ret (error_body disabled_error)
  else
    match token_info v with
    | Some (String a t) =>
        emit (HttpRegister q (String a t)) ;;;
        match w_register w with
        | Throw e => ret (error_body ("Error: " ++ e)%string)
        | Ok body =>
            match body_error body with
            | Some error => alert error ;;; ret body
            | None =>
                update (with_values (set_registration_baseline
                          registration_id (a_upnp_port authority))) ;;;
                ret body
            end
        end
    | _ => alert login_error ;;; ret (error_body login_error)
    end.

(** [`${hostname}`] of a string-or-undefined value. *)
Definition show_str (o : option string) : string :=
  match o with
  | Some s => s
  | None => "undefined"
  end.

(** The address the relay should see, as [updatePortForward] resolves it. *)
Definition resolve_ip `{Platform} (w : World) : M (option string) :=
  v <- read values ;;
  tunnelHost <- read cloudflareTunnelHost ;;
  if mode_eqb (forwardingMode v) CustomDomain then
    if negb (truthy_str (hostname v))
    then throw "Hostname is required for port Custom Domain setup."
    else ret (hostname v)
  else if truthy_str (duckDnsHostname v) && truthy_str (duckDnsToken v) then
    emit (HttpDuckDns (show_str (duckDnsHostname v))
                      (show_str (duckDnsToken v))) ;;;
    match w_duckdns w with
    | Throw _ => throw "Duck DNS Error. See Console Logs."
    | Ok _ => throw "Let's Encrypt Error. See Console Logs."
    end
  else
    ip <- (if negb (truthy_str tunnelHost)
           then emit HttpIp ;;; await (w_ip w)
           else ret None) ;;
    ret (if truthy_str tunnelHost then tunnelHost else ip).

Definition verify_ip_alert (v : Settings) : string :=
  "Scrypted Cloud could not verify the IP Address of your custom domain "
  ++ show_str (hostname v) ++ ".".

(** The value compared with [lastPersistedUpnpPort]: the argument, or 443
    with a custom domain or a tunnel host. *)
Definition compared_port `{Platform} (c : Cloud) (upnpPort : option Z)
  : option Z :=
  if mode_eqb (forwardingMode (values c)) CustomDomain
     || truthy_str (cloudflareTunnelHost c)
  then Some 443 else upnpPort.

(** The guard of the registration block of [updatePortForward]. *)
Definition baseline_changed (v : Settings) (port : option Z)
    (ip : option string) : bool :=
  negb (num_opt_eqb (lastPersistedUpnpPort v) port)
  || negb (str_opt_eqb ip (lastPersistedIp v)).

Definition updatePortForward `{Platform} (w : World) (upnpPort : option Z)
  : M unit :=
  update (with_values (set_upnpPort upnpPort)) ;;;
  ip <- resolve_ip w ;;
  port <- read (fun c => compared_port c upnpPort) ;;
  v <- read values ;;
  if baseline_changed v port ip then
    data <- sendRegistrationId w (w_registrationId w) false ;;
    match body_error data with
    | Some _ => ret tt
    | None =>
        match data with
        | None =>
            if str_opt_eqb ip (Some "localhost")
            then update (with_values (set_lastPersistedIp ip))
            else throw "Cannot read properties of undefined (reading 'ip_address')"
        | Some d =>
            tunnelHost <- read cloudflareTunnelHost ;;
            v' <- read values ;;
            (if negb (str_opt_eqb ip (Some "localhost"))
                && negb (str_opt_eqb ip (rb_ip_address d))
                && negb (str_opt_eqb ip tunnelHost)
             then alert (verify_ip_alert v')
             else ret tt) ;;;
            update (with_values (set_lastPersistedIp ip))
        end
    end
  else ret tt.

Definition port_443_not_allowed : string :=
  "Scrypted Cloud does not allow usage of port 443. Use a custom domain with a SSL terminating reverse proxy.".

Definition no_local_address : string :=
  "UPNP Port Reservation failed. Scrypted Server Address is not configured in system Settings.".

Definition upnp_failed : string :=
  "UPNP Port Reservation failed. Enable UPNP on your router, set up port forwarding, or disable Port Forwarding Mode in the Scrypted Cloud Plugin to suppress this error.".

(** [Math.round(Math.random() * 20000 + 40000)] for the double [r] that
    [Math.random()] returns: the product and the sum are rounded as
    doubles. *)
Definition random_port (r : Q) : Z :=
  Math_round (binary64 (binary64 (r * inject_Z 20000) + inject_Z 40000))%Q.

(** The local [upnpPort] of [refreshPortForward]: the persisted port, or a
    random one when none is persisted. *)
Definition chosen_port (w : World) (v : Settings) : Z :=
  match upnpPort v with
  | Some n => if Z.eqb n 0 then random_port (w_random w) else n
  | None => random_port (w_random w)
  end.

(** The callback of [upnpClient.portMapping]. *)
Definition portMapping_done `{Platform} (w : World) (port : Z) : M unit :=
  emit UpnpGetMappings ;;;
  match w_portMapping_err w with
  | Some _ =>
      update (with_upnpStatus "Error: See Console") ;;;
      emit SettingsEvent ;;;
      alert upnp_failed
  | None =>
      update (with_upnpStatus "Active") ;;;
      emit SettingsEvent ;;;
      updatePortForward w (Some port)
  end.

Definition refreshPortForward `{Platform} (w : World) : M unit :=
  v <- read values ;;
  let port := chosen_port w v in
  if mode_eqb (forwardingMode v) Disabled then
    detached (updatePortForward w (Some port))
  else if Z.eqb port 443 then
    update (with_upnpStatus "Error: Port 443 Not Allowed") ;;;
    alert port_443_not_allowed ;;;
    emit SettingsEvent
  else if mode_eqb (forwardingMode v) RouterForward then
    updatePortForward w (Some port)
  else if mode_eqb (forwardingMode v) CustomDomain then
    updatePortForward w (upnpPort v)
  else
    match w_localAddresses w with
    | Some (String a t :: _) =>
        sp <- read securePort ;;
        emit (UpnpPortMapping {| pm_public_port := port;
                                 pm_private_host := String a t;
                                 pm_private_port := sp;
                                 pm_ttl := 1800 |}) ;;;
        detached (portMapping_done w port)
    | _ => alert no_local_address
    end.

(** The period of [setInterval(() => this.refreshPortForward(), ...)], in
    milliseconds. *)
Definition upnpInterval_ms : Z := 30 * 60 * 1000.

(** When [observeRegistrations], run at time [t0] (milliseconds), makes its
    [n]-th call of [refreshPortForward]: at once, then on every tick. *)
Definition refresh_time (t0 : Z) (n : nat) : Z :=
  t0 + Z.of_nat n * upnpInterval_ms.

(** The UPnP mappings requested so far. *)
Definition mappings_of (t : list event) : list PortMapping :=
  omap (fun e => match e with UpnpPortMapping m => Some m | _ => None end) t.

(** The registration requests sent to the relay so far. *)
Definition registrations_of (t : list event) : list RegistrationQuery :=
  omap (fun e => match e with HttpRegister q _ => Some q | _ => None end) t.

(** The alerts posted so far. *)
Definition alerts_of (t : list event) : list string :=
  omap (fun e => match e with Alert m => Some m | _ => None end) t.

(** ** Public URL conversion and the whitelist cache *)

(** [getSSLHostname()]: the TLS-verified public host, [None] when the
    expression is falsy. *)
Definition getSSLHostname `{Platform} (c : Cloud) : option string :=
  let v := values c in
  if mode_eqb (forwardingMode v) CustomDomain && truthy_str (hostname v)
  then hostname v
  else if truthy_str (cloudflaredTunnelToken v)
          && truthy_str (cloudflareTunnelHost c)
  then cloudflareTunnelHost c
  else if duckDnsCertValid v && truthy_str (duckDnsHostname v)
          && truthy_num (upnpPort v)
  then Some (show_str (duckDnsHostname v) ++ ":"
             ++ match upnpPort v with Some n => pretty n | None => EmptyString end)%string
  else None.

(** [getHostname()] *)
Definition getHostname `{Platform} (c : Cloud) : string :=
  match getSSLHostname c with
  | Some h => h
  | None => SCRYPTED_SERVER
  end.

Definition not_logged_in : string := "@scrypted/cloud is not logged in.".

(** A call of [whitelist] waiting at its [await httpFetch] for the
    relay's answer to the scope request: what the rest of the call still
    uses. *)
Record Suspended := {
  s_pathname : string;
  s_baseUrl : string
}.

(** [whitelist] up to its [await httpFetch]: the URL when the call returns
    without asking the relay, the suspended call once the scope request
    is out. *)
Definition whitelist_start `{Platform} (localUrl : string) (ttl : Z)
    (baseUrl : string) : M (string + Suspended) :=
  match URL_pathname localUrl with
  | None => throw "TypeError: Invalid URL"
  | Some pathname =>
      ssl <- read getSSLHostname ;;
      match ssl with
      | Some _ => ret (inl (baseUrl ++ pathname)%string)
      | None =>
          cache <- read whitelisted ;;
          match cache !! pathname with
          | Some url => ret (inl url)
          | None =>
              v <- read values ;;
              match token_info v with
              | Some (String a t) =>
                  host <- read getHostname ;;
                  emit (HttpScope host pathname ttl (String a t)) ;;;
                  ret (inr {| s_pathname := pathname; s_baseUrl := baseUrl |})
              | _ => throw not_logged_in
              end
          end
      end
  end.

(** [whitelist] from the relay's response on, in the state the plugin is
    in when the response arrives. *)
Definition whitelist_resume `{Platform} (s : Suspended)
    (response : result ScopeBody) : M string :=
  scope <- await response ;;
  let tokens :=
    qsstringify
      [("user_token", userToken scope);
       ("user_token_signature", userTokenSignature scope)] in
  let url := (s_baseUrl s ++ s_pathname s ++ "?" ++ tokens)%string in
  update (with_whitelisted <[s_pathname s := url]>) ;;;
  ret url.

(** A call run to its end with nothing else running while it waits; the
    relay's answer is the world's. Calls that overlap are run by
    [happen] below. *)
Definition finish `{Platform} (w : World) (call : M (string + Suspended))
  : M string :=
  r <- call ;;
  match r with
  | inl url => ret url
  | inr s => whitelist_resume s (w_scope w)
  end.

Definition whitelist `{Platform} (w : World) (localUrl : string) (ttl : Z)
    (baseUrl : string) : M string :=
  finish w (whitelist_start localUrl ttl baseUrl).

(** [10 * 365 * 24 * 60 * 60 * 1000] *)
Definition TEN_YEARS_MS : Z := 10 * 365 * 24 * 60 * 60 * 1000.

(** [ScryptedCloud.convert], up to the await of its [whitelist] call. *)
Definition convert_start `{Platform} (data toMimeType : string)
  : M (string + Suspended) :=
  v <- read values ;;
  tunnel <- read cloudflareTunnel ;;
  if truthy_str tunnel && negb (mode_eqb (forwardingMode v) CustomDomain)
     && mime_short_lived toMimeType
  then
    host <- read cloudflareTunnelHost ;;
    ret (inl (URL_rehost data (show_str tunnel) (show_str host)))
  else
    host <- read getHostname ;;
    whitelist_start data TEN_YEARS_MS ("https://" ++ host)%string.

(** [ScryptedCloud.convert] *)
Definition convert `{Platform} (w : World) (data toMimeType : string)
  : M string :=
  finish w (convert_start data toMimeType).

(** [ScryptedPush.convert], up to the await of its [whitelist] call. With
    a TLS-verified host the cloud message path is awaited, which changes
    nothing in the plugin. *)
Definition push_convert_start `{Platform} (w : World) (data : string)
  : M (string + Suspended) :=
  ssl <- read getSSLHostname ;;
  match ssl with
  | Some validDomain =>
      ret (inl ("https://" ++ validDomain ++ w_cloudMessagePath w ++ "/" ++ data)%string)
  | None =>
      host <- read getHostname ;;
      whitelist_start ("http://127.0.0.1/push/" ++ data)%string TEN_YEARS_MS
        ("https://" ++ host ++ SCRYPTED_CLOUD_MESSAGE_PATH)%string
  end.

(** [ScryptedPush.convert] *)
Definition push_convert `{Platform} (w : World) (data : string) : M string :=
  finish w (push_convert_start w data).

(** The three ways a local URL is turned into a public one. *)
Inductive conversion :=
| CallWhitelist (localUrl : string) (ttl : Z) (baseUrl : string)
| CallConvert (data toMimeType : string)
| CallPushConvert (data : string).

Definition run_conversion `{Platform} (w : World) (k : conversion) : M string :=
  match k with
  | CallWhitelist localUrl ttl baseUrl => whitelist w localUrl ttl baseUrl
  | CallConvert data toMimeType => convert w data toMimeType
  | CallPushConvert data => push_convert w data
  end.

(** A conversion up to the point where it waits for the relay. *)
Definition conversion_start `{Platform} (w : World) (k : conversion)
  : M (string + Suspended) :=
  match k with
  | CallWhitelist localUrl ttl baseUrl => whitelist_start localUrl ttl baseUrl
  | CallConvert data toMimeType => convert_start data toMimeType
  | CallPushConvert data => push_convert_start w data
  end.

(** The local URL whose path keys the cache in a conversion. *)
Definition conversion_url (k : conversion) : string :=
  match k with
  | CallWhitelist localUrl _ _ => localUrl
  | CallConvert data _ => data
  | CallPushConvert data => ("http://127.0.0.1/push/" ++ data)%string
  end.

(** Whether [convert] answers from the tunnel without consulting the
    whitelist. *)
Definition takes_short_lived_branch `{Platform} (c : Cloud) (k : conversion)
  : bool :=
  match k with
  | CallConvert _ toMimeType =>
      truthy_str (cloudflareTunnel c)
      && negb (mode_eqb (forwardingMode (values c)) CustomDomain)
      && mime_short_lived toMimeType
  | _ => false
  end.

(** The relay scope calls made so far. *)
Definition scope_calls_of (t : list event) : list string :=
  omap (fun e => match e with HttpScope _ p _ _ => Some p | _ => None end) t.

(** *** Conversions that overlap

    The plugin runs on one thread: a call runs until it awaits, and other
    calls and the settings page get their turn while it waits. *)

(** The plugin together with the [whitelist] calls that wait for the
    relay. *)
Record Process := {
  plugin : Cloud;
  awaiting : list Suspended
}.

(** A conversion is called: it runs until it returns, throws, or waits
    for the relay. *)
Definition start_call `{Platform} (w : World) (k : conversion) (s : Process)
  : result (string + Suspended) * Process :=
  let (r, c) := conversion_start w k (plugin s) in
  (r, {| plugin := c;
         awaiting := match r with
                     | Ok (inr x) => awaiting s ++ [x]
                     | _ => awaiting s
                     end |}).

(** The relay answers the scope request of the [i]-th waiting call, which
    runs to its end. *)
Definition respond `{Platform} (i : nat) (response : result ScopeBody)
    (s : Process) : option (result string) * Process :=
  match awaiting s !! i with
  | None => (None, s)
  | Some x =>
      let (r, c) := whitelist_resume x response (plugin s) in
      (Some r, {| plugin := c; awaiting := delete i (awaiting s) |})
  end.

Inductive Happening :=
| Start (k : conversion)
| Respond (i : nat) (response : result ScopeBody)
| Configure (v : Settings) (tunnel : option string).

Definition happen `{Platform} (w : World) (e : Happening) (s : Process)
  : Process :=
  match e with
  | Start k => snd (start_call w k s)
  | Respond i response => snd (respond i response s)
  | Configure v tunnel =>
      {| plugin := with_tunnel tunnel (with_values (fun _ => v) (plugin s));
         awaiting := awaiting s |}
  end.

Definition happen_all `{Platform} (w : World) (es : list Happening)
    (s : Process) : Process :=
  fold_left (fun s e => happen w e s) es s.

(** The cache holds [url] for the path [p] and no waiting call is about to
    write that entry. *)
Definition settled (p url : string) (s : Process) : Prop :=
  whitelisted (plugin s) !! p = Some url
  /\ Forall (fun x => s_pathname x <> p) (awaiting s).

(** ** Reverse connection pool *)

(** The relay edge a reverse connection dials, as captured by the closure
    of [createReverseConnection]. *)
Record Target := {
  t_registrationId : string;
  t_serverPort : option string;
  t_serverHost : string
}.

(** The per-socket closure of [createReverseConnection]: where it dialed
    and its local [claimed] flag. *)
Record Closure := {
  cl_target : Target;
  cl_claimed : bool
}.

(** Sockets are numbered in the order [tls.connect] creates them. *)
Record Pool := {
  reverseConnections : gset nat;
  closures : gmap nat Closure;
  created : nat
}.

Definition empty_pool : Pool :=
  {| reverseConnections := ∅; closures := ∅; created := 0 |}.

(** The synchronous part of [createReverseConnection]: dial, add the socket
    to the set, install the close handler with [claimed = false]. *)
Definition createReverseConnection (tgt : Target) (p : Pool) : Pool :=
  {| reverseConnections := {[created p]} ∪ reverseConnections p;
     closures := <[created p := {| cl_target := tgt; cl_claimed := false |}]>
                   (closures p);
     created := S (created p) |}.

(** The [while (this.reverseConnections.size < 10)] loop. *)
Fixpoint ensure_loop (fuel : nat) (tgt : Target) (p : Pool) : Pool :=
  match fuel with
  | O => p
  | S fuel' =>
      if decide (size (reverseConnections p) < 10)%nat
      then ensure_loop fuel' tgt (createReverseConnection tgt p)
      else p
  end.

Definition ensureReverseConnections (tgt : Target) (p : Pool) : Pool :=
  ensure_loop 10 tgt p.

(** [readLine(client)] resolved: the relay claimed the socket. *)
Definition socket_claimed (n : nat) (p : Pool) : Pool :=
  {| reverseConnections := reverseConnections p;
     closures := alter (fun cl => {| cl_target := cl_target cl;
                                      cl_claimed := true |}) n (closures p);
     created := created p |}.

(** The ['close'] handler of socket [n]. *)
Definition socket_closed (n : nat) (p : Pool) : Pool :=
  match closures p !! n with
  | None => p
  | Some cl =>
      let p' := {| reverseConnections := reverseConnections p ∖ {[n]};
                   closures := closures p;
                   created := created p |} in
      if cl_claimed cl then ensureReverseConnections (cl_target cl) p' else p'
  end.

(** What can happen to the pool. *)
Inductive pool_event :=
| Ensure (tgt : Target)
| Claimed (n : nat)
| Closed (n : nat).

Definition pool_step (e : pool_event) (p : Pool) : Pool :=
  match e with
  | Ensure tgt => ensureReverseConnections tgt p
  | Claimed n => socket_claimed n p
  | Closed n => socket_closed n p
  end.

Definition pool_run (es : list pool_event) (p : Pool) : Pool :=
  fold_left (fun q e => pool_step e q) es p.

(** Every pooled socket and every close handler belongs to a socket that
    has been created. *)
Definition pool_wf (p : Pool) : Prop :=
  (∀ n, n ∈ reverseConnections p → (n < created p)%nat)
  ∧ (∀ n, is_Some (closures p !! n) → (n < created p)%nat).

(** ** Relay push messages *)

Inductive message :=
| CloudMessage (request : string)
| CallbackMessage (address : option string)
| OtherMessage.

(** [s.split(':')] *)
Fixpoint split_colon (s : string) : list string :=
  match s with
  | EmptyString => [EmptyString]
  | String c rest =>
      if Ascii.eqb c ":" then EmptyString :: split_colon rest
      else match split_colon rest with
           | [] => [String c EmptyString]
           | x :: xs => String c x :: xs
           end
  end.

(** [const [serverHost, serverPort] = address?.split(':') || [SCRYPTED_SERVER, 4001]] *)
Definition callback_target `{Platform} (rid : string) (address : option string)
  : Target :=
  match address with
  | None => {| t_registrationId := rid; t_serverPort := Some "4001";
               t_serverHost := SCRYPTED_SERVER |}
  | Some a =>
      let parts := split_colon a in
      {| t_registrationId := rid;
         t_serverPort := parts !! 1%nat;
         t_serverHost := show_str (parts !! 0%nat) |}
  end.

(** The state around the ['message'] listener: its [backoff] variable, the
    pool, and the [tls.connect] calls of the callback path. *)
Record Punch := {
  backoff : Z;
  pool : Pool;
  callback_dials : list Target
}.

Definition initial_punch : Punch :=
  {| backoff := 0; pool := empty_pool; callback_dials := [] |}.

(** The ['message'] listener; [now] and [now'] are the two readings of
    [Date.now()], [rid] the push registration id. Push delivery of a
    [cloudmessage] touches none of this state. *)
Definition on_message `{Platform} (now now' : Z) (rid : string) (m : message)
    (s : Punch) : Punch :=
  match m with
  | CallbackMessage address =>
      if Z.ltb now (backoff s + 5000) then s
      else
        let tgt := callback_target rid address in
        {| backoff := now';
           pool := ensureReverseConnections tgt (pool s);
           callback_dials := callback_dials s ++ [tgt] |}
  | _ => s
  end.

(** ** The cloudflared log scanner *)

Module TunnelLog.

Local Close Scope string_scope.
Local Open Scope N_scope.

(** JavaScript strings are sequences of UTF-16 code units. *)
Abbreviation jsstring := (list N).

(** The code units of an ASCII literal. *)
Definition js (s : string) : jsstring :=
  map N_of_ascii (list_ascii_of_string s).


(** Values produced by [JSON.parse]; a number keeps its source text. *)
#[warnings="-register-all"] Inductive json :=
| JNull
| JBool (b : bool)
| JNumber (lexeme : jsstring)
| JString (s : jsstring)
| JArray (items : list json)
| JObject (members : list (jsstring * json)).

Definition is_ws (c : N) : bool :=
  (c =? 32) || (c =? 9) || (c =? 10) || (c =? 13).

Fixpoint skip_ws (l : jsstring) : jsstring :=
  match l with
  | c :: rest => if is_ws c then skip_ws rest else l
  | [] => []
  end.

Definition is_digit (c : N) : bool := (48 <=? c) && (c <=? 57).

Definition hex_val (c : N) : option N :=
  if is_digit c then Some (c - 48)
  else if (97 <=? c) && (c <=? 102) then Some (c - 87)
  else if (65 <=? c) && (c <=? 70) then Some (c - 55)
  else None.

Definition hex4 (a b c d : N) : option N :=
  match hex_val a, hex_val b, hex_val c, hex_val d with
  | Some x, Some y, Some z, Some t => Some (((x * 16 + y) * 16 + z) * 16 + t)
  | _, _, _, _ => None
  end.

(** The character a two-character escape stands for. *)
Definition simple_escape (e : N) : option N :=
  if e =? 34 then Some 34
  else if e =? 92 then Some 92
  else if e =? 47 then Some 47
  else if e =? 98 then Some 8
  else if e =? 102 then Some 12
  else if e =? 110 then Some 10
  else if e =? 114 then Some 13
  else if e =? 116 then Some 9
  else None.

Definition cons_fst (c : N) (r : option (jsstring * jsstring))
  : option (jsstring * jsstring) :=
  match r with
  | Some (s, rest) => Some (c :: s, rest)
  | None => None
  end.

(** A JSON string after its opening quote: the decoded characters and the
    input after the closing quote. *)
Fixpoint parse_string_body (l : jsstring) : option (jsstring * jsstring) :=
  match l with
  | [] => None
  | c :: rest =>
      if c =? 34 then Some ([], rest)
      else if c =? 92 then
        match rest with
        | [] => None
        | e :: rest1 =>
            if e =? 117 then
              match rest1 with
              | h1 :: h2 :: h3 :: h4 :: rest2 =>
                  match hex4 h1 h2 h3 h4 with
                  | Some u => cons_fst u (parse_string_body rest2)
                  | None => None
                  end
              | _ => None
              end
            else
              match simple_escape e with
              | Some d => cons_fst d (parse_string_body rest1)
              | None => None
              end
        end
      else if c <? 32 then None
      else cons_fst c (parse_string_body rest)
  end.

(** The longest run of digits at the head of the input. *)
Fixpoint take_digits (l : jsstring) : jsstring * jsstring :=
  match l with
  | c :: rest =>
      if is_digit c
      then let (ds, r) := take_digits rest in (c :: ds, r)
      else ([], l)
  | [] => ([], [])
  end.

(** A JSON number: an optional minus sign, an integer part without a
    leading zero, an optional fraction, an optional exponent. The lexeme
    and the input after it. *)
Definition parse_number (l : jsstring) : option (jsstring * jsstring) :=
  let (sign, l1) :=
    match l with
    | c :: rest => if c =? 45 then ([c], rest) else ([], l)
    | [] => ([], l)
    end in
  let int_part :=
    match l1 with
    | c :: rest =>
        if c =? 48 then Some ([c], rest)
        else if is_digit c
        then let (ds, r) := take_digits rest in Some (c :: ds, r)
        else None
    | [] => None
    end in
  match int_part with
  | None => None
  | Some (ip, l2) =>
      let frac_part :=
        match l2 with
        | c :: rest =>
            if c =? 46 then
              match take_digits rest with
              | ([], _) => None
              | (ds, r) => Some (c :: ds, r)
              end
            else Some ([], l2)
        | [] => Some ([], l2)
        end in
      match frac_part with
      | None => None
      | Some (fp, l3) =>
          let exp_part :=
            match l3 with
            | c :: rest =>
                if (c =? 101) || (c =? 69) then
                  let (sg, r0) :=
                    match rest with
                    | d :: rest' =>
                        if (d =? 43) || (d =? 45) then ([d], rest')
                        else ([], rest)
                    | [] => ([], rest)
                    end in
                  match take_digits r0 with
                  | ([], _) => None
                  | (ds, r) => Some (c :: sg ++ ds, r)
                  end
                else Some ([], l3)
            | [] => Some ([], l3)
            end in
          match exp_part with
          | None => None
          | Some (ep, l4) => Some (sign ++ ip ++ fp ++ ep, l4)
          end
      end
  end.

(** Whether [p] is a prefix of [l]; the input after it. *)
Fixpoint strip_prefix (p l : jsstring) : option jsstring :=
  match p, l with
  | [], _ => Some l
  | a :: p', b :: l' => if a =? b then strip_prefix p' l' else None
  | _ :: _, [] => None
  end.

(** Recursive descent over the JSON grammar. [fuel] bounds the number of
    nested and successive values. *)
Fixpoint parse_value (fuel : nat) (l : jsstring) : option (json * jsstring) :=
  match fuel with
  | O => None
  | S f =>
      match l with
      | [] => None
      | c :: rest =>
          if c =? 34 then
            match parse_string_body rest with
            | Some (s, r) => Some (JString s, r)
            | None => None
            end
          else if c =? 91 then
            match skip_ws rest with
            | d :: r => if d =? 93 then Some (JArray [], r)
                        else
                          match parse_elements f (skip_ws rest) with
                          | Some (vs, r') => Some (JArray vs, r')
                          | None => None
                          end
            | [] => None
            end
          else if c =? 123 then
            match skip_ws rest with
            | d :: r => if d =? 125 then Some (JObject [], r)
                        else
                          match parse_members f (skip_ws rest) with
                          | Some (ms, r') => Some (JObject ms, r')
                          | None => None
                          end
            | [] => None
            end
          else if c =? 116 then
            match strip_prefix (js "true") l with
            | Some r => Some (JBool true, r)
            | None => None
            end
          else if c =? 102 then
            match strip_prefix (js "false") l with
            | Some r => Some (JBool false, r)
            | None => None
            end
          else if c =? 110 then
            match strip_prefix (js "null") l with
            | Some r => Some (JNull, r)
            | None => None
            end
          else
            match parse_number l with
            | Some (lex, r) => Some (JNumber lex, r)
            | None => None
            end
      end
  end
with parse_elements (fuel : nat) (l : jsstring)
  : option (list json * jsstring) :=
  match fuel with
  | O => None
  | S f =>
      match parse_value f l with
      | Some (v, rest) =>
          match skip_ws rest with
          | d :: r =>
              if d =? 44 then
                match parse_elements f (skip_ws r) with
                | Some (vs, r') => Some (v :: vs, r')
                | None => None
                end
              else if d =? 93 then Some ([v], r)
              else None
          | [] => None
          end
      | None => None
      end
  end
with parse_members (fuel : nat) (l : jsstring)
  : option (list (jsstring * json) * jsstring) :=
  match fuel with
  | O => None
  | S f =>
      match l with
      | q :: rest =>
          if q =? 34 then
            match parse_string_body rest with
            | Some (key, r0) =>
                match skip_ws r0 with
                | d :: r1 =>
                    if d =? 58 then
                      match parse_value f (skip_ws r1) with
                      | Some (v, r2) =>
                          match skip_ws r2 with
                          | e :: r3 =>
                              if e =? 44 then
                                match parse_members f (skip_ws r3) with
                                | Some (ms, r') => Some ((key, v) :: ms, r')
                                | None => None
                                end
                              else if e =? 125 then Some ([(key, v)], r3)
                              else None
                          | [] => None
                          end
                      | None => None
                      end
                    else None
                | [] => None
                end
            | None => None
            end
          else None
      | [] => None
      end
  end.

(** [JSON.parse(text)]; [None] is a [SyntaxError]. Twice the length of
    the text is fuel enough: more fuel never changes the answer. *)
Definition JSON_parse (text : jsstring) : option json :=
  match parse_value (S (2 * length text)) (skip_ws text) with
  | Some (v, rest) =>
      match skip_ws rest with
      | [] => Some v
      | _ :: _ => None
      end
  | None => None
  end.

Definition jseqb (a b : jsstring) : bool := bool_decide (a = b).

(** The own property [key] of an object built by [JSON.parse]: of two
    members with the same key the later one wins. *)
Fixpoint lookup_member (key : jsstring) (ms : list (jsstring * json))
  : option json :=
  match ms with
  | [] => None
  | (k, v) :: rest =>
      match lookup_member key rest with
      | Some x => Some x
      | None => if jseqb k key then Some v else None
      end
  end.

(** [v.key] for a non-nullish [v]; [None] is [undefined]. *)
Definition get_prop (key : jsstring) (v : json) : option json :=
  match v with
  | JObject ms => lookup_member key ms
  | _ => None
  end.

(** [v?.[0]] *)
Definition get_first (v : option json) : option json :=
  match v with
  | Some (JArray items) => head items
  | Some (JString s) => match s with c :: _ => Some (JString [c]) | [] => None end
  | Some (JObject ms) => lookup_member (js "0") ms
  | _ => None
  end.

(** [v?.hostname] *)
Definition get_hostname (v : option json) : option json :=
  match v with
  | Some x => get_prop (js "hostname") x
  | None => None
  end.

(** [parsed.ingress?.[0]?.hostname]; the outer [None] is the [TypeError]
    of reading a property of [null]. *)
Definition ingress_hostname (parsed : json) : option (option json) :=
  match parsed with
  | JNull => None
  | _ => Some (get_hostname (get_first (get_prop (js "ingress") parsed)))
  end.

(** What [deferred.resolve] is called with. *)
Inductive resolution :=
| Undefined
| Url (u : jsstring)
| NonString (hostname : json).

(** The [if (!hostname) ... else ...] of the scanner. A hostname that is a
    number, [true], an array or an object is kept as [NonString]: the
    promise is resolved with its string conversion after [https://] (or
    with [undefined] for the number zero), which is not modelled. *)
Definition resolve_hostname (h : option json) : resolution :=
  match h with
  | None | Some JNull | Some (JBool false) | Some (JString []) => Undefined
  | Some (JString (c :: s)) => Url (js "https://" ++ c :: s)
  | Some v => NonString v
  end.

(** [.] of a regular expression without the [s] flag. *)
Definition is_line_terminator (c : N) : bool :=
  (c =? 10) || (c =? 13) || (c =? 8232) || (c =? 8233).

(** The lazy tail of the pattern, any characters up to the first closing
    brace followed by a quote, matched at the head of the input: the
    matched text. *)
Fixpoint lazy_until_close (l : jsstring) : option jsstring :=
  match l with
  | [] => None
  | c :: rest =>
      match strip_prefix [125; 34] l with
      | Some _ => Some [125; 34]
      | None =>
          if is_line_terminator c then None
          else option_map (cons c) (lazy_until_close rest)
      end
  end.

(** The pattern (the marker [config=], then the group: a quote and the
    lazy tail) matched at the head of the input: the group. *)
Definition match_config_here (l : jsstring) : option jsstring :=
  match strip_prefix (js "config=" ++ [34]) l with
  | Some rest => option_map (cons 34) (lazy_until_close rest)
  | None => None
  end.

(** [exec] of the pattern on a line: group 1 of the leftmost match. *)
Fixpoint config_regex_exec (line : jsstring) : option jsstring :=
  match match_config_here line with
  | Some g => Some g
  | None =>
      match line with
      | [] => None
      | _ :: rest => config_regex_exec rest
      end
  end.

(** The outcome of the loop body for one line. *)
Inductive line_outcome :=
| NoConfig
| Caught
| Resolve (r : resolution).

(** [JSON.parse(JSON.parse(json))]: the second call parses the string the
    first one returned (a group opens with a quote, so the first result is
    a string). *)
Definition double_parse (text : jsstring) : option json :=
  match JSON_parse text with
  | Some (JString s) => JSON_parse s
  | _ => None
  end.

Definition scan_line (line : jsstring) : line_outcome :=
  match config_regex_exec line with
  | None => NoConfig
  | Some group =>
      match double_parse group with
      | None => Caught
      | Some parsed =>
          match ingress_hostname parsed with
          | None => Caught
          | Some h => Resolve (resolve_hostname h)
          end
      end
  end.

(** [s.split('\n')] *)
Fixpoint split_lines (s : jsstring) : list jsstring :=
  match s with
  | [] => [[]]
  | c :: rest =>
      if c =? 10 then [] :: split_lines rest
      else match split_lines rest with
           | [] => [[c]]
           | x :: xs => (c :: x) :: xs
           end
  end.

(** Modelled from the spec: the [Deferred] class (@scrypted/common) is not
    among the sources. What the scanner finds resolves a pending future;
    as with every promise, a call on a settled one changes nothing. *)
Definition settle (d : option resolution) (r : resolution)
  : option resolution :=
  match d with
  | Some _ => d
  | None => Some r
  end.

(** The [stderr] ['data'] listener on the state of [deferred]. *)
Definition on_stderr_data (chunk : jsstring) (d : option resolution)
  : option resolution :=
  fold_left
    (fun d line => match scan_line line with
                   | Resolve r => settle d r
                   | _ => d
                   end)
    (split_lines chunk) d.





(** The double quote and the escaped double quote of the log text. *)
Definition dq : string := String (ascii_of_nat 34) EmptyString.




(** The opening of the pattern: the marker and the quote of the group. *)
Definition marker : jsstring := js "config=" ++ [34].

(** Whether [p] occurs in [l]. *)
Fixpoint occurs (p l : jsstring) : bool :=
  match strip_prefix p l with
  | Some _ => true
  | None =>
      match l with
      | [] => false
      | _ :: rest => occurs p rest
      end
  end.


End TunnelLog.

(** ** A concrete platform

    The platform operations on the URLs the plugin meets: absolute
    [http://] and [https://] URLs without user info or default port, whose
    path needs no normalisation or escaping. *)

Module SimplePlatform.

(** The text up to the first character satisfying [stop], and the rest. *)
Fixpoint span_until (stop : ascii -> bool) (s : string) : string * string :=
  match s with
  | EmptyString => (EmptyString, EmptyString)
  | String c rest =>
      if stop c then (EmptyString, s)
      else let (a, b) := span_until stop rest in (String c a, b)
  end.

Fixpoint strip (p s : string) : option string :=
  match p, s with
  | EmptyString, _ => Some s
  | String a p', String b s' => if Ascii.eqb a b then strip p' s' else None
  | String _ _, EmptyString => None
  end.

Definition is_authority_end (c : ascii) : bool :=
  Ascii.eqb c "/" || Ascii.eqb c "?" || Ascii.eqb c "#".

Definition is_path_end (c : ascii) : bool :=
  Ascii.eqb c "?" || Ascii.eqb c "#".

(** The scheme with its slashes, and what follows. *)
Definition split_scheme (u : string) : option (string * string) :=
  match strip "https://" u with
  | Some r => Some ("https://", r)
  | None =>
      match strip "http://" u with
      | Some r => Some ("http://", r)
      | None => None
      end
  end.

Definition host (u : string) : string :=
  match split_scheme u with
  | Some (_, r) => fst (span_until is_authority_end r)
  | None => EmptyString
  end.

Definition pathname (u : string) : option string :=
  match split_scheme u with
  | Some (_, r) =>
      match fst (span_until is_path_end (snd (span_until is_authority_end r))) with
      | EmptyString => Some "/"
      | p => Some p
      end
  | None => None
  end.

Definition rehost (data base h : string) : string :=
  match split_scheme data with
  | Some (scheme, r) =>
      match snd (span_until is_authority_end r) with
      | EmptyString => (scheme ++ h ++ "/")%string
      | tail => (scheme ++ h ++ tail)%string
      end
  | None => ("https://" ++ h ++ data)%string
  end.

(** [s.split(sep)] *)
Fixpoint split_on (sep : ascii) (s : string) : list string :=
  match s with
  | EmptyString => [EmptyString]
  | String c rest =>
      if Ascii.eqb c sep then EmptyString :: split_on sep rest
      else match split_on sep rest with
           | [] => [String c EmptyString]
           | x :: xs => String c x :: xs
           end
  end.

(** The names and values of [new URLSearchParams(text)], for a text
    without percent escapes and plus signs: a leading question mark is
    dropped, the pieces between ampersands are cut at their first equals
    sign, and empty pieces are skipped. *)
Definition search_params (text : string) : list (string * string) :=
  let text := match text with
              | String "?" rest => rest
              | _ => text
              end in
  omap (fun piece =>
          match piece with
          | EmptyString => None
          | _ =>
              let (name, rest) := span_until (fun c => Ascii.eqb c "=") piece in
              Some (name, match rest with
                          | String _ value => value
                          | EmptyString => EmptyString
                          end)
          end)
       (split_on "&" text).

(** [params.get(name)]: the value of the first pair with that name. *)
Fixpoint params_get (name : string) (l : list (string * string))
  : option string :=
  match l with
  | [] => None
  | (k, v) :: rest => if String.eqb k name then Some v else params_get name rest
  end.

(** [new URLSearchParams(t.split(';')[1] || '').get('short-lived') === 'true'] *)
Definition short_lived (t : string) : bool :=
  match params_get "short-lived"
          (search_params (nth 1 (split_on ";" t) EmptyString)) with
  | Some v => String.eqb v "true"
  | None => false
  end.

(** Keys and values joined by [=] and [&]; an undefined value is left out. *)
Fixpoint qs (l : list (string * option string)) : string :=
  match l with
  | [] => EmptyString
  | (k, Some v) :: rest =>
      match qs rest with
      | EmptyString => (k ++ "=" ++ v)%string
      | tail => (k ++ "=" ++ v ++ "&" ++ tail)%string
      end
  | (_, None) :: rest => qs rest
  end.

Definition platform : Platform :=
  {| SCRYPTED_SERVER := "home.scrypted.app";
     URL_host := host;
     URL_pathname := pathname;
     URL_rehost := rehost;
     mime_short_lived := short_lived;
     qsstringify := qs |}.

End SimplePlatform.

(** ** Sample states *)

(** A freshly installed plugin: UPnP mode, nothing persisted, logged in,
    the secure server listening on port 10443. *)
Definition fresh_settings : Settings :=
  {| token_info := Some "token";
     lastPersistedRegistrationId := None;
     registrationSecret := "secret";
     serverId := "0123456789abcdef";
     serverName := "nvr";
     forwardingMode := UPNP;
     hostname := None;
     duckDnsToken := None;
     duckDnsHostname := None;
     duckDnsCertValid := false;
     upnpPort := None;
     securePortSetting := Some 10443;
     lastPersistedUpnpPort := None;
     lastPersistedIp := None;
     cloudflareEnabled := true;
     cloudflaredTunnelToken := None;
     connectHomeScryptedApp := true |}.

Definition set_mode (m : ForwardingMode) (v : Settings) : Settings :=
  {| token_info := token_info v;
     lastPersistedRegistrationId := lastPersistedRegistrationId v;
     registrationSecret := registrationSecret v;
     serverId := serverId v;
     serverName := serverName v;
     forwardingMode := m;
     hostname := hostname v;
     duckDnsToken := duckDnsToken v;
     duckDnsHostname := duckDnsHostname v;
     duckDnsCertValid := duckDnsCertValid v;
     upnpPort := upnpPort v;
     securePortSetting := securePortSetting v;
     lastPersistedUpnpPort := lastPersistedUpnpPort v;
     lastPersistedIp := lastPersistedIp v;
     cloudflareEnabled := cloudflareEnabled v;
     cloudflaredTunnelToken := cloudflaredTunnelToken v;
     connectHomeScryptedApp := connectHomeScryptedApp v |}.

Definition set_hostname (h : option string) (v : Settings) : Settings :=
  {| token_info := token_info v;
     lastPersistedRegistrationId := lastPersistedRegistrationId v;
     registrationSecret := registrationSecret v;
     serverId := serverId v;
     serverName := serverName v;
     forwardingMode := forwardingMode v;
     hostname := h;
     duckDnsToken := duckDnsToken v;
     duckDnsHostname := duckDnsHostname v;
     duckDnsCertValid := duckDnsCertValid v;
     upnpPort := upnpPort v;
     securePortSetting := securePortSetting v;
     lastPersistedUpnpPort := lastPersistedUpnpPort v;
     lastPersistedIp := lastPersistedIp v;
     cloudflareEnabled := cloudflareEnabled v;
     cloudflaredTunnelToken := cloudflaredTunnelToken v;
     connectHomeScryptedApp := connectHomeScryptedApp v |}.

Definition set_token_info (t : option string) (v : Settings) : Settings :=
  {| token_info := t;
     lastPersistedRegistrationId := lastPersistedRegistrationId v;
     registrationSecret := registrationSecret v;
     serverId := serverId v;
     serverName := serverName v;
     forwardingMode := forwardingMode v;
     hostname := hostname v;
     duckDnsToken := duckDnsToken v;
     duckDnsHostname := duckDnsHostname v;
     duckDnsCertValid := duckDnsCertValid v;
     upnpPort := upnpPort v;
     securePortSetting := securePortSetting v;
     lastPersistedUpnpPort := lastPersistedUpnpPort v;
     lastPersistedIp := lastPersistedIp v;
     cloudflareEnabled := cloudflareEnabled v;
     cloudflaredTunnelToken := cloudflaredTunnelToken v;
     connectHomeScryptedApp := connectHomeScryptedApp v |}.

Definition set_connect (b : bool) (v : Settings) : Settings :=
  {| token_info := token_info v;
     lastPersistedRegistrationId := lastPersistedRegistrationId v;
     registrationSecret := registrationSecret v;
     serverId := serverId v;
     serverName := serverName v;
     forwardingMode := forwardingMode v;
     hostname := hostname v;
     duckDnsToken := duckDnsToken v;
     duckDnsHostname := duckDnsHostname v;
     duckDnsCertValid := duckDnsCertValid v;
     upnpPort := upnpPort v;
     securePortSetting := securePortSetting v;
     lastPersistedUpnpPort := lastPersistedUpnpPort v;
     lastPersistedIp := lastPersistedIp v;
     cloudflareEnabled := cloudflareEnabled v;
     cloudflaredTunnelToken := cloudflaredTunnelToken v;
     connectHomeScryptedApp := b |}.

Definition fresh_cloud : Cloud :=
  {| values := fresh_settings;
     cloudflareTunnel := None;
     securePort := Some 10443;
     upnpStatus := "Starting";
     whitelisted := ∅;
     trace := [] |}.

(** A cooperative outside: the router maps, the relay sees the server at
    203.0.113.7 and accepts the registration. *)
Definition good_world : World :=
  {| w_random := 1 # 2;
     w_localAddresses := Some ["192.168.1.10"];
     w_portMapping_err := None;
     w_registrationId := "fcm-registration";
     w_ip := Ok (Some "203.0.113.7");
     w_duckdns := Ok tt;
     w_register := Ok (Some {| rb_error := None;
                               rb_ip_address := Some "203.0.113.7" |});
     w_scope := Ok {| userToken := Some "ut"; userTokenSignature := Some "sig" |};
     w_cloudMessagePath := "/endpoint/@scrypted/cloud/public/cmt" |}.

Definition with_random (r : Q) (w : World) : World :=
  {| w_random := r;
     w_localAddresses := w_localAddresses w;
     w_portMapping_err := w_portMapping_err w;
     w_registrationId := w_registrationId w;
     w_ip := w_ip w;
     w_duckdns := w_duckdns w;
     w_register := w_register w;
     w_scope := w_scope w;
     w_cloudMessagePath := w_cloudMessagePath w |}.

(** A state on which [sendRegistrationId] meets its not-logged-in guard:
    router forward on port 50000, connected, no bearer token. *)
Definition logged_out_cloud : Cloud :=
  with_values (fun v => set_token_info None
                          (set_upnpPort (Some 50000) (set_mode RouterForward v)))
    fresh_cloud.

(** The query [sendRegistrationId] builds. *)
Definition registration_query (c : Cloud) (a : Authority) (rid : string)
    (force : bool) : RegistrationQuery :=
  {| q_authority := a;
     q_registration_id := rid;
     q_server_id := serverId (values c);
     q_server_name := serverName (values c);
     q_sender_id := DEFAULT_SENDER_ID;
     q_registration_secret := registrationSecret (values c);
     q_force := if force then "true" else EmptyString |}.

(** The circumstances in which [updatePortForward] gets as far as
    sending a registration: connected and logged in, the address resolved
    to [ip] (the hostname of a custom domain; otherwise, with no Duck DNS
    pair set, the tunnel host when there is one and the relay's answer
    when there is none), and a port that [getAuthority] accepts. *)
Definition reaches_relay `{Platform} (w : World) (p : option Z) (c : Cloud)
    (ip : option string) : Prop :=
  connectHomeScryptedApp (values c) = true
  /\ truthy_str (token_info (values c)) = true
  /\ (if mode_eqb (forwardingMode (values c)) CustomDomain
      then ip = hostname (values c) /\ truthy_str ip = true
      else truthy_str (duckDnsHostname (values c))
           && truthy_str (duckDnsToken (values c)) = false
           /\ (if truthy_str (cloudflareTunnelHost c)
               then ip = cloudflareTunnelHost c
               else w_ip w = Ok ip)
           /\ (forwardingMode (values c) <> Disabled -> p <> Some 443)).

(** The circumstances in which a registration goes through: it reaches
    the relay, and the relay answers [body] without error. *)
Definition registration_goes_through `{Platform} (w : World) (p : option Z)
    (c : Cloud) (ip : option string) (body : RegisterBody) : Prop :=
  reaches_relay w p c ip
  /\ w_register w = Ok (Some body)
  /\ truthy_str (rb_error body) = false.

(** Whether the port [updatePortForward] compares with the baseline is
    the port [sendRegistrationId] persists as the baseline: so it is in
    Custom Domain mode (443 both) and without a tunnel host (the port
    itself both); with a tunnel host outside Custom Domain mode 443 is
    compared and the port itself persisted. *)
Definition compares_authority_port `{Platform} (c : Cloud) : Prop :=
  forwardingMode (values c) = CustomDomain
  \/ truthy_str (cloudflareTunnelHost c) = false.

(** The state in which [updatePortForward] has resolved the address: the
    port persisted, and the relay asked for the address unless a custom
    domain or a tunnel host names it. *)
Definition resolved_state `{Platform} (p : option Z) (c : Cloud) : Cloud :=
  if mode_eqb (forwardingMode (values c)) CustomDomain
     || truthy_str (cloudflareTunnelHost c)
  then with_values (set_upnpPort p) c
  else with_event HttpIp (with_values (set_upnpPort p) c).

(** The state in which the registration request has gone out. *)
Definition request_sent `{Platform} (w : World) (p : option Z) (c : Cloud)
    (a : Authority) : Cloud :=
  with_event
    (HttpRegister (registration_query c a (w_registrationId w) false)
       (show_str (token_info (values c))))
    (resolved_state p c).

(** The test of [updatePortForward] on the address the relay reports
    back: the address is neither [localhost] nor the one the relay saw
    nor the tunnel host. *)
Definition ip_unverified (ip : option string) (d : RegisterBody)
    (tunnelHost : option string) : bool :=
  negb (str_opt_eqb ip (Some "localhost"))
  && negb (str_opt_eqb ip (rb_ip_address d))
  && negb (str_opt_eqb ip tunnelHost).

(** The persisted values a run compares with and a registration renews. *)
Definition baseline (v : Settings) : option string * option Z * option string :=
  (lastPersistedRegistrationId v, lastPersistedUpnpPort v, lastPersistedIp v).

(** Nothing was registered and nothing persisted as a baseline between
    two states, and login and connection are as they were. *)
Definition silent (c c' : Cloud) : Prop :=
  registrations_of (trace c') = registrations_of (trace c)
  /\ baseline (values c') = baseline (values c)
  /\ token_info (values c') = token_info (values c)
  /\ connectHomeScryptedApp (values c') = connectHomeScryptedApp (values c).

(** The registrations sent between two states all carry the authority
    [a]. *)
Definition registered_as (a : Authority) (c c' : Cloud) : Prop :=
  exists sent,
    registrations_of (trace c') = registrations_of (trace c) ++ sent
    /\ Forall (fun q => q_authority q = a) sent.

(** ** Frames *)

(** What registration and address resolution leave alone: the settings
    other than the three persisted baselines, the instance fields other
    than the UPnP status, and the UPnP requests made so far. *)
Record frame (c c' : Cloud) : Prop := {
  fr_mode : forwardingMode (values c') = forwardingMode (values c);
  fr_hostname : hostname (values c') = hostname (values c);
  fr_duckDnsToken : duckDnsToken (values c') = duckDnsToken (values c);
  fr_duckDnsHostname : duckDnsHostname (values c') = duckDnsHostname (values c);
  fr_token_info : token_info (values c') = token_info (values c);
  fr_connect :
    connectHomeScryptedApp (values c') = connectHomeScryptedApp (values c);
  fr_upnpPort : upnpPort (values c') = upnpPort (values c);
  fr_securePort : securePort c' = securePort c;
  fr_tunnel : cloudflareTunnel c' = cloudflareTunnel c;
  fr_whitelisted : whitelisted c' = whitelisted c;
  fr_mappings : mappings_of (trace c') = mappings_of (trace c)
}.

(** A method that keeps the frame whatever it returns. *)
Definition framed {A} (m : M A) : Prop := forall c, frame c (snd (m c)).

(** An event other than a UPnP request. *)
Definition not_mapping (e : event) : Prop :=
  match e with
  | UpnpPortMapping _ => False
  | _ => True
  end.

(** A settings update that keeps the framed settings. *)
Definition baseline_update (f : Settings -> Settings) : Prop :=
  forall v,
    forwardingMode (f v) = forwardingMode v
    /\ hostname (f v) = hostname v
    /\ duckDnsToken (f v) = duckDnsToken v
    /\ duckDnsHostname (f v) = duckDnsHostname v
    /\ token_info (f v) = token_info v
    /\ connectHomeScryptedApp (f v) = connectHomeScryptedApp v
    /\ upnpPort (f v) = upnpPort v.

(** Disabled mode with a persisted port 50000, logged in, the secure
    server on port 10443. *)
Definition disabled_cloud : Cloud :=
  with_values (fun v => set_upnpPort (Some 50000) (set_mode Disabled v))
    fresh_cloud.

(** Custom Domain mode without a hostname. *)
Definition nameless_custom_cloud : Cloud :=
  with_values (set_mode CustomDomain) fresh_cloud.

(** The connect-to-cloud toggle switched off. *)
Definition disconnected_cloud : Cloud :=
  with_values (fun v => set_connect false (set_upnpPort (Some 50000) v))
    fresh_cloud.

(** [Math.random()] returning 1 - 2^-20. *)
Definition high_random_world : World :=
  with_random (1048575 # 1048576) good_world.

(** The relay edge of the sample runs. *)
Definition sample_target : Target :=
  {| t_registrationId := "fcm-registration";
     t_serverPort := Some "4001";
     t_serverHost := "home.scrypted.app" |}.

(** A quick tunnel is up: no tunnel token, so no TLS-verified hostname. *)
Definition quick_tunnel_cloud : Cloud :=
  with_tunnel (Some "https://abc.trycloudflare.com") fresh_cloud.

(** Disabled mode with the tunnel up, the way the default setup runs. *)
Definition disabled_tunnel_cloud : Cloud :=
  with_tunnel (Some "https://abc.trycloudflare.com") disabled_cloud.

Definition sample_local_url : string :=
  "https://192.168.1.10:10443/endpoint/@scrypted/core/public/".

(** * Further definitions *)

(** ** Sample worlds and states *)

Definition set_w_register (r : result (option RegisterBody)) (w : World)
  : World :=
  {| w_random := w_random w;
     w_localAddresses := w_localAddresses w;
     w_portMapping_err := w_portMapping_err w;
     w_registrationId := w_registrationId w;
     w_ip := w_ip w;
     w_duckdns := w_duckdns w;
     w_register := r;
     w_scope := w_scope w;
     w_cloudMessagePath := w_cloudMessagePath w |}.

Definition set_w_scope (r : result ScopeBody) (w : World) : World :=
  {| w_random := w_random w;
     w_localAddresses := w_localAddresses w;
     w_portMapping_err := w_portMapping_err w;
     w_registrationId := w_registrationId w;
     w_ip := w_ip w;
     w_duckdns := w_duckdns w;
     w_register := w_register w;
     w_scope := r;
     w_cloudMessagePath := w_cloudMessagePath w |}.

Definition set_w_localAddresses (l : option (list string)) (w : World)
  : World :=
  {| w_random := w_random w;
     w_localAddresses := l;
     w_portMapping_err := w_portMapping_err w;
     w_registrationId := w_registrationId w;
     w_ip := w_ip w;
     w_duckdns := w_duckdns w;
     w_register := w_register w;
     w_scope := w_scope w;
     w_cloudMessagePath := w_cloudMessagePath w |}.

Definition set_w_portMapping_err (e : option string) (w : World) : World :=
  {| w_random := w_random w;
     w_localAddresses := w_localAddresses w;
     w_portMapping_err := e;
     w_registrationId := w_registrationId w;
     w_ip := w_ip w;
     w_duckdns := w_duckdns w;
     w_register := w_register w;
     w_scope := w_scope w;
     w_cloudMessagePath := w_cloudMessagePath w |}.

Definition set_duckDns (h t : option string) (v : Settings) : Settings :=
  {| token_info := token_info v;
     lastPersistedRegistrationId := lastPersistedRegistrationId v;
     registrationSecret := registrationSecret v;
     serverId := serverId v;
     serverName := serverName v;
     forwardingMode := forwardingMode v;
     hostname := hostname v;
     duckDnsToken := t;
     duckDnsHostname := h;
     duckDnsCertValid := duckDnsCertValid v;
     upnpPort := upnpPort v;
     securePortSetting := securePortSetting v;
     lastPersistedUpnpPort := lastPersistedUpnpPort v;
     lastPersistedIp := lastPersistedIp v;
     cloudflareEnabled := cloudflareEnabled v;
     cloudflaredTunnelToken := cloudflaredTunnelToken v;
     connectHomeScryptedApp := connectHomeScryptedApp v |}.

(** Router forward on the persisted port 50000, logged in. *)
Definition router_cloud : Cloud :=
  with_values (fun v => set_upnpPort (Some 50000) (set_mode RouterForward v))
    fresh_cloud.

(** A relay that turns the registration down. *)
Definition rejecting_world : World :=
  set_w_register
    (Ok (Some {| rb_error := Some "unauthorized"; rb_ip_address := None |}))
    good_world.

(** A relay that sees the server at another address than the one it was
    registered under. *)
Definition mismatching_world : World :=
  set_w_register
    (Ok (Some {| rb_error := None; rb_ip_address := Some "198.51.100.20" |}))
    good_world.

(** Whether the relay fails or turns the registration down. *)
Definition registration_fails (w : World) : Prop :=
  match w_register w with
  | Throw _ => True
  | Ok body => body_error body <> None
  end.

(** Duck DNS configured on the sample router-forward state. *)
Definition duck_cloud : Cloud :=
  with_values (set_duckDns (Some "nvr.duckdns.org") (Some "duck-token"))
    router_cloud.

(** UPnP mode with a persisted port. *)
Definition upnp_cloud : Cloud :=
  with_values (set_upnpPort (Some 50000)) fresh_cloud.

(** Router forward on the persisted port 443. *)
Definition port_443_cloud : Cloud :=
  with_values (fun v => set_upnpPort (Some 443) (set_mode RouterForward v))
    fresh_cloud.

(** A server without a configured local address. *)
Definition no_address_world : World := set_w_localAddresses None good_world.

(** A router that refuses the mapping. *)
Definition refusing_router_world : World :=
  set_w_portMapping_err (Some "ETIMEDOUT") good_world.

(** A relay whose scope endpoint fails. *)
Definition scope_failing_world : World :=
  set_w_scope (Throw "Error: 503") good_world.

(** Custom Domain mode under a hostname, logged out. *)
Definition custom_domain_cloud : Cloud :=
  with_values
    (fun v => set_token_info None
                (set_hostname (Some "nvr.example.com")
                   (set_mode CustomDomain v)))
    fresh_cloud.

(** ** Reverse connections and relay addresses *)

(** Every pooled socket still has the close handler that
    [createReverseConnection] installed. *)
Definition handlers_installed (p : Pool) : Prop :=
  forall n, n ∈ reverseConnections p -> is_Some (closures p !! n).

(** Whether a colon occurs in [s]. *)
Fixpoint has_colon (s : string) : bool :=
  match s with
  | EmptyString => false
  | String c rest => Ascii.eqb c ":" || has_colon rest
  end.

(** Another relay edge than [sample_target]. *)
Definition other_target : Target :=
  {| t_registrationId := "fcm-registration";
     t_serverPort := Some "4002";
     t_serverHost := "edge.scrypted.app" |}.

(** ** The plugin's HTTP endpoint and push delivery *)

(** [s.startsWith(p)] *)
Fixpoint startsWith (s p : string) : bool :=
  match p, s with
  | EmptyString, _ => true
  | String a p', String b s' => Ascii.eqb a b && startsWith s' p'
  | String _ _, EmptyString => false
  end.

(** [s.endsWith(p)] *)
Fixpoint endsWith (s p : string) : bool :=
  String.eqb s p
  || match s with
     | String _ s' => endsWith s' p
     | EmptyString => false
     end.

(** [s.substring(n)] *)
Fixpoint substring_from (n : nat) (s : string) : string :=
  match n, s with
  | O, _ => s
  | S n', String _ s' => substring_from n' s'
  | S _, EmptyString => EmptyString
  end.

Definition lower_ascii (c : ascii) : ascii :=
  let n := nat_of_ascii c in
  if Nat.leb 65 n && Nat.leb n 90 then ascii_of_nat (n + 32) else c.

(** [s.toLowerCase()] on ASCII text: the letters A to Z are the only
    characters it changes there. *)
Fixpoint toLowerCase (s : string) : string :=
  match s with
  | EmptyString => EmptyString
  | String c rest => String (lower_ascii c) (toLowerCase rest)
  end.

(** The parts of an [HttpRequest] the plugin reads or writes. *)
Record HttpRequest := {
  rq_url : string;
  rq_method : string;
  rq_origin : option string;
  rq_rootPath : option string
}.

Definition set_rootPath (p : string) (r : HttpRequest) : HttpRequest :=
  {| rq_url := rq_url r;
     rq_method := rq_method r;
     rq_origin := rq_origin r;
     rq_rootPath := Some p |}.

(** The two calls of [response.send] in [onRequest]: the bare body, and
    the empty body with the CORS headers for the request's origin. *)
Inductive Response :=
| SendBody (body : string)
| SendCors (origin : option string).

(** [ScryptedInterface.PushHandler] *)
Definition PushHandler : string := "PushHandler".

(** What [deliverPush] ends in: one of its two console errors, or the
    handler's [onPush] called with the request. *)
Inductive delivery (Id Req : Type) :=
| DeviceNotFound (endpoint : Id)
| NotAPushHandler (endpoint : Id)
| OnPush (endpoint : Id) (request : Req).

Arguments DeviceNotFound {Id Req} endpoint.
Arguments NotAPushHandler {Id Req} endpoint.
Arguments OnPush {Id Req} endpoint request.

(** [deliverPush]; [devices] is [systemManager.getDeviceById], giving the
    interfaces of the device when there is one. *)
Definition deliverPush {Id Req} (devices : Id -> option (list string))
    (endpoint : Id) (request : Req) : delivery Id Req :=
  match devices endpoint with
  | None => DeviceNotFound endpoint
  | Some interfaces =>
      if existsb (String.eqb PushHandler) interfaces
      then OnPush endpoint request
      else NotAPushHandler endpoint
  end.

(** [onRequest]: the response sent, and the push delivery started, if
    any. [randomBytes] is the secret drawn when the plugin starts. *)
Definition onRequest (w : World) (randomBytes : string)
    (devices : string -> option (list string)) (request : HttpRequest)
  : Response * option (delivery string HttpRequest) :=
  if endsWith (rq_url request) "/testPortForward"
  then (SendBody randomBytes, None)
  else
    let response := SendCors (rq_origin request) in
    if String.eqb (toLowerCase (rq_method request)) "options"
    then (response, None)
    else
      let cm := w_cloudMessagePath w in
      if startsWith (rq_url request) cm
      then
        let endpoint := substring_from (S (String.length cm)) (rq_url request) in
        (response, Some (deliverPush devices endpoint (set_rootPath "/" request)))
      else (response, None).

(** A device table with one push handler, device 42. *)
Definition sample_devices (id : string) : option (list string) :=
  if String.eqb id "42" then Some ["Settings"; "PushHandler"]
  else if String.eqb id "7" then Some ["OnOff"]
  else None.

Definition sample_random_bytes : string := "c2NyeXB0ZWQtcmFuZG9tLg==".

(** ** The port forward test *)

(** The body of the relay's answer to a curl request. *)
Record CurlBody := {
  cb_error : option string;
  cb_data : option string
}.

(** [`${upnp_port}`] *)
Definition show_port (p : option Z) : string :=
  match p with
  | Some n => pretty n
  | None => "undefined"
  end.

(** The URL [testPortForward] asks the relay to fetch. *)
Definition test_target (a : Authority) (pluginPath : string) : string :=
  ("https://"
   ++ (if truthy_str (a_hostname a) then show_str (a_hostname a)
       else "localhost")
   ++ ":" ++ show_port (a_upnp_port a) ++ pluginPath ++ "/testPortForward")%string.

Definition test_succeeded : string := "Port Forward Test Succeeded.".

(** The [catch] block of [testPortForward]; [e] is the error as the
    template prints it. *)
Definition test_failed (e : string) : M unit :=
  alert ("Port Forward Test Failed: " ++ e)%string.

(** [testPortForward]; [curl] is the relay's answer to the request for a
    given target URL, without a body when the answer carries none. *)
Definition testPortForward (pluginPath randomBytes : string)
    (curl : string -> result (option CurlBody)) : M unit :=
  v <- read values ;;
  if mode_eqb (forwardingMode v) Disabled
  then test_failed "Error: Port forwarding is disabled."
  else
    fun c =>
      match getAuthority c with
      | (Throw e, c') => test_failed ("Error: " ++ e)%string c'
      | (Ok a, c') =>
          match curl (test_target a pluginPath) with
          | Throw e => test_failed ("Error: " ++ e)%string c'
          | Ok None =>
              test_failed
                "TypeError: Cannot read properties of undefined (reading 'error')"
                c'
          | Ok (Some body) =>
              if truthy_str (cb_error body)
              then test_failed ("Error: " ++ show_str (cb_error body))%string c'
              else if negb (str_opt_eqb (cb_data body) (Some randomBytes))
              then test_failed
                     "Error: Server received data that did not match this server."
                     c'
              else alert test_succeeded c'
          end
      end.

(** The body of a response. *)
Definition response_body (r : Response) : string :=
  match r with
  | SendBody b => b
  | SendCors _ => EmptyString
  end.

(** A relay that fetches the target from this server and hands back what
    the server answered to [request]. *)
Definition relaying_curl (w : World) (randomBytes : string)
    (devices : string -> option (list string)) (request : HttpRequest)
    (target : string) : result (option CurlBody) :=
  Ok (Some {| cb_error := None;
              cb_data := Some (response_body
                                 (fst (onRequest w randomBytes devices request))) |}).

(** ** Cloud messages *)

Module CloudMessage.
Import TunnelLog.

Local Close Scope string_scope.
Local Open Scope N_scope.

(** [s.replace(pat, rep)] for a string pattern and a replacement without
    dollar patterns: the first occurrence is replaced. *)
Fixpoint replace_first (pat rep s : jsstring) : jsstring :=
  match strip_prefix pat s with
  | Some rest => rep ++ rest
  | None =>
      match s with
      | [] => []
      | c :: s' => c :: replace_first pat rep s'
      end
  end.

(** [payload.rootPath = '/'] on a parsed object. *)
Definition set_payload_rootPath (payload : json) : json :=
  match payload with
  | JObject ms =>
      JObject (map (fun m => if jseqb (fst m) (js "rootPath")
                             then (fst m, JString (js "/")) else m) ms)
  | _ => payload
  end.

(** What the [cloudmessage] branch of the message listener comes to:
    an error caught and logged, a silent return, or a push delivery. *)
Inductive outcome :=
| Caught
| Ignored
| Delivered (d : delivery jsstring json).

(** The [cloudmessage] branch of the ['message'] listener. *)
Definition on_cloudmessage (devices : jsstring -> option (list string))
    (request : jsstring) : outcome :=
  match JSON_parse request with
  | None => Caught
  | Some JNull => Caught
  | Some payload =>
      match get_prop (js "rootPath") payload with
      | None | Some JNull => Ignored
      | Some (JString s) =>
          match strip_prefix (js "/push/") s with
          | Some _ =>
              Delivered (deliverPush devices
                           (replace_first (js "/push/") [] s)
                           (set_payload_rootPath payload))
          | None => Ignored
          end
      | Some _ => Caught
      end
  end.

Definition sample_push_devices (id : jsstring) : option (list string) :=
  if jseqb id (js "42") then Some ["PushHandler"%string] else None.

Definition sample_push_request : jsstring :=
  js ("{" ++ dq ++ "rootPath" ++ dq ++ ":" ++ dq ++ "/push/42" ++ dq ++ ","
      ++ dq ++ "body" ++ dq ++ ":" ++ dq ++ "ding" ++ dq ++ "}").

End CloudMessage.

(** * The virtual thermostat (plugins/thermostat/src/main.ts) *)

Module Thermostat.

(** A JavaScript number holding a temperature: the rational value of a
    double, or [None] for [undefined], which arithmetic turns into [NaN].
    Sums and differences are rounded with [binary64]; they are only
    compared, and a result beyond the largest double compares as the
    infinity of its sign would. *)
Definition num := option Q.

(** Truthiness: [undefined], [NaN] and zero are falsy. *)
Definition truthy (n : num) : bool :=
  match n with
  | Some q => negb (Qeq_bool q 0)
  | None => false
  end.

(** [a || b] *)
Definition or_else (a b : num) : num := if truthy a then a else b.

(** [a - b] and [a + b]: [NaN] when an operand is not a number. *)
Definition sub (a b : num) : num :=
  match a, b with
  | Some x, Some y => Some (binary64 (x - y))
  | _, _ => None
  end.

Definition add (a b : num) : num :=
  match a, b with
  | Some x, Some y => Some (binary64 (x + y))
  | _, _ => None
  end.

(** [a < b] and [a > b]: false when an operand is [NaN]. *)
Definition lt (a b : num) : bool :=
  match a, b with
  | Some x, Some y => negb (Qle_bool y x)
  | _, _ => false
  end.

Definition gt (a b : num) : bool := lt b a.

(** [var threshold = 2] *)
Definition threshold : num := Some (2 # 1).

Inductive dev := Heater | Cooler.

(** What the thermostat does to the outside: log lines, storage writes
    and switch commands. *)
Inductive effect :=
| Info (msg : string)
| InfoNum (msg : string) (n : num)
| Error (msg : string)
| SetItem (key value : string)
| TurnOn (d : dev)
| TurnOff (d : dev).

(** The device as far as [updateState] reads it. A switch is [None] when
    it is not assigned, else its [on] property; the sensor is [None] when
    it is not assigned, else its temperature. *)
Record Thermostat := {
  sensor : option num;
  heater : option bool;
  cooler : option bool;
  thermostatMode : option string;
  thermostatSetpoint : num;
  thermostatSetpointLow : num;
  thermostatSetpointHigh : num;
  thermostatState : option string;
  lastThermostatMode : option string
}.

Definition switch (d : dev) (t : Thermostat) : option bool :=
  match d with
  | Heater => heater t
  | Cooler => cooler t
  end.

(** [d && d.on] *)
Definition is_on (d : dev) (t : Thermostat) : bool :=
  match switch d t with
  | Some true => true
  | _ => false
  end.

Definition set_thermostatState (s : string) (t : Thermostat) : Thermostat :=
  {| sensor := sensor t;
     heater := heater t;
     cooler := cooler t;
     thermostatMode := thermostatMode t;
     thermostatSetpoint := thermostatSetpoint t;
     thermostatSetpointLow := thermostatSetpointLow t;
     thermostatSetpointHigh := thermostatSetpointHigh t;
     thermostatState := Some s;
     lastThermostatMode := lastThermostatMode t |}.

Definition set_thermostatMode (m : option string) (t : Thermostat)
  : Thermostat :=
  {| sensor := sensor t;
     heater := heater t;
     cooler := cooler t;
     thermostatMode := m;
     thermostatSetpoint := thermostatSetpoint t;
     thermostatSetpointLow := thermostatSetpointLow t;
     thermostatSetpointHigh := thermostatSetpointHigh t;
     thermostatState := thermostatState t;
     lastThermostatMode := lastThermostatMode t |}.

Definition set_lastThermostatMode (m : string) (t : Thermostat) : Thermostat :=
  {| sensor := sensor t;
     heater := heater t;
     cooler := cooler t;
     thermostatMode := thermostatMode t;
     thermostatSetpoint := thermostatSetpoint t;
     thermostatSetpointLow := thermostatSetpointLow t;
     thermostatSetpointHigh := thermostatSetpointHigh t;
     thermostatState := thermostatState t;
     lastThermostatMode := Some m |}.

Definition set_thermostatSetpoint (n : num) (t : Thermostat) : Thermostat :=
  {| sensor := sensor t;
     heater := heater t;
     cooler := cooler t;
     thermostatMode := thermostatMode t;
     thermostatSetpoint := n;
     thermostatSetpointLow := thermostatSetpointLow t;
     thermostatSetpointHigh := thermostatSetpointHigh t;
     thermostatState := thermostatState t;
     lastThermostatMode := lastThermostatMode t |}.

Definition set_switch (d : dev) (on : bool) (t : Thermostat) : Thermostat :=
  {| sensor := sensor t;
     heater := match d with Heater => Some on | Cooler => heater t end;
     cooler := match d with Cooler => Some on | Heater => cooler t end;
     thermostatMode := thermostatMode t;
     thermostatSetpoint := thermostatSetpoint t;
     thermostatSetpointLow := thermostatSetpointLow t;
     thermostatSetpointHigh := thermostatSetpointHigh t;
     thermostatState := thermostatState t;
     lastThermostatMode := lastThermostatMode t |}.

(** How a method ends: what it did, the state it leaves, and whether it
    threw (the [TypeError] of reading the temperature of a sensor that is
    not assigned); for an async method, whether its promise is
    rejected. *)
Record outcome := {
  effects : list effect;
  after : Thermostat;
  threw : bool
}.

Definition done (es : list effect) (t : Thermostat) : outcome :=
  {| effects := es; after := t; threw := false |}.

Definition type_error (es : list effect) (t : Thermostat) : outcome :=
  {| effects := es; after := t; threw := true |}.

(** The closure [setState] of [updateState]. *)
Definition setState (state : string) (t : Thermostat)
  : list effect * Thermostat :=
  if str_opt_eqb (thermostatState t) (Some state) then ([], t)
  else ([Info ("Thermostat state changed. " ++ state)%string;
         SetItem "thermostatState" state],
        set_thermostatState state t).

Definition turn_off_if_on (d : dev) (t : Thermostat) : list effect :=
  if is_on d t then [TurnOff d] else [].

(** The closure [allOff] of [updateState]. *)
Definition allOff (t : Thermostat) : list effect :=
  turn_off_if_on Heater t ++ turn_off_if_on Cooler t.

(** The closure [manageSetpoint] of [updateState]; [mode] is the mode it
    names in its error message. *)
Definition manageSetpoint (mode : string) (temperatureDifference : num)
    (er : dev) (other : option dev) (ing ed : string) (t : Thermostat)
  : outcome :=
  match switch er t with
  | None =>
      done [Error ("Thermostat mode set to " ++ mode ++ ", but " ++ mode
                   ++ "er variable is not defined.")%string] t
  | Some er_on =>
      let other_off :=
        match other with
        | Some o => turn_off_if_on o t
        | None => []
        end in
      if lt temperatureDifference (Some 0%Q) then
        let (es, t') := setState ed t in
        done (other_off ++ es ++ (if er_on then [TurnOff er] else [])) t'
      else if gt temperatureDifference threshold
              || negb (str_opt_eqb (thermostatState t) (Some ing)) then
        let (es, t') := setState ing t in
        done (other_off ++ es ++ (if er_on then [] else [TurnOn er])) t'
      else
        let (es, t') := setState ed t in
        done (other_off ++ es ++ (if er_on then [TurnOff er] else [])) t'
  end.

Definition state_is (s : string) (t : Thermostat) : bool :=
  str_opt_eqb (thermostatState t) (Some s).

Definition updateState (t : Thermostat) : outcome :=
  let thermostatMode :=
    if truthy_str (thermostatMode t) then show_str (thermostatMode t)
    else "Off" in
  if String.eqb thermostatMode "Off" then
    let (es, t') := setState "Off" t in
    done (es ++ allOff t) t'
  else if String.eqb thermostatMode "Cool" then
    match sensor t with
    | None => type_error [] t
    | Some temperature =>
        let thermostatSetpoint := or_else (thermostatSetpoint t) temperature in
        if negb (truthy thermostatSetpoint)
        then done [Error "No thermostat setpoint is defined."] t
        else manageSetpoint thermostatMode (sub temperature thermostatSetpoint)
               Cooler (Some Heater) "Cooling" "Cooled" t
    end
  else if String.eqb thermostatMode "Heat" then
    match sensor t with
    | None => type_error [] t
    | Some temperature =>
        let thermostatSetpoint := or_else (thermostatSetpoint t) temperature in
        if negb (truthy thermostatSetpoint)
        then done [Error "No thermostat setpoint is defined."] t
        else manageSetpoint thermostatMode (sub thermostatSetpoint temperature)
               Heater (Some Cooler) "Heating" "Heated" t
    end
  else if String.eqb thermostatMode "HeatCool" then
    match sensor t with
    | None => type_error [] t
    | Some temperature =>
        let thermostatSetpointLow :=
          or_else (thermostatSetpointLow t) temperature in
        let thermostatSetpointHigh :=
          or_else (thermostatSetpointHigh t) temperature in
        if negb (truthy thermostatSetpointLow)
           || negb (truthy thermostatSetpointHigh)
        then done [Error "No thermostat setpoint low/high is defined."] t
        else if (state_is "HeatCooled" t || state_is "Heated" t
                 || state_is "Cooled" t)
                && gt temperature (sub thermostatSetpointLow threshold)
                && lt temperature (add thermostatSetpointHigh threshold)
        then
          let (es, t') := setState "HeatCooled" t in
          done (es ++ allOff t) t'
        else if lt temperature thermostatSetpointLow || state_is "Heating" t
        then manageSetpoint thermostatMode
               (sub thermostatSetpointHigh temperature)
               Heater None "Heating" "Heated" t
        else if gt temperature thermostatSetpointHigh || state_is "Cooling" t
        then manageSetpoint thermostatMode
               (sub temperature thermostatSetpointLow)
               Cooler None "Cooling" "Cooled" t
        else
          let (es, t') := setState "HeatCooled" t in
          done (es ++ allOff t) t'
    end
  else done [Error ("Unknown mode " ++ thermostatMode)%string] t.

(** Running [updateState] after [es] has happened. *)
Definition then_updateState (es : list effect) (t : Thermostat) : outcome :=
  let o := updateState t in
  {| effects := es ++ effects o; after := after o; threw := threw o |}.

Definition setThermostatSetpoint (n : num) (t : Thermostat) : outcome :=
  then_updateState [InfoNum "thermostatSetpoint changed " n]
    (set_thermostatSetpoint n t).

(** [setThermostatMode]; [this.storage.getItem] gives [null], here
    [None], for an item that was never stored. *)
Definition setThermostatMode (mode : string) (t : Thermostat) : outcome :=
  let log := Info ("thermostat mode set to " ++ mode)%string in
  if String.eqb mode "On" then
    then_updateState [log] (set_thermostatMode (lastThermostatMode t) t)
  else if negb (String.eqb mode "Off") then
    then_updateState [log; SetItem "lastThermostatMode" mode]
      (set_thermostatMode (Some mode) (set_lastThermostatMode mode t))
  else
    then_updateState [log] (set_thermostatMode (Some mode) t).

(** A call of an async method that is not awaited: what it does
    happens, and when it throws, the rejected promise is dropped and the
    caller goes on. *)
Definition unawaited (o : outcome) : outcome :=
  {| effects := effects o; after := after o; threw := false |}.

(** [manageEvent(on, ing)], called when a switch reports a change. *)
Definition manageEvent (on : bool) (ing : string) (t : Thermostat) : outcome :=
  if on then
    if negb (state_is ing t) then unawaited (setThermostatMode "On" t)
    else done [] t
  else
    if state_is ing t then unawaited (setThermostatMode "Off" t)
    else done [] t.

(** The state name under which a switch is expected to be on. *)
Definition ing_of (d : dev) : string :=
  match d with
  | Heater => "Heating"
  | Cooler => "Cooling"
  end.

(** A thermostat with both switches off, cooling towards 22 degrees. *)
Definition sample : Thermostat :=
  {| sensor := Some (Some (23 # 1));
     heater := Some false;
     cooler := Some false;
     thermostatMode := Some "Cool";
     thermostatSetpoint := Some (22 # 1);
     thermostatSetpointLow := Some (20 # 1);
     thermostatSetpointHigh := Some (24 # 1);
     thermostatState := Some "Cooled";
     lastThermostatMode := Some "Cool" |}.

(** Cooling in the heat-and-cool mode when the temperature is found
    below the low setpoint. *)
Definition overshoot : Thermostat :=
  {| sensor := Some (Some (19 # 1));
     heater := Some false;
     cooler := Some true;
     thermostatMode := Some "HeatCool";
     thermostatSetpoint := None;
     thermostatSetpointLow := Some (20 # 1);
     thermostatSetpointHigh := Some (24 # 1);
     thermostatState := Some "Cooling";
     lastThermostatMode := Some "HeatCool" |}.

End Thermostat.

Module ThermostatSpec.
Import Thermostat.

(** The state name under which a switch has done its work. *)
Definition ed_of (d : dev) : string :=
  match d with
  | Heater => "Heated"
  | Cooler => "Cooled"
  end.

Definition opposite (d : dev) : dev :=
  match d with
  | Heater => Cooler
  | Cooler => Heater
  end.

(** The mode in which a switch is the one to work. *)
Definition mode_for (d : dev) : string :=
  match d with
  | Heater => "Heat"
  | Cooler => "Cool"
  end.

(** The mode [updateState] works with: an unset mode counts as Off. *)
Definition effective_mode (t : Thermostat) : string :=
  if truthy_str (thermostatMode t) then show_str (thermostatMode t)
  else "Off".

(** Two states that differ at most in the stored thermostat state. *)
Definition same_setup (t t' : Thermostat) : Prop :=
  sensor t' = sensor t
  /\ heater t' = heater t
  /\ cooler t' = cooler t
  /\ thermostatMode t' = thermostatMode t
  /\ thermostatSetpoint t' = thermostatSetpoint t
  /\ thermostatSetpointLow t' = thermostatSetpointLow t
  /\ thermostatSetpointHigh t' = thermostatSetpointHigh t
  /\ lastThermostatMode t' = lastThermostatMode t.

(** The switch commands among the effects agree with what the switches
    report: only a switch that is off is turned on, only one that is on
    is turned off. *)
Definition commands_fit (t : Thermostat) (es : list effect) : Prop :=
  forall d,
    (In (TurnOn d) es -> switch d t = Some false)
    /\ (In (TurnOff d) es -> switch d t = Some true).

(** The switch commands among the effects agree with the state stored by
    the same update. *)
Definition commands_match_state (s : option string) (es : list effect)
  : Prop :=
  forall d,
    (In (TurnOn d) es -> s = Some (ing_of d))
    /\ (In (TurnOff d) es -> s <> Some (ing_of d)).

(** The four ways [updateState] ends. *)
Inductive shape (t : Thermostat) : outcome -> Prop :=
| shape_error (msg : string) : shape t (done [Error msg] t)
| shape_type_error : sensor t = None -> shape t (type_error [] t)
| shape_all_off (s : string) :
    s = "Off" \/ s = "HeatCooled" ->
    shape t (done (fst (setState s t) ++ allOff t) (snd (setState s t)))
| shape_manage (mode : string) (diff : num) (er : dev) (other : option dev) :
    other = None \/ other = Some (opposite er) ->
    shape t (manageSetpoint mode diff er other (ing_of er) (ed_of er) t).

End ThermostatSpec.

(** * Properties *)

(** ** Running the monad *)

Ltac unfold_monad :=
  unfold bind, ret, throw, read, update, emit, alert, await, detached in *.

Lemma bind_ok {A B} (m : M A) (k : A -> M B) (c c' : Cloud) (a : A) :
  m c = (Ok a, c') -> bind m k c = k a c'.
Proof. intros E. unfold bind. now rewrite E. Qed.

Lemma bind_throw {A B} (m : M A) (k : A -> M B) (c c' : Cloud) (e : string) :
  m c = (Throw e, c') -> bind m k c = (Throw e, c').
Proof. intros E. unfold bind. now rewrite E. Qed.

Lemma truthy_str_spec (o : option string) :
  truthy_str o = true <-> exists h, o = Some h /\ h <> EmptyString.
Proof.
  split.
  - destruct o as [[|a t]|]; simpl; try discriminate.
    intros _. exists (String a t). split; [reflexivity | discriminate].
  - intros (h & -> & Hh). destruct h; [congruence | reflexivity].
Qed.

Lemma num_opt_eqb_eq (a b : option Z) : num_opt_eqb a b = true <-> a = b.
Proof.
  destruct a, b; simpl; split; try congruence; try discriminate.
  - intros E%Z.eqb_eq. now subst.
  - intros [= ->]. apply Z.eqb_refl.
Qed.

Lemma str_opt_eqb_eq (a b : option string) : str_opt_eqb a b = true <-> a = b.
Proof.
  destruct a, b; simpl; split; try congruence; try discriminate.
  - intros E%String.eqb_eq. now subst.
  - intros [= ->]. apply String.eqb_refl.
Qed.

Lemma mode_eqb_eq (a b : ForwardingMode) : mode_eqb a b = true <-> a = b.
Proof. destruct a, b; simpl; split; congruence. Qed.

(** ** The authority *)

(** [getAuthority] changes nothing when it returns. *)
Lemma getAuthority_ok_state (c c' : Cloud) (a : Authority) :
  getAuthority c = (Ok a, c') -> c' = c.
Proof.
  unfold getAuthority. unfold_monad.
  destruct (mode_eqb _ Disabled); [congruence |].
  destruct (num_opt_eqb _ _ && _); [discriminate |].
  destruct (negb _); congruence.
Qed.

(** [getAuthority] throws only after alerting with the same message. *)
Lemma getAuthority_throw_state (c c' : Cloud) (e : string) :
  getAuthority c = (Throw e, c') ->
  c' = with_event (Alert e) c /\ e = port_443_error (values c).
Proof.
  unfold getAuthority. unfold_monad.
  destruct (mode_eqb _ Disabled); [discriminate |].
  destruct (num_opt_eqb _ _ && _); [| destruct (negb _); discriminate].
  simpl. intros [= <- <-]. split; reflexivity.
Qed.

(** C1. In every forwarding mode and settings state, an authority that
    [getAuthority] returns with port 443 carries a non-empty hostname; and
    whenever the port it computes is 443 and the hostname it computes is
    missing or empty, it posts an alert and throws that message instead of
    returning. (In Disabled mode no port is computed: the authority is
    empty.) *)
Theorem getAuthority_port_443_requires_hostname (c : Cloud) :
  (forall a c', getAuthority c = (Ok a, c') -> a_port a = Some 443 ->
     exists h, a_hostname a = Some h /\ h <> EmptyString)
  /\ (forwardingMode (values c) <> Disabled ->
      authority_upnp_port (values c) = Some 443 ->
      truthy_str (authority_hostname (values c)) = false ->
      exists msg, getAuthority c = (Throw msg, with_event (Alert msg) c)
                  /\ In (Alert msg) (trace (with_event (Alert msg) c))).
Proof.
  split.
  - intros a c'. unfold getAuthority. unfold_monad.
    destruct (mode_eqb _ Disabled).
    { intros [= <- <-]. discriminate. }
    destruct (num_opt_eqb _ _ && _) eqn:E; [discriminate |].
    destruct (truthy_str (authority_hostname (values c))) eqn:T; simpl.
    + intros [= <- <-] _. simpl. now apply truthy_str_spec.
    + intros [= <- <-]. simpl. intros P.
      rewrite P in E. simpl in E. discriminate.
  - intros Hm Hp Hh. exists (port_443_error (values c)).
    split.
    + unfold getAuthority. unfold_monad.
      destruct (mode_eqb _ Disabled) eqn:D.
      { apply mode_eqb_eq in D. contradiction. }
      rewrite Hp, Hh. reflexivity.
    + simpl. apply in_or_app. right. left. reflexivity.
Qed.

(** Both halves of C1 at work: a custom domain with a hostname is
    advertised on 443, one without is refused. *)
Lemma getAuthority_port_443_requires_hostname_witness :
  (exists h, a_hostname {| a_upnp_port := Some 443; a_port := Some 443;
                           a_hostname := Some "cam.example.com" |} = Some h
             /\ h <> EmptyString)
  /\ exists msg,
       getAuthority (with_values (set_mode CustomDomain) fresh_cloud)
       = (Throw msg,
          with_event (Alert msg) (with_values (set_mode CustomDomain) fresh_cloud))
       /\ In (Alert msg)
            (trace (with_event (Alert msg)
                      (with_values (set_mode CustomDomain) fresh_cloud))).
Proof.
  split.
  - apply (proj1 (getAuthority_port_443_requires_hostname
             (with_values (fun v => set_hostname (Some "cam.example.com")
                                      (set_mode CustomDomain v)) fresh_cloud))
             _ _ eq_refl eq_refl).
  - apply (proj2 (getAuthority_port_443_requires_hostname
             (with_values (set_mode CustomDomain) fresh_cloud)));
      [discriminate | reflexivity | reflexivity].
Defined.

(** ** Registration *)

Section Registration.
Context `{Platform}.

(** C7 (amended). [sendRegistrationId] throws exactly when [getAuthority]
    throws (port 443 without hostname), and then nothing is sent. When the
    authority is computed: with the connect-to-cloud toggle off it returns
    an error object, posts no alert and sends nothing; with the toggle on
    and no bearer token it returns an error object and posts an alert; a
    relay response without error persists the registration id and the
    authority's forwarded port; a failed request is returned as an error
    object. *)
Theorem sendRegistrationId_outcomes (w : World) (rid : string) (force : bool)
    (c : Cloud) :
  (forall e c', getAuthority c = (Throw e, c') ->
     sendRegistrationId w rid force c = (Throw e, c')
     /\ registrations_of (trace c') = registrations_of (trace c))
  /\ (forall a, getAuthority c = (Ok a, c) ->
      (connectHomeScryptedApp (values c) = false ->
         sendRegistrationId w rid force c = (Ok (error_body disabled_error), c))
      /\ (connectHomeScryptedApp (values c) = true ->
          truthy_str (token_info (values c)) = false ->
          sendRegistrationId w rid force c
          = (Ok (error_body login_error), with_event (Alert login_error) c))
      /\ (connectHomeScryptedApp (values c) = true ->
          truthy_str (token_info (values c)) = true ->
          exists r c',
            sendRegistrationId w rid force c = (Ok r, c')
            /\ (forall body, w_register w = Ok body -> body_error body = None ->
                  r = body
                  /\ values c'
                     = set_registration_baseline rid (a_upnp_port a) (values c)
                  /\ alerts_of (trace c') = alerts_of (trace c))
            /\ (forall body err, w_register w = Ok body ->
                  body_error body = Some err ->
                  r = body /\ values c' = values c
                  /\ alerts_of (trace c') = alerts_of (trace c) ++ [err])
            /\ (forall e, w_register w = Throw e ->
                  r = error_body ("Error: " ++ e)%string
                  /\ values c' = values c))).
Proof.
  split.
  - intros e c' E. unfold sendRegistrationId.
    rewrite (bind_throw _ _ _ _ _ E). split; [reflexivity |].
    apply getAuthority_throw_state in E as [-> _].
    unfold registrations_of. simpl. rewrite omap_app. simpl.
    now rewrite app_nil_r.
  - intros a E. unfold sendRegistrationId.
    rewrite (bind_ok _ _ _ _ _ E). unfold_monad.
    split; [| split].
    + intros ->. reflexivity.
    + intros -> T. simpl.
      destruct (token_info (values c)) as [[|x t]|]; try reflexivity.
      discriminate.
    + intros -> T. simpl.
      destruct (token_info (values c)) as [[|x t]|]; try discriminate.
      simpl. destruct (w_register w) as [body|e] eqn:W.
      * destruct (body_error body) as [err|] eqn:B; simpl.
        -- eexists _, _. split; [reflexivity |].
           split; [| split]; [intros b [= <-]; congruence | | discriminate].
           intros b err' [= <-] Hb. rewrite B in Hb. injection Hb as <-.
           split; [reflexivity |]. split; [reflexivity |].
           unfold alerts_of. simpl. rewrite !omap_app. simpl.
           now rewrite app_nil_r.
        -- eexists _, _. split; [reflexivity |].
           split; [| split]; [| intros b err [= <-]; congruence | discriminate].
           intros b [= <-] _. split; [reflexivity |]. split; [reflexivity |].
           unfold alerts_of. simpl. rewrite omap_app. simpl.
           now rewrite app_nil_r.
      * eexists _, _. split; [reflexivity |].
        split; [| split]; [discriminate | discriminate |].
        intros e' [= <-]. split; reflexivity.
Qed.

End Registration.

(** ** Frame lemmas *)

Lemma omap_snoc_None {A B} (f : A -> option B) (l : list A) (x : A) :
  f x = None -> omap f (l ++ [x]) = omap f l.
Proof. intros E. rewrite omap_app. simpl. rewrite E. apply app_nil_r. Qed.

Lemma omap_snoc_Some {A B} (f : A -> option B) (l : list A) (x : A) (y : B) :
  f x = Some y -> omap f (l ++ [x]) = omap f l ++ [y].
Proof. intros E. rewrite omap_app. simpl. now rewrite E. Qed.

Lemma frame_refl (c : Cloud) : frame c c.
Proof. constructor; reflexivity. Qed.

Lemma frame_trans (c1 c2 c3 : Cloud) : frame c1 c2 -> frame c2 c3 -> frame c1 c3.
Proof. intros [] []. constructor; congruence. Qed.

Lemma frame_event (e : event) (c : Cloud) : not_mapping e -> frame c (with_event e c).
Proof.
  intros He. constructor; try reflexivity.
  unfold mappings_of. simpl. apply omap_snoc_None.
  destruct e; [reflexivity .. | contradiction | reflexivity | reflexivity].
Qed.

Lemma mappings_of_snoc (l : list event) (e : event) :
  not_mapping e -> mappings_of (l ++ [e]) = mappings_of l.
Proof.
  intros He. unfold mappings_of. apply omap_snoc_None.
  destruct e; [reflexivity .. | contradiction | reflexivity | reflexivity].
Qed.

Lemma framed_ret {A} (a : A) : framed (ret a).
Proof. intros c. apply frame_refl. Qed.

Lemma framed_throw {A} (e : string) : framed (@throw A e).
Proof. intros c. apply frame_refl. Qed.

Lemma framed_read {A} (f : Cloud -> A) : framed (read f).
Proof. intros c. apply frame_refl. Qed.

Lemma framed_await {A} (r : result A) : framed (await r).
Proof. intros c. apply frame_refl. Qed.

Lemma framed_emit (e : event) : not_mapping e -> framed (emit e).
Proof. intros He c. now apply frame_event. Qed.

Lemma framed_alert (msg : string) : framed (alert msg).
Proof. now apply framed_emit. Qed.

Lemma framed_status (s : string) : framed (update (with_upnpStatus s)).
Proof. intros c. constructor; reflexivity. Qed.

Lemma framed_values (f : Settings -> Settings) :
  baseline_update f -> framed (update (with_values f)).
Proof.
  intros Hf c. destruct (Hf (values c)) as (? & ? & ? & ? & ? & ? & ?).
  constructor; simpl; auto.
Qed.

Lemma framed_bind {A B} (m : M A) (k : A -> M B) :
  framed m -> (forall a, framed (k a)) -> framed (bind m k).
Proof.
  intros Hm Hk c. unfold bind. specialize (Hm c).
  destruct (m c) as [[a | e] c1]; simpl in *; [| assumption].
  eapply frame_trans; [eassumption | apply Hk].
Qed.

Lemma framed_detached {A} (m : M A) : framed m -> framed (detached m).
Proof.
  intros Hm c. unfold detached. specialize (Hm c).
  destruct (m c) as [[a | e] c1]; simpl in *; [assumption |].
  eapply frame_trans; [eassumption | now apply frame_event].
Qed.

Lemma baseline_update_registration (rid : string) (p : option Z) :
  baseline_update (set_registration_baseline rid p).
Proof. intros v. repeat split. Qed.

Lemma baseline_update_ip (ip : option string) :
  baseline_update (set_lastPersistedIp ip).
Proof. intros v. repeat split. Qed.

Create HintDb framed.
#[local] Hint Resolve framed_ret framed_throw framed_read framed_await
  framed_alert framed_status framed_bind framed_detached
  baseline_update_registration baseline_update_ip : framed.
#[local] Hint Extern 1 (framed (emit _)) =>
  apply framed_emit; exact I : framed.
#[local] Hint Extern 1 (framed (update (with_values _))) =>
  apply framed_values : framed.

(** Splits a method along its binds and branches down to the primitives. *)
Ltac framed_steps :=
  repeat first
    [ progress (intros)
    | apply framed_bind
    | match goal with
      | |- framed (if ?b then _ else _) => destruct b
      | |- framed (match ?x with _ => _ end) => destruct x
      end
    | solve [ eauto with framed ] ].

Section Frames.
Context `{Platform}.

Lemma framed_getAuthority : framed getAuthority.
Proof. unfold getAuthority. framed_steps. Qed.

Lemma framed_sendRegistrationId (w : World) (rid : string) (force : bool) :
  framed (sendRegistrationId w rid force).
Proof.
  unfold sendRegistrationId.
  apply framed_bind; [apply framed_getAuthority |]. framed_steps.
Qed.

Lemma framed_resolve_ip (w : World) : framed (resolve_ip w).
Proof. unfold resolve_ip. framed_steps. Qed.

(** After its first assignment [updatePortForward] keeps the frame: the
    port it was given stays persisted. *)
Lemma updatePortForward_frame (w : World) (p : option Z) (c : Cloud) :
  frame (with_values (set_upnpPort p) c) (snd (updatePortForward w p c)).
Proof.
  unfold updatePortForward.
  set (rest := bind (resolve_ip w) _).
  assert (Hrest : framed rest).
  { subst rest. apply framed_bind; [apply framed_resolve_ip |].
    intros ip. apply framed_bind; [apply framed_read |].
    intros port. apply framed_bind; [apply framed_read |].
    intros v. destruct (baseline_changed v port ip); [| apply framed_ret].
    apply framed_bind; [apply framed_sendRegistrationId |]. framed_steps. }
  exact (Hrest (with_values (set_upnpPort p) c)).
Qed.

Lemma updatePortForward_upnpPort (w : World) (p : option Z) (c : Cloud) :
  upnpPort (values (snd (updatePortForward w p c))) = p.
Proof. now rewrite (fr_upnpPort _ _ (updatePortForward_frame w p c)). Qed.

Lemma updatePortForward_mappings (w : World) (p : option Z) (c : Cloud) :
  mappings_of (trace (snd (updatePortForward w p c))) = mappings_of (trace c).
Proof. now rewrite (fr_mappings _ _ (updatePortForward_frame w p c)). Qed.

End Frames.

(** ** The UPnP mapping *)

(** *** Rounding to a double stays within integer bounds *)

Lemma round_half_even_le (q : Q) (n : Z) :
  (q <= inject_Z n)%Q -> round_half_even q <= n.
Proof.
  intros Hq. unfold round_half_even.
  pose proof (Qfloor_le q) as Hf.
  assert (Hfn : Qfloor q <= n).
  { rewrite <- (Qfloor_Z n). now apply Qfloor_resp_le. }
  destruct (Z.eq_dec (Qfloor q) n) as [E | N].
  - assert (Hlt : (q - inject_Z (Qfloor q) ?= 1 # 2)%Q = Lt).
    { apply (proj1 (Qlt_alt _ _)). rewrite E. revert Hq. generalize (inject_Z n).
      intros x Hx. lra. }
    now rewrite Hlt.
  - destruct (_ ?= _)%Q; [destruct (Z.even _) | |]; lia.
Qed.

Lemma round_half_even_ge (q : Q) (n : Z) :
  (inject_Z n <= q)%Q -> n <= round_half_even q.
Proof.
  intros Hq. unfold round_half_even.
  assert (Hfn : n <= Qfloor q).
  { rewrite <- (Qfloor_Z n). now apply Qfloor_resp_le. }
  destruct (_ ?= _)%Q; [destruct (Z.even _) | |]; lia.
Qed.

Lemma round_half_even_comp (q q' : Q) :
  (q == q')%Q -> round_half_even q = round_half_even q'.
Proof.
  intros E. unfold round_half_even.
  rewrite (Qfloor_comp _ _ E).
  assert (Ec : (q - inject_Z (Qfloor q') ?= 1 # 2)%Q
               = (q' - inject_Z (Qfloor q') ?= 1 # 2)%Q).
  { apply Qcompare_comp; [| reflexivity]. now rewrite E. }
  now rewrite Ec.
Qed.

Lemma pow2_nonpos (k : Z) :
  k <= 0 -> (pow2 k == 1 / inject_Z (2 ^ (- k)))%Q.
Proof.
  intros Hk. unfold pow2. destruct (Z.leb_spec 0 k) as [H0 | H0];
    [| reflexivity].
  assert (k = 0) by lia. subst k. reflexivity.
Qed.

Lemma ulp_exp_small (q : Q) :
  (0 <= q)%Q -> (q < inject_Z (2 ^ 52))%Q -> ulp_exp q <= 0.
Proof.
  intros H0 H1. unfold ulp_exp, binade.
  set (n := Z.abs (Qnum q)). set (d := Zpos (Qden q)).
  assert (Hn : n < 2 ^ 52 * d).
  { unfold Qlt in H1. unfold Qle in H0. cbn [Qnum Qden inject_Z] in H0, H1.
    subst n d. rewrite Z.abs_eq by lia. lia. }
  assert (Hd : d < 2 ^ (Z.succ (Z.log2 d))).
  { apply Z.log2_spec. subst d. lia. }
  assert (Hl : Z.log2 n - Z.log2 d <= 52).
  { destruct (Z.eq_dec n 0) as [E | Hne].
    - rewrite E. change (Z.log2 0) with 0. pose proof (Z.log2_nonneg d). lia.
    - assert (Hpos : 0 < n) by (subst n; lia).
      assert (Hlt : Z.log2 n < 53 + Z.log2 d).
      { apply Z.log2_lt_pow2; [exact Hpos |].
        pose proof (Z.log2_nonneg d).
        replace (53 + Z.log2 d) with (52 + Z.succ (Z.log2 d)) by lia.
        rewrite Z.pow_add_r by lia.
        assert (0 < d) by (subst d; lia). nia. }
      lia. }
  destruct (Qle_bool _ _); lia.
Qed.

Lemma binary64_between (q : Q) (lo hi : Z) :
  (inject_Z lo <= q)%Q -> (q <= inject_Z hi)%Q ->
  (0 <= q)%Q -> (q < inject_Z (2 ^ 52))%Q ->
  (inject_Z lo <= binary64 q)%Q /\ (binary64 q <= inject_Z hi)%Q.
Proof.
  intros Hlo Hhi H0 H1. unfold binary64. cbv zeta.
  pose proof (ulp_exp_small q H0 H1) as Hk.
  set (k := ulp_exp q) in *.
  set (N := 2 ^ (- k)).
  assert (HN : 0 < N) by (subst N; apply Z.pow_pos_nonneg; lia).
  assert (HNq : (0 < inject_Z N)%Q).
  { change 0%Q with (inject_Z 0). now rewrite <- Zlt_Qlt. }
  assert (Hu : (pow2 k == 1 / inject_Z N)%Q) by now apply pow2_nonpos.
  assert (Hs : (q / pow2 k == q * inject_Z N)%Q).
  { rewrite Hu. field. lra. }
  rewrite (round_half_even_comp _ _ Hs), Hu.
  assert (Hr1 : lo * N <= round_half_even (q * inject_Z N)).
  { apply round_half_even_ge. rewrite inject_Z_mult.
    apply Qmult_le_compat_r; [exact Hlo | lra]. }
  assert (Hr2 : round_half_even (q * inject_Z N) <= hi * N).
  { apply round_half_even_le. rewrite inject_Z_mult.
    apply Qmult_le_compat_r; [exact Hhi | lra]. }
  set (r := round_half_even (q * inject_Z N)) in *.
  rewrite Zle_Qle, inject_Z_mult in Hr1, Hr2.
  assert (Hdiv : (inject_Z r * (1 / inject_Z N) == inject_Z r / inject_Z N)%Q)
    by (field; lra).
  rewrite Hdiv. split.
  - now apply Qle_shift_div_l.
  - now apply Qle_shift_div_r.
Qed.

Lemma random_port_range (r : Q) :
  (0 <= r)%Q -> (r < 1)%Q -> 40000 <= random_port r <= 60000.
Proof.
  intros H0 H1. unfold random_port, Math_round.
  assert (E52 : inject_Z (2 ^ 52) = (4503599627370496 # 1)%Q) by reflexivity.
  assert (P : (inject_Z 0 <= binary64 (r * inject_Z 20000))%Q
              /\ (binary64 (r * inject_Z 20000) <= inject_Z 20000)%Q).
  { apply binary64_between; rewrite ?E52; unfold inject_Z; lra. }
  destruct P as (P0 & P1).
  set (x := binary64 (r * inject_Z 20000)) in *.
  assert (S : (inject_Z 40000 <= binary64 (x + inject_Z 40000))%Q
              /\ (binary64 (x + inject_Z 40000) <= inject_Z 60000)%Q).
  { apply binary64_between; rewrite ?E52; unfold inject_Z in *; lra. }
  destruct S as (S0 & S1).
  set (y := binary64 (x + inject_Z 40000)) in *.
  assert (Hlo : (inject_Z 40000 <= y + (1 # 2))%Q) by lra.
  assert (Hhi : (y + (1 # 2) < inject_Z 60001)%Q)
    by (unfold inject_Z in *; lra).
  split.
  - rewrite <- (Qfloor_Z 40000). now apply Qfloor_resp_le.
  - assert (Hf : (inject_Z (Qfloor (y + (1 # 2))) < inject_Z 60001)%Q).
    { eapply Qle_lt_trans; [apply Qfloor_le | exact Hhi]. }
    rewrite <- Zlt_Qlt in Hf. lia.
Qed.

Lemma chosen_port_fresh (w : World) (v : Settings) :
  truthy_num (upnpPort v) = false -> chosen_port w v = random_port (w_random w).
Proof.
  unfold chosen_port, truthy_num.
  destruct (upnpPort v) as [n|]; [| reflexivity].
  destruct (Z.eqb n 0); [reflexivity | discriminate].
Qed.

Lemma chosen_port_persisted (w : World) (v : Settings) (p : Z) :
  upnpPort v = Some p -> p <> 0 -> chosen_port w v = p.
Proof.
  intros E Hp. unfold chosen_port. rewrite E.
  destruct (Z.eqb_spec p 0); [contradiction | reflexivity].
Qed.

Section Mapping.
Context `{Platform}.

(** The callback of the mapping request issues no mapping of its own; it
    persists the port exactly when the router granted the mapping. *)
Lemma portMapping_done_effect (w : World) (port : Z) (c : Cloud) :
  let c' := snd (detached (portMapping_done w port) c) in
  mappings_of (trace c') = mappings_of (trace c)
  /\ (w_portMapping_err w = None -> upnpPort (values c') = Some port)
  /\ (w_portMapping_err w <> None -> upnpPort (values c') = upnpPort (values c)).
Proof.
  unfold portMapping_done, detached. unfold_monad. simpl.
  destruct (w_portMapping_err w) as [err|]; simpl.
  - split; [| split]; [| discriminate | reflexivity].
    now rewrite !mappings_of_snoc.
  - match goal with
    | |- context [updatePortForward w (Some port) ?c0] =>
        pose proof (updatePortForward_frame w (Some port) c0) as F;
        destruct (updatePortForward w (Some port) c0) as [[[] | e] c1]
    end; simpl in *.
    + split; [| split]; [| intros _ | congruence].
      * rewrite (fr_mappings _ _ F). simpl.
        now rewrite !mappings_of_snoc.
      * now rewrite (fr_upnpPort _ _ F).
    + split; [| split]; [| intros _ | congruence].
      * rewrite mappings_of_snoc by exact I.
        rewrite (fr_mappings _ _ F). simpl.
        now rewrite !mappings_of_snoc.
      * now rewrite (fr_upnpPort _ _ F).
Qed.

(** In UPnP mode, with a usable port and a local address,
    [refreshPortForward] requests the mapping and leaves the rest to the
    callback. *)
Lemma refreshPortForward_upnp_eq (w : World) (c : Cloud) (a : ascii)
    (t : string) (rest : list string) :
  forwardingMode (values c) = UPNP ->
  chosen_port w (values c) <> 443 ->
  w_localAddresses w = Some (String a t :: rest) ->
  refreshPortForward w c
  = detached (portMapping_done w (chosen_port w (values c)))
      (with_event
         (UpnpPortMapping {| pm_public_port := chosen_port w (values c);
                             pm_private_host := String a t;
                             pm_private_port := securePort c;
                             pm_ttl := 1800 |}) c).
Proof.
  intros Hm Hp Ha. unfold refreshPortForward.
  unfold bind at 1. unfold read at 1. rewrite Hm. simpl.
  destruct (Z.eqb_spec (chosen_port w (values c)) 443) as [E|_];
    [contradiction |].
  rewrite Ha. reflexivity.
Qed.

(** One mapping is requested: the chosen port outside, the secure port of
    the local address inside, leased for 1800 seconds. *)
Lemma refreshPortForward_upnp (w : World) (c : Cloud) (a : ascii) (t : string)
    (rest : list string) :
  forwardingMode (values c) = UPNP ->
  chosen_port w (values c) <> 443 ->
  w_localAddresses w = Some (String a t :: rest) ->
  let port := chosen_port w (values c) in
  let c' := snd (refreshPortForward w c) in
  mappings_of (trace c')
  = mappings_of (trace c)
    ++ [{| pm_public_port := port; pm_private_host := String a t;
           pm_private_port := securePort c; pm_ttl := 1800 |}]
  /\ (w_portMapping_err w = None -> upnpPort (values c') = Some port)
  /\ (w_portMapping_err w <> None -> upnpPort (values c') = upnpPort (values c)).
Proof.
  intros Hm Hp Ha port c'. subst c'.
  rewrite (refreshPortForward_upnp_eq w c a t rest Hm Hp Ha). fold port.
  match goal with
  | |- context [detached (portMapping_done w port) ?c0] =>
      destruct (portMapping_done_effect w port c0) as (M1 & M2 & M3)
  end.
  split; [| split].
  - rewrite M1. unfold mappings_of. simpl. now apply omap_snoc_Some.
  - exact M2.
  - exact M3.
Qed.

(** C3 (amended). In UPnP mode with no persisted port, [refreshPortForward]
    draws a port between 40000 and 60000, both included, and requests a
    mapping from that public port to the secure port of the local address;
    once the router grants the mapping the port is persisted and every
    later run chooses it again; if the router refuses, nothing is
    persisted. *)
Theorem refreshPortForward_fresh_upnp_port (w : World) (c : Cloud) (a : ascii)
    (t : string) (rest : list string) :
  forwardingMode (values c) = UPNP ->
  truthy_num (upnpPort (values c)) = false ->
  (0 <= w_random w)%Q -> (w_random w < 1)%Q ->
  w_localAddresses w = Some (String a t :: rest) ->
  let port := random_port (w_random w) in
  let c' := snd (refreshPortForward w c) in
  40000 <= port <= 60000
  /\ mappings_of (trace c')
     = mappings_of (trace c)
       ++ [{| pm_public_port := port; pm_private_host := String a t;
              pm_private_port := securePort c; pm_ttl := 1800 |}]
  /\ (w_portMapping_err w = None ->
      upnpPort (values c') = Some port
      /\ forall w', chosen_port w' (values c') = port)
  /\ (w_portMapping_err w <> None -> upnpPort (values c') = upnpPort (values c)).
Proof.
  intros Hm Hn H0 H1 Ha port c'.
  pose proof (random_port_range _ H0 H1) as R. fold port in R.
  pose proof (chosen_port_fresh w _ Hn) as Hc. fold port in Hc.
  assert (Hp : chosen_port w (values c) <> 443) by lia.
  destruct (refreshPortForward_upnp w c a t rest Hm Hp Ha) as (M1 & M2 & M3).
  rewrite Hc in M1, M2. fold c' in M1, M2, M3.
  split; [exact R |]. split; [exact M1 |]. split; [| exact M3].
  intros E. split; [now apply M2 |].
  intros w'. apply chosen_port_persisted; [now apply M2 | lia].
Qed.

(** C8 (amended). The UPnP mapping is requested with a lease of 1800
    seconds towards the secure port of the local address, and it is
    requested again every 30 minutes: the renewal period equals the lease,
    it is not below it. *)
Theorem upnp_mapping_lease_and_renewal (w : World) (c : Cloud) (a : ascii)
    (t : string) (rest : list string) :
  forwardingMode (values c) = UPNP ->
  chosen_port w (values c) <> 443 ->
  w_localAddresses w = Some (String a t :: rest) ->
  (exists m,
     mappings_of (trace (snd (refreshPortForward w c)))
     = mappings_of (trace c) ++ [m]
     /\ pm_ttl m = 1800
     /\ pm_private_host m = String a t
     /\ pm_private_port m = securePort c
     /\ upnpInterval_ms = 1000 * pm_ttl m)
  /\ upnpInterval_ms = 30 * 60 * 1000
  /\ forall t0 n, refresh_time t0 (S n) - refresh_time t0 n = upnpInterval_ms.
Proof.
  intros Hm Hp Ha.
  destruct (refreshPortForward_upnp w c a t rest Hm Hp Ha) as (M1 & _).
  split; [| split].
  - eexists. split; [exact M1 |]. repeat split.
  - reflexivity.
  - intros t0 n. unfold refresh_time. lia.
Qed.

End Mapping.

(** ** Stepping through a method *)

Lemma bind_ret {A B} (a : A) (k : A -> M B) (c : Cloud) :
  bind (ret a) k c = k a c.
Proof. reflexivity. Qed.

Lemma bind_read {A B} (f : Cloud -> A) (k : A -> M B) (c : Cloud) :
  bind (read f) k c = k (f c) c.
Proof. reflexivity. Qed.

Lemma bind_update {B} (f : Cloud -> Cloud) (k : unit -> M B) (c : Cloud) :
  bind (update f) k c = k tt (f c).
Proof. reflexivity. Qed.

Lemma bind_emit {B} (e : event) (k : unit -> M B) (c : Cloud) :
  bind (emit e) k c = k tt (with_event e c).
Proof. reflexivity. Qed.

Lemma bind_alert {B} (msg : string) (k : unit -> M B) (c : Cloud) :
  bind (alert msg) k c = k tt (with_event (Alert msg) c).
Proof. reflexivity. Qed.

Create Rewrite HintDb step.
#[local] Hint Rewrite @bind_ret @bind_read @bind_update @bind_emit @bind_alert
  : step.

Lemma registrations_of_snoc_other (l : list event) (e : event) :
  match e with HttpRegister _ _ => False | _ => True end ->
  registrations_of (l ++ [e]) = registrations_of l.
Proof.
  intros He. unfold registrations_of. apply omap_snoc_None.
  destruct e; try reflexivity. contradiction.
Qed.

Lemma registrations_of_snoc (l : list event) (q : RegistrationQuery)
    (tok : string) :
  registrations_of (l ++ [HttpRegister q tok]) = registrations_of l ++ [q].
Proof. unfold registrations_of. now apply omap_snoc_Some. Qed.

(** ** Registration, step by step *)

(** The authority of a state on which [getAuthority] does not refuse. *)
Lemma getAuthority_accepts (c : Cloud) :
  forwardingMode (values c) <> Disabled ->
  num_opt_eqb (authority_upnp_port (values c)) (Some 443)
  && negb (truthy_str (authority_hostname (values c))) = false ->
  exists a, getAuthority c = (Ok a, c)
            /\ a_upnp_port a = authority_upnp_port (values c).
Proof.
  intros Hm Hp. unfold getAuthority. autorewrite with step.
  destruct (mode_eqb _ Disabled) eqn:D.
  { apply mode_eqb_eq in D. contradiction. }
  rewrite Hp. destruct (negb _); eexists; split; reflexivity.
Qed.

Lemma getAuthority_values (c c' : Cloud) :
  values c = values c' -> fst (getAuthority c) = fst (getAuthority c').
Proof.
  intros E. unfold getAuthority. autorewrite with step. rewrite E.
  destruct (mode_eqb _ Disabled); [reflexivity |].
  destruct (num_opt_eqb _ _ && _); [reflexivity |].
  destruct (negb _); reflexivity.
Qed.

Section RegistrationSteps.
Context `{Platform}.

(** Connected and logged in, one request is sent to the relay. *)
Lemma sendRegistrationId_sends (w : World) (rid : string) (force : bool)
    (c : Cloud) (a : Authority) :
  getAuthority c = (Ok a, c) ->
  connectHomeScryptedApp (values c) = true ->
  truthy_str (token_info (values c)) = true ->
  let c1 := with_event (HttpRegister (registration_query c a rid force)
                          (show_str (token_info (values c)))) c in
  sendRegistrationId w rid force c
  = match w_register w with
    | Throw e => (Ok (error_body ("Error: " ++ e)%string), c1)
    | Ok body =>
        match body_error body with
        | Some error => (Ok body, with_event (Alert error) c1)
        | None =>
            (Ok body,
             with_values (set_registration_baseline rid (a_upnp_port a)) c1)
        end
    end.
Proof.
  intros Ha Hc Hk. unfold sendRegistrationId.
  rewrite (bind_ok _ _ _ _ _ Ha). autorewrite with step. rewrite Hc. simpl.
  destruct (token_info (values c)) as [[|x t]|]; try discriminate.
  simpl. autorewrite with step.
  destruct (w_register w) as [body | e]; [| reflexivity].
  destruct (body_error body); reflexivity.
Qed.

End RegistrationSteps.

(** ** Change suppression *)

Lemma baseline_changed_false (v : Settings) (port : option Z) (ip : option string) :
  baseline_changed v port ip = false
  <-> lastPersistedUpnpPort v = port /\ lastPersistedIp v = ip.
Proof.
  unfold baseline_changed. rewrite orb_false_iff, !negb_false_iff.
  rewrite num_opt_eqb_eq, str_opt_eqb_eq. intuition congruence.
Qed.

Lemma body_error_accepted (body : RegisterBody) :
  truthy_str (rb_error body) = false -> body_error (Some body) = None.
Proof. intros E. simpl. now rewrite E. Qed.

Lemma alerts_of_snoc_other (l : list event) (e : event) :
  match e with Alert _ => False | _ => True end ->
  alerts_of (l ++ [e]) = alerts_of l.
Proof.
  intros He. unfold alerts_of. apply omap_snoc_None.
  destruct e; try reflexivity. contradiction.
Qed.

Lemma alerts_of_snoc (l : list event) (msg : string) :
  alerts_of (l ++ [Alert msg]) = alerts_of l ++ [msg].
Proof. unfold alerts_of. now apply omap_snoc_Some. Qed.

Lemma getAuthority_port (c : Cloud) (a : Authority) :
  fst (getAuthority c) = Ok a ->
  (forwardingMode (values c) <> Disabled ->
   a_upnp_port a = authority_upnp_port (values c))
  /\ (forwardingMode (values c) = Disabled -> a = empty_authority).
Proof.
  unfold getAuthority. rewrite bind_read.
  destruct (mode_eqb (forwardingMode (values c)) Disabled) eqn:D.
  - apply mode_eqb_eq in D. intros [= <-]. split; [congruence | reflexivity].
  - assert (Hnd : forwardingMode (values c) <> Disabled).
    { intros E. rewrite E in D. discriminate. }
    destruct (num_opt_eqb _ _ && _); [discriminate |].
    destruct (negb _); intros [= <-]; (split; [reflexivity | congruence]).
Qed.

Section ChangeSuppression.
Context `{Platform}.

Lemma reaches_relay_frame (w : World) (p : option Z) (c c' : Cloud)
    (ip : option string) :
  reaches_relay w p c ip ->
  frame c c' \/ frame (with_values (set_upnpPort p) c) c' ->
  reaches_relay w p c' ip.
Proof.
  intros R F.
  assert (F' : forwardingMode (values c') = forwardingMode (values c)
               /\ hostname (values c') = hostname (values c)
               /\ duckDnsToken (values c') = duckDnsToken (values c)
               /\ duckDnsHostname (values c') = duckDnsHostname (values c)
               /\ token_info (values c') = token_info (values c)
               /\ connectHomeScryptedApp (values c')
                  = connectHomeScryptedApp (values c)
               /\ cloudflareTunnel c' = cloudflareTunnel c).
  { destruct F as [[] | []]; simpl in *; repeat split; assumption. }
  destruct F' as (F1 & F2 & F3 & F4 & F5 & F6 & F7).
  unfold reaches_relay, cloudflareTunnelHost in *.
  rewrite F1, F2, F3, F4, F5, F6, F7. exact R.
Qed.

Lemma goes_through_frame (w : World) (p : option Z) (c c' : Cloud)
    (ip : option string) (body : RegisterBody) :
  registration_goes_through w p c ip body ->
  frame c c' \/ frame (with_values (set_upnpPort p) c) c' ->
  registration_goes_through w p c' ip body.
Proof.
  intros (R & Hr & He) F. split; [| split; assumption].
  now apply (reaches_relay_frame w p c).
Qed.

Lemma compared_port_frame (p : option Z) (c c' : Cloud) :
  frame c c' \/ frame (with_values (set_upnpPort p) c) c' ->
  compared_port c' p = compared_port c p.
Proof.
  intros F. unfold compared_port, cloudflareTunnelHost.
  assert (F' : forwardingMode (values c') = forwardingMode (values c)
               /\ cloudflareTunnel c' = cloudflareTunnel c).
  { destruct F as [[] | []]; simpl in *; split; assumption. }
  destruct F' as (-> & ->). reflexivity.
Qed.

Lemma compares_authority_port_frame (p : option Z) (c c' : Cloud) :
  compares_authority_port c ->
  frame c c' \/ frame (with_values (set_upnpPort p) c) c' ->
  compares_authority_port c'.
Proof.
  intros C F. unfold compares_authority_port, cloudflareTunnelHost in *.
  assert (F' : forwardingMode (values c') = forwardingMode (values c)
               /\ cloudflareTunnel c' = cloudflareTunnel c).
  { destruct F as [[] | []]; simpl in *; split; assumption. }
  destruct F' as (-> & ->). exact C.
Qed.

Lemma resolved_state_values (p : option Z) (c : Cloud) :
  values (resolved_state p c) = set_upnpPort p (values c).
Proof. unfold resolved_state. now destruct (_ || _). Qed.

Lemma resolved_state_tunnel (p : option Z) (c : Cloud) :
  cloudflareTunnel (resolved_state p c) = cloudflareTunnel c.
Proof. unfold resolved_state. now destruct (_ || _). Qed.

Lemma resolved_state_registrations (p : option Z) (c : Cloud) :
  registrations_of (trace (resolved_state p c)) = registrations_of (trace c).
Proof.
  unfold resolved_state. destruct (_ || _); [reflexivity |].
  simpl. now apply registrations_of_snoc_other.
Qed.

Lemma resolved_state_alerts (p : option Z) (c : Cloud) :
  alerts_of (trace (resolved_state p c)) = alerts_of (trace c).
Proof.
  unfold resolved_state. destruct (_ || _); [reflexivity |].
  simpl. now apply alerts_of_snoc_other.
Qed.

(** The address is resolved without throwing. *)
Lemma resolve_ip_resolved (w : World) (p : option Z) (c : Cloud)
    (ip : option string) :
  reaches_relay w p c ip ->
  resolve_ip w (with_values (set_upnpPort p) c) = (Ok ip, resolved_state p c).
Proof.
  intros (_ & _ & Hip). unfold resolve_ip, resolved_state.
  rewrite !bind_read.
  change (cloudflareTunnelHost (with_values (set_upnpPort p) c))
    with (cloudflareTunnelHost c).
  change (forwardingMode (values (with_values (set_upnpPort p) c)))
    with (forwardingMode (values c)).
  change (hostname (values (with_values (set_upnpPort p) c)))
    with (hostname (values c)).
  change (duckDnsHostname (values (with_values (set_upnpPort p) c)))
    with (duckDnsHostname (values c)).
  change (duckDnsToken (values (with_values (set_upnpPort p) c)))
    with (duckDnsToken (values c)).
  destruct (mode_eqb (forwardingMode (values c)) CustomDomain).
  - destruct Hip as (-> & ->). reflexivity.
  - destruct Hip as (-> & Ha & _). cbn [orb].
    destruct (truthy_str (cloudflareTunnelHost c)) eqn:T; cbn [negb];
      unfold bind, emit, await, ret; cbn [fst snd]; now rewrite ?Ha.
Qed.

(** One run of [updatePortForward] towards the relay when the pair is the
    baseline: nothing is sent. *)
Lemma updatePortForward_unchanged (w : World) (p : option Z) (c : Cloud)
    (ip : option string) :
  reaches_relay w p c ip ->
  baseline_changed (values c) (compared_port c p) ip = false ->
  updatePortForward w p c = (Ok tt, resolved_state p c).
Proof.
  intros R B. unfold updatePortForward. rewrite bind_update.
  rewrite (bind_ok _ _ _ _ _ (resolve_ip_resolved w p c ip R)).
  rewrite !bind_read.
  assert (Hp : compared_port (resolved_state p c) p = compared_port c p).
  { unfold compared_port, cloudflareTunnelHost.
    now rewrite resolved_state_values, resolved_state_tunnel. }
  rewrite Hp, resolved_state_values.
  change (baseline_changed (set_upnpPort p (values c)) (compared_port c p) ip)
    with (baseline_changed (values c) (compared_port c p) ip).
  now rewrite B.
Qed.

(** One run of [updatePortForward] towards the relay when the pair has
    changed, for each answer of the relay. *)
Lemma updatePortForward_reaches_relay (w : World) (p : option Z) (c : Cloud)
    (ip : option string) :
  reaches_relay w p c ip ->
  baseline_changed (values c) (compared_port c p) ip = true ->
  exists a,
    fst (getAuthority (with_values (set_upnpPort p) c)) = Ok a
    /\ updatePortForward w p c
       = match w_register w with
         | Throw e => (Ok tt, request_sent w p c a)
         | Ok body =>
             match body_error body with
             | Some err => (Ok tt, with_event (Alert err) (request_sent w p c a))
             | None =>
                 let c2 := with_values
                             (set_registration_baseline (w_registrationId w)
                                (a_upnp_port a)) (request_sent w p c a) in
                 match body with
                 | None =>
                     if str_opt_eqb ip (Some "localhost")
                     then (Ok tt, with_values (set_lastPersistedIp ip) c2)
                     else (Throw "Cannot read properties of undefined (reading 'ip_address')",
                           c2)
                 | Some d =>
                     (Ok tt,
                      with_values (set_lastPersistedIp ip)
                        (if ip_unverified ip d (cloudflareTunnelHost c)
                         then with_event (Alert (verify_ip_alert (values c2))) c2
                         else c2))
                 end
             end
         end.
Proof.
  intros R B. pose proof R as (Hc & Hk & Hip).
  set (port := compared_port c p) in *.
  set (c0 := with_values (set_upnpPort p) c).
  set (ci := resolved_state p c).
  pose proof (resolve_ip_resolved w p c ip R) as Hres. fold c0 ci in Hres.
  assert (Hvi : values ci = values c0) by apply resolved_state_values.
  assert (Hti : cloudflareTunnel ci = cloudflareTunnel c)
    by apply resolved_state_tunnel.
  assert (Hpi : compared_port ci p = port).
  { unfold compared_port, cloudflareTunnelHost. now rewrite Hvi, Hti. }
  assert (Hga : exists a, getAuthority ci = (Ok a, ci)).
  { unfold getAuthority. autorewrite with step. rewrite Hvi.
    change (forwardingMode (values c0)) with (forwardingMode (values c)).
    destruct (mode_eqb _ Disabled) eqn:D; [eexists; reflexivity |].
    assert (Hnd : forwardingMode (values c) <> Disabled).
    { intros E. rewrite E in D. discriminate. }
    assert (Hok : num_opt_eqb (authority_upnp_port (values c0)) (Some 443)
                  && negb (truthy_str (authority_hostname (values c0)))
                  = false).
    { unfold authority_upnp_port, authority_hostname. simpl.
      destruct (mode_eqb _ CustomDomain).
      - destruct Hip as (<- & ->). reflexivity.
      - destruct Hip as (_ & _ & Hp).
        destruct (num_opt_eqb p (Some 443)) eqn:E; [| reflexivity].
        apply num_opt_eqb_eq in E. now apply Hp in Hnd. }
    rewrite Hok.
    destruct (negb (truthy_str (authority_hostname (values c0))));
      eexists; reflexivity. }
  destruct Hga as (a & Ha). exists a. split.
  { rewrite <- (getAuthority_values ci c0 Hvi), Ha. reflexivity. }
  pose proof (sendRegistrationId_sends w (w_registrationId w) false ci a Ha
                ltac:(now rewrite Hvi) ltac:(now rewrite Hvi)) as Hs.
  cbv zeta in Hs.
  assert (Hq : with_event
                 (HttpRegister (registration_query ci a (w_registrationId w) false)
                    (show_str (token_info (values ci)))) ci
               = request_sent w p c a).
  { unfold request_sent, registration_query. fold ci. now rewrite Hvi. }
  rewrite Hq in Hs.
  unfold updatePortForward. rewrite bind_update. fold c0.
  rewrite (bind_ok _ _ _ _ _ Hres), bind_read, Hpi, bind_read, Hvi.
  change (baseline_changed (values c0) port ip)
    with (baseline_changed (values c) port ip).
  rewrite B. unfold bind at 1. rewrite Hs.
  destruct (w_register w) as [body | e]; [| reflexivity].
  destruct (body_error body) as [err|] eqn:Eb; [now rewrite Eb |].
  rewrite Eb. destruct body as [d|].
  2:{ cbv zeta. destruct (str_opt_eqb ip (Some "localhost")); reflexivity. }
  autorewrite with step.
  assert (Hth2 : cloudflareTunnelHost
                   (with_values
                      (set_registration_baseline (w_registrationId w)
                         (a_upnp_port a)) (request_sent w p c a))
                 = cloudflareTunnelHost c).
  { unfold cloudflareTunnelHost, request_sent. simpl. fold ci.
    now rewrite Hti. }
  rewrite Hth2. fold (ip_unverified ip d (cloudflareTunnelHost c)).
  destruct (ip_unverified ip d (cloudflareTunnelHost c)); reflexivity.
Qed.

Lemma request_sent_values (w : World) (p : option Z) (c : Cloud)
    (a : Authority) :
  values (request_sent w p c a) = set_upnpPort p (values c).
Proof. unfold request_sent. simpl. apply resolved_state_values. Qed.

Lemma request_sent_tunnel (w : World) (p : option Z) (c : Cloud)
    (a : Authority) :
  cloudflareTunnel (request_sent w p c a) = cloudflareTunnel c.
Proof. unfold request_sent. simpl. apply resolved_state_tunnel. Qed.

Lemma request_sent_alerts (w : World) (p : option Z) (c : Cloud)
    (a : Authority) :
  alerts_of (trace (request_sent w p c a)) = alerts_of (trace c).
Proof.
  unfold request_sent. simpl. rewrite alerts_of_snoc_other by exact I.
  apply resolved_state_alerts.
Qed.

Lemma request_sent_registrations (w : World) (p : option Z) (c : Cloud)
    (a : Authority) :
  registrations_of (trace (request_sent w p c a))
  = registrations_of (trace c)
    ++ [registration_query c a (w_registrationId w) false].
Proof.
  unfold request_sent. simpl. rewrite registrations_of_snoc.
  now rewrite resolved_state_registrations.
Qed.

(** Whatever the relay answers, a changed pair that reaches the relay
    makes one registration request, with the authority. *)
Lemma updatePortForward_registers (w : World) (p : option Z) (c : Cloud)
    (ip : option string) :
  reaches_relay w p c ip ->
  baseline_changed (values c) (compared_port c p) ip = true ->
  exists a,
    fst (getAuthority (with_values (set_upnpPort p) c)) = Ok a
    /\ registrations_of (trace (snd (updatePortForward w p c)))
       = registrations_of (trace c)
         ++ [registration_query c a (w_registrationId w) false].
Proof.
  intros R B.
  destruct (updatePortForward_reaches_relay w p c ip R B) as (a & Ha & E).
  exists a. split; [exact Ha |]. rewrite E.
  destruct (w_register w) as [body | e];
    [| apply request_sent_registrations].
  destruct (body_error body) as [err |].
  { cbn [snd trace with_event]. rewrite registrations_of_snoc_other by exact I.
    apply request_sent_registrations. }
  cbv zeta. destruct body as [d |].
  - cbn [snd trace with_values].
    destruct (ip_unverified ip d (cloudflareTunnelHost c));
      cbn [trace with_values with_event];
      rewrite ?registrations_of_snoc_other by exact I;
      apply request_sent_registrations.
  - destruct (str_opt_eqb ip (Some "localhost"));
      cbn [snd trace with_values]; apply request_sent_registrations.
Qed.

(** One run of [updatePortForward] when registrations go through: an
    unchanged pair sends nothing; a changed pair sends one registration
    with the authority, after which the authority's port and the address
    are the baseline. *)
Lemma updatePortForward_one_run (w : World) (p : option Z) (c : Cloud)
    (ip : option string) (body : RegisterBody) :
  registration_goes_through w p c ip body ->
  let port := compared_port c p in
  let c1 := snd (updatePortForward w p c) in
  (baseline_changed (values c) port ip = true ->
     exists a,
       fst (getAuthority (with_values (set_upnpPort p) c)) = Ok a
       /\ registrations_of (trace c1)
          = registrations_of (trace c)
            ++ [registration_query c a (w_registrationId w) false]
       /\ lastPersistedUpnpPort (values c1) = a_upnp_port a
       /\ lastPersistedIp (values c1) = ip
       /\ (forwardingMode (values c) <> Disabled ->
           compares_authority_port c -> a_upnp_port a = port)
       /\ (forwardingMode (values c) = Disabled -> a = empty_authority))
  /\ (baseline_changed (values c) port ip = false ->
      registrations_of (trace c1) = registrations_of (trace c)
      /\ lastPersistedUpnpPort (values c1) = lastPersistedUpnpPort (values c)
      /\ lastPersistedIp (values c1) = lastPersistedIp (values c)).
Proof.
  intros (R & Hr & He) port c1. split; intros B.
  - destruct (updatePortForward_registers w p c ip R B) as (a & Ha & Hreg).
    destruct (updatePortForward_reaches_relay w p c ip R B) as (a' & Ha' & E).
    assert (a' = a) by congruence. subst a'.
    rewrite Hr, (body_error_accepted body He) in E. cbv zeta in E.
    exists a. split; [exact Ha |]. split; [exact Hreg |].
    destruct (getAuthority_port _ a Ha) as (Hport & Hdis).
    subst c1. rewrite E. cbn [snd values with_values set_lastPersistedIp
                               lastPersistedUpnpPort lastPersistedIp].
    split.
    { destruct (ip_unverified ip body (cloudflareTunnelHost c)); reflexivity. }
    split; [reflexivity |]. split; [| exact Hdis].
    intros Hnd Hcmp. rewrite (Hport Hnd). subst port.
    unfold authority_upnp_port, compared_port. cbn [values with_values
      set_upnpPort forwardingMode upnpPort].
    destruct Hcmp as [-> | ->]; [reflexivity |].
    now rewrite orb_false_r.
  - subst c1. rewrite (updatePortForward_unchanged w p c ip R B).
    cbn [snd]. rewrite resolved_state_registrations, resolved_state_values.
    repeat split.
Qed.

(** *** Runs that cannot register *)

Lemma silent_refl (c : Cloud) : silent c c.
Proof. repeat split. Qed.

Lemma silent_trans (c1 c2 c3 : Cloud) :
  silent c1 c2 -> silent c2 c3 -> silent c1 c3.
Proof.
  intros (A1 & A2 & A3 & A4) (B1 & B2 & B3 & B4).
  repeat split; congruence.
Qed.

Lemma silent_event (e : event) (c : Cloud) :
  match e with HttpRegister _ _ => False | _ => True end ->
  silent c (with_event e c).
Proof.
  intros He. split; [| repeat split]. simpl.
  apply registrations_of_snoc_other. now destruct e.
Qed.

Lemma getAuthority_silent (c : Cloud) : silent c (snd (getAuthority c)).
Proof.
  destruct (getAuthority c) as [[a | e] c'] eqn:E; simpl.
  - apply getAuthority_ok_state in E as ->. apply silent_refl.
  - apply getAuthority_throw_state in E as (-> & _). now apply silent_event.
Qed.

Lemma resolve_ip_silent (w : World) (c : Cloud) :
  silent c (snd (resolve_ip w c)).
Proof.
  unfold resolve_ip. rewrite !bind_read.
  destruct (mode_eqb _ CustomDomain).
  { destruct (negb _); apply silent_refl. }
  destruct (_ && _).
  { rewrite bind_emit. destruct (w_duckdns w); now apply silent_event. }
  destruct (negb (truthy_str (cloudflareTunnelHost c)));
    unfold bind, emit, await, ret; cbn [fst snd].
  - destruct (w_ip w); now apply silent_event.
  - apply silent_refl.
Qed.

(** Logged out or disconnected, [sendRegistrationId] answers with an
    error of its own, unless [getAuthority] throws. *)
Lemma sendRegistrationId_offline (w : World) (rid : string) (force : bool)
    (c : Cloud) :
  truthy_str (token_info (values c)) = false
  \/ connectHomeScryptedApp (values c) = false ->
  silent c (snd (sendRegistrationId w rid force c))
  /\ forall data, fst (sendRegistrationId w rid force c) = Ok data ->
                  body_error data <> None.
Proof.
  intros Hoff. unfold sendRegistrationId.
  destruct (getAuthority c) as [[a | e] c'] eqn:E.
  2:{ rewrite (bind_throw _ _ _ _ _ E). simpl.
      split; [| discriminate].
      apply getAuthority_throw_state in E as (-> & _). now apply silent_event. }
  rewrite (bind_ok _ _ _ _ _ E).
  apply getAuthority_ok_state in E as ->. rewrite bind_read. cbv zeta.
  destruct (connectHomeScryptedApp (values c)) eqn:Hc; cbn [negb].
  - destruct Hoff as [Ht | Hf]; [| discriminate].
    destruct (token_info (values c)) as [[| x t] |]; try discriminate;
      rewrite bind_alert; simpl;
      (split; [now apply silent_event | intros data [= <-]; discriminate]).
  - simpl. split; [apply silent_refl | intros data [= <-]; discriminate].
Qed.

Lemma updatePortForward_offline (w : World) (p : option Z) (c : Cloud) :
  truthy_str (token_info (values c)) = false
  \/ connectHomeScryptedApp (values c) = false ->
  silent c (snd (updatePortForward w p c)).
Proof.
  intros Hoff. unfold updatePortForward. rewrite bind_update.
  set (c0 := with_values (set_upnpPort p) c).
  assert (S0 : silent c c0) by (repeat split).
  pose proof (resolve_ip_silent w c0) as S1.
  destruct (resolve_ip w c0) as [[ip | e] ci] eqn:R; simpl in S1.
  2:{ rewrite (bind_throw _ _ _ _ _ R). simpl.
      exact (silent_trans _ _ _ S0 S1). }
  rewrite (bind_ok _ _ _ _ _ R), !bind_read.
  assert (Si : silent c ci) by exact (silent_trans _ _ _ S0 S1).
  destruct (baseline_changed _ _ _); [| exact Si].
  assert (Hoffi : truthy_str (token_info (values ci)) = false
                  \/ connectHomeScryptedApp (values ci) = false).
  { destruct Si as (_ & _ & -> & ->). exact Hoff. }
  destruct (sendRegistrationId_offline w (w_registrationId w) false ci Hoffi)
    as (S2 & Herr).
  destruct (sendRegistrationId w (w_registrationId w) false ci)
    as [[data | e] cs] eqn:S; simpl in S2.
  2:{ rewrite (bind_throw _ _ _ _ _ S). simpl.
      exact (silent_trans _ _ _ Si S2). }
  rewrite (bind_ok _ _ _ _ _ S). specialize (Herr data eq_refl).
  destruct (body_error data); [| contradiction].
  simpl. exact (silent_trans _ _ _ Si S2).
Qed.

(** C4 (amended). [updatePortForward] takes no force flag. Outside
    Disabled mode, when the port compared is the port persisted (Custom
    Domain mode, or no tunnel host) and registrations go through (connected
    and logged in; the address resolved: a custom domain's non-empty
    hostname, or else, with no Duck DNS pair set, the relay's answer; a
    port other than 443 outside Custom Domain mode; a relay that answers
    with a body without error): a run sends a registration exactly when
    the computed pair of port and address differs from the persisted pair;
    after the run the computed pair is the baseline; so the next run with
    the same port and address sends nothing, and two consecutive runs from
    a differing baseline make exactly one registration call. Logged out or
    disconnected, in any state, a run sends no registration and persists
    no baseline. *)
Theorem updatePortForward_change_suppression (w : World) (p : option Z)
    (c : Cloud) :
  let c1 := snd (updatePortForward w p c) in
  (forall (ip : option string) (body : RegisterBody),
     forwardingMode (values c) <> Disabled ->
     compares_authority_port c ->
     registration_goes_through w p c ip body ->
     let port := compared_port c p in
     let c2 := snd (updatePortForward w p c1) in
     length (registrations_of (trace c1))
     = (length (registrations_of (trace c))
        + if baseline_changed (values c) port ip then 1 else 0)%nat
     /\ baseline_changed (values c1) port ip = false
     /\ registrations_of (trace c2) = registrations_of (trace c1))
  /\ (truthy_str (token_info (values c)) = false
      \/ connectHomeScryptedApp (values c) = false ->
      registrations_of (trace c1) = registrations_of (trace c)
      /\ lastPersistedRegistrationId (values c1)
         = lastPersistedRegistrationId (values c)
      /\ lastPersistedUpnpPort (values c1) = lastPersistedUpnpPort (values c)
      /\ lastPersistedIp (values c1) = lastPersistedIp (values c)).
Proof.
  intros c1. split.
  - intros ip body Hm Hcmp G port c2.
    pose proof (updatePortForward_one_run w p c ip body G) as (R1 & R0).
    fold port c1 in R1, R0.
    pose proof (updatePortForward_frame w p c) as F. fold c1 in F.
    assert (G1 : registration_goes_through w p c1 ip body).
    { eapply goes_through_frame; [exact G | right; exact F]. }
    assert (P1 : compared_port c1 p = port).
    { apply compared_port_frame. right. exact F. }
    assert (B1 : baseline_changed (values c1) port ip = false).
    { destruct (baseline_changed (values c) port ip) eqn:B.
      - destruct (R1 eq_refl) as (a & _ & _ & Hp & Hi & Hau & _).
        apply baseline_changed_false. split; [| exact Hi].
        rewrite Hp. now apply Hau.
      - destruct (R0 eq_refl) as (_ & Hp & Hi).
        apply baseline_changed_false in B as (Bp & Bi).
        apply baseline_changed_false. split; congruence. }
    split; [| split; [exact B1 |]].
    + destruct (baseline_changed (values c) port ip).
      * destruct (R1 eq_refl) as (a & _ & -> & _). rewrite length_app.
        reflexivity.
      * destruct (R0 eq_refl) as (-> & _). lia.
    + pose proof (updatePortForward_one_run w p c1 ip body G1) as (_ & S0).
      rewrite P1 in S0. exact (proj1 (S0 B1)).
  - intros Hoff.
    destruct (updatePortForward_offline w p c Hoff) as (S1 & S2 & _).
    fold c1 in S1, S2. unfold baseline in S2.
    split; [exact S1 |]. repeat split; congruence.
Qed.

End ChangeSuppression.

(** ** Disabled mode *)

Lemma registrations_of_detached {A} (m : M A) (c : Cloud) :
  registrations_of (trace (snd (detached m c)))
  = registrations_of (trace (snd (m c))).
Proof.
  unfold detached. destruct (m c) as [[a | e] c1]; [reflexivity |].
  simpl. now apply registrations_of_snoc_other.
Qed.

Lemma registered_as_refl (a : Authority) (c : Cloud) : registered_as a c c.
Proof. exists []. split; [now rewrite app_nil_r | constructor]. Qed.

Lemma registered_as_trans (a : Authority) (c1 c2 c3 : Cloud) :
  registered_as a c1 c2 -> registered_as a c2 c3 -> registered_as a c1 c3.
Proof.
  intros (s1 & E1 & F1) (s2 & E2 & F2). exists (s1 ++ s2). split.
  - now rewrite E2, E1, app_assoc.
  - apply Forall_app. split; assumption.
Qed.

Lemma registered_as_same (a : Authority) (c c' : Cloud) :
  registrations_of (trace c') = registrations_of (trace c) ->
  registered_as a c c'.
Proof.
  intros E. exists []. split; [now rewrite app_nil_r | constructor].
Qed.

Lemma registered_as_silent (a : Authority) (c c' : Cloud) :
  silent c c' -> registered_as a c c'.
Proof. intros (E & _). now apply registered_as_same. Qed.

Section DisabledMode.
Context `{Platform}.

Lemma sendRegistrationId_disabled (w : World) (rid : string) (force : bool)
    (c : Cloud) :
  forwardingMode (values c) = Disabled ->
  registered_as empty_authority c (snd (sendRegistrationId w rid force c)).
Proof.
  intros Hm. unfold sendRegistrationId.
  assert (E : getAuthority c = (Ok empty_authority, c)).
  { unfold getAuthority. rewrite bind_read, Hm. reflexivity. }
  rewrite (bind_ok _ _ _ _ _ E), bind_read. cbv zeta.
  destruct (negb _); [apply registered_as_refl |].
  destruct (token_info (values c)) as [[| x t] |];
    try (rewrite bind_alert; simpl; apply registered_as_silent;
         now apply silent_event).
  rewrite bind_emit.
  assert (Sent : registered_as empty_authority c
                   (with_event
                      (HttpRegister
                         {| q_authority := empty_authority;
                            q_registration_id := rid;
                            q_server_id := serverId (values c);
                            q_server_name := serverName (values c);
                            q_sender_id := DEFAULT_SENDER_ID;
                            q_registration_secret := registrationSecret (values c);
                            q_force := if force then "true" else EmptyString |}
                         (String x t)) c)).
  { eexists [_]. split; [simpl; apply registrations_of_snoc |].
    repeat constructor. }
  destruct (w_register w) as [body | e]; [| exact Sent].
  destruct (body_error body).
  - rewrite bind_alert. simpl.
    eapply registered_as_trans; [exact Sent |].
    apply registered_as_silent. now apply silent_event.
  - rewrite bind_update. simpl.
    eapply registered_as_trans; [exact Sent |].
    now apply registered_as_same.
Qed.

(** In Disabled mode every registration a run sends carries the empty
    authority. *)
Lemma updatePortForward_disabled (w : World) (p : option Z) (c : Cloud) :
  forwardingMode (values c) = Disabled ->
  registered_as empty_authority c (snd (updatePortForward w p c)).
Proof.
  intros Hm. unfold updatePortForward. rewrite bind_update.
  set (c0 := with_values (set_upnpPort p) c).
  assert (S0 : registered_as empty_authority c c0)
    by now apply registered_as_same.
  pose proof (resolve_ip_silent w c0) as S1.
  pose proof (framed_resolve_ip w c0) as F1.
  destruct (resolve_ip w c0) as [[ip | e] ci] eqn:R; simpl in S1, F1.
  2:{ rewrite (bind_throw _ _ _ _ _ R). simpl.
      exact (registered_as_trans _ _ _ _ S0 (registered_as_silent _ _ _ S1)). }
  rewrite (bind_ok _ _ _ _ _ R), !bind_read.
  assert (Si : registered_as empty_authority c ci)
    by exact (registered_as_trans _ _ _ _ S0 (registered_as_silent _ _ _ S1)).
  destruct (baseline_changed _ _ _); [| exact Si].
  assert (Hmi : forwardingMode (values ci) = Disabled).
  { rewrite (fr_mode _ _ F1). exact Hm. }
  pose proof (sendRegistrationId_disabled w (w_registrationId w) false ci Hmi)
    as S2.
  destruct (sendRegistrationId w (w_registrationId w) false ci)
    as [[data | e] cs] eqn:S; simpl in S2.
  2:{ rewrite (bind_throw _ _ _ _ _ S). simpl.
      exact (registered_as_trans _ _ _ _ Si S2). }
  rewrite (bind_ok _ _ _ _ _ S).
  assert (Ss : registered_as empty_authority c cs)
    by exact (registered_as_trans _ _ _ _ Si S2).
  destruct (body_error data); [exact Ss |].
  destruct data as [d |].
  - rewrite !bind_read.
    destruct (_ && _ && _); autorewrite with step;
      (eapply registered_as_trans; [exact Ss |]);
      apply registered_as_same; cbn [snd trace with_values with_event];
      [now apply registrations_of_snoc_other | reflexivity].
  - destruct (str_opt_eqb ip (Some "localhost")); simpl; [| exact Ss].
    eapply registered_as_trans; [exact Ss |].
    now apply registered_as_same.
Qed.

(** C6 (amended). In Disabled mode [getAuthority] returns the empty
    authority, without hostname and without port, and [refreshPortForward]
    still goes on to [updatePortForward] (no port check, no UPnP request).
    Whatever registration such a run sends carries that empty authority;
    and it sends exactly one whenever the pair it compares differs from
    the baseline, the plugin is connected and logged in, no Duck DNS pair
    is set and the address resolves, to the tunnel host when a tunnel is
    up and through the relay otherwise. *)
Theorem disabled_mode_authority_and_registration (w : World) (c : Cloud) :
  forwardingMode (values c) = Disabled ->
  let port := Some (chosen_port w (values c)) in
  let c' := snd (refreshPortForward w c) in
  getAuthority c = (Ok empty_authority, c)
  /\ refreshPortForward w c = detached (updatePortForward w port) c
  /\ mappings_of (trace c') = mappings_of (trace c)
  /\ registered_as empty_authority c c'
  /\ (forall ip : option string,
        reaches_relay w port c ip ->
        baseline_changed (values c) (compared_port c port) ip = true ->
        registrations_of (trace c')
        = registrations_of (trace c)
          ++ [registration_query c empty_authority (w_registrationId w) false]).
Proof.
  intros Hm port c'.
  assert (E : refreshPortForward w c = detached (updatePortForward w port) c).
  { unfold refreshPortForward. rewrite bind_read, Hm. reflexivity. }
  split; [| split; [exact E | split; [| split]]].
  - unfold getAuthority. rewrite bind_read, Hm. reflexivity.
  - subst c'. rewrite E.
    unfold detached. pose proof (updatePortForward_mappings w port c) as Mp.
    destruct (updatePortForward w port c) as [[[] | e] c1]; simpl in *;
      [exact Mp |].
    now rewrite mappings_of_snoc.
  - destruct (updatePortForward_disabled w port c Hm) as (sent & Es & Fs).
    exists sent. split; [| exact Fs].
    subst c'. now rewrite E, registrations_of_detached.
  - intros ip R B. subst c'. rewrite E, registrations_of_detached.
    destruct (updatePortForward_registers w port c ip R B) as (a & Ha & ->).
    destruct (getAuthority_port _ a Ha) as (_ & Hd).
    now rewrite (Hd Hm).
Qed.

End DisabledMode.

(** ** Concrete runs of the reachability controller *)

Lemma half_in_unit_interval : (0 <= 1 # 2)%Q /\ (1 # 2 < 1)%Q.
Proof. split; [unfold Qle | unfold Qlt]; simpl; lia. Qed.

(** C3 at work: a fresh installation draws port 50000 from the random
    value one half, maps it to the secure port and persists it. *)
Lemma refreshPortForward_fresh_upnp_port_witness :
  40000 <= random_port (1 # 2) <= 60000
  /\ upnpPort (values (snd (refreshPortForward (H := SimplePlatform.platform)
                              good_world fresh_cloud))) = Some 50000.
Proof.
  destruct (refreshPortForward_fresh_upnp_port
              (H := SimplePlatform.platform) good_world fresh_cloud
              "1" "92.168.1.10" [] eq_refl eq_refl
              (proj1 half_in_unit_interval) (proj2 half_in_unit_interval)
              eq_refl) as (R & _ & P & _).
  split; [exact R | exact (proj1 (P eq_refl))].
Defined.

(** The sum is rounded to a double before [Math.round] sees it: this
    random value gives a sum just below 40000.5 that rounds to 40000.5,
    so the port is 40001. *)
Example random_port_rounds_the_sum :
  random_port (28147497671 # 1125899906842624) = 40001
  /\ Math_round ((28147497671 # 1125899906842624) * inject_Z 20000
                 + inject_Z 40000) = 40000.
Proof. vm_compute. split; reflexivity. Qed.

(** C3 as stated fails: with [Math.random()] at 1 - 2^-20 the port drawn
    is 60000, which the interval should exclude, and the mapping targets
    the secure port 10443 inside, not the port drawn. *)
Lemma refreshPortForward_draws_60000_for_secure_port :
  (0 <= w_random high_random_world)%Q
  /\ (w_random high_random_world < 1)%Q
  /\ forwardingMode (values fresh_cloud) = UPNP
  /\ upnpPort (values fresh_cloud) = None
  /\ exists m,
       mappings_of (trace (snd (refreshPortForward
                                  (H := SimplePlatform.platform)
                                  high_random_world fresh_cloud))) = [m]
       /\ pm_public_port m = 60000
       /\ ~ pm_public_port m < 60000
       /\ pm_private_port m = Some 10443
       /\ pm_private_port m <> Some (pm_public_port m).
Proof.
  split; [unfold Qle; simpl; lia |].
  split; [unfold Qlt; simpl; lia |].
  split; [reflexivity |]. split; [reflexivity |].
  eexists. split; [vm_compute; reflexivity |].
  simpl. split; [reflexivity |]. split; [lia |].
  split; [reflexivity | discriminate].
Qed.

(** C8 at work on a fresh installation. *)
Lemma upnp_mapping_lease_and_renewal_witness :
  exists m,
    mappings_of (trace (snd (refreshPortForward (H := SimplePlatform.platform)
                               good_world fresh_cloud))) = [m]
    /\ pm_ttl m = 1800
    /\ upnpInterval_ms = 1000 * pm_ttl m.
Proof.
  destruct (upnp_mapping_lease_and_renewal
              (H := SimplePlatform.platform) good_world fresh_cloud
              "1" "92.168.1.10" [] eq_refl ltac:(vm_compute; discriminate)
              eq_refl) as ((m & M & T & _ & _ & I) & _).
  exists m. split; [exact M | split; [exact T | exact I]].
Defined.

(** C8 as stated fails: the renewal period is not below the lease. *)
Lemma renewal_period_not_below_lease :
  exists m,
    mappings_of (trace (snd (refreshPortForward (H := SimplePlatform.platform)
                               good_world fresh_cloud))) = [m]
    /\ pm_ttl m = 1800
    /\ ~ upnpInterval_ms < 1000 * pm_ttl m.
Proof.
  eexists. split; [vm_compute; reflexivity |].
  split; [reflexivity |]. vm_compute. discriminate.
Qed.

Lemma fresh_registration_goes_through :
  registration_goes_through (H := SimplePlatform.platform) good_world
    (Some 50000) fresh_cloud (Some "203.0.113.7")
    {| rb_error := None; rb_ip_address := Some "203.0.113.7" |}.
Proof.
  unfold registration_goes_through, reaches_relay. simpl.
  repeat split; intros; discriminate.
Qed.

(** C4 at work: the first run registers, the second one does not; logged
    out, a run registers nothing and persists nothing. *)
Lemma updatePortForward_change_suppression_witness :
  let c1 := snd (updatePortForward (H := SimplePlatform.platform)
                   good_world (Some 50000) fresh_cloud) in
  let c2 := snd (updatePortForward (H := SimplePlatform.platform)
                   good_world (Some 50000) c1) in
  let d1 := snd (updatePortForward (H := SimplePlatform.platform)
                   good_world (Some 50000) logged_out_cloud) in
  length (registrations_of (trace c1)) = 1%nat
  /\ registrations_of (trace c2) = registrations_of (trace c1)
  /\ registrations_of (trace d1) = []
  /\ lastPersistedUpnpPort (values d1) = None
  /\ lastPersistedIp (values d1) = None.
Proof.
  destruct (proj1 (updatePortForward_change_suppression
                     (H := SimplePlatform.platform) good_world (Some 50000)
                     fresh_cloud)
              (Some "203.0.113.7")
              {| rb_error := None; rb_ip_address := Some "203.0.113.7" |}
              ltac:(discriminate) (or_intror eq_refl)
              fresh_registration_goes_through)
    as (L & _ & S).
  destruct (proj2 (updatePortForward_change_suppression
                     (H := SimplePlatform.platform) good_world (Some 50000)
                     logged_out_cloud) (or_introl eq_refl))
    as (R & _ & P & I).
  split; [exact L |]. split; [exact S |].
  split; [exact R |]. split; [exact P | exact I].
Defined.

(** C4 as stated fails: logged out, the pair differs from the baseline in
    both of two consecutive runs and yet no registration reaches the
    relay; each run only posts the login alert. *)
Lemma updatePortForward_logged_out_never_registers :
  let c1 := snd (updatePortForward (H := SimplePlatform.platform)
                   good_world (Some 50000) logged_out_cloud) in
  let c2 := snd (updatePortForward (H := SimplePlatform.platform)
                   good_world (Some 50000) c1) in
  baseline_changed (values logged_out_cloud)
    (compared_port (H := SimplePlatform.platform) logged_out_cloud (Some 50000))
    (Some "203.0.113.7") = true
  /\ baseline_changed (values c1)
       (compared_port (H := SimplePlatform.platform) c1 (Some 50000))
       (Some "203.0.113.7") = true
  /\ registrations_of (trace c2) = []
  /\ alerts_of (trace c2) = [login_error; login_error].
Proof. vm_compute. repeat split. Qed.

(** With a tunnel host the port compared is 443 while the port persisted
    is the authority's: the pair differs again on the next run, which
    registers a second time. *)
Example updatePortForward_with_tunnel_registers_again :
  let c1 := snd (updatePortForward (H := SimplePlatform.platform)
                   good_world (Some 50000) quick_tunnel_cloud) in
  let c2 := snd (updatePortForward (H := SimplePlatform.platform)
                   good_world (Some 50000) c1) in
  length (registrations_of (trace c1)) = 1%nat
  /\ lastPersistedUpnpPort (values c1) = Some 50000
  /\ compared_port (H := SimplePlatform.platform) c1 (Some 50000) = Some 443
  /\ length (registrations_of (trace c2)) = 2%nat.
Proof. vm_compute. repeat split. Qed.

(** C6 at work: a Disabled server with the tunnel up registers the empty
    authority, once. *)
Lemma disabled_mode_authority_and_registration_witness :
  getAuthority disabled_tunnel_cloud = (Ok empty_authority, disabled_tunnel_cloud)
  /\ registrations_of
       (trace (snd (refreshPortForward (H := SimplePlatform.platform)
                      good_world disabled_tunnel_cloud)))
     = [registration_query disabled_tunnel_cloud empty_authority
          "fcm-registration" false].
Proof.
  destruct (disabled_mode_authority_and_registration
              (H := SimplePlatform.platform) good_world disabled_tunnel_cloud
              eq_refl) as (A & _ & _ & _ & R).
  split; [exact A |].
  apply (R (Some "abc.trycloudflare.com")); [| reflexivity].
  unfold reaches_relay. simpl. repeat split; intros; discriminate.
Defined.

(** C6 as stated fails: in Disabled mode the authority has no port at
    all, so its port is neither the secure port nor the persisted one. *)
Lemma disabled_authority_has_no_port :
  forwardingMode (values disabled_cloud) = Disabled
  /\ securePort disabled_cloud = Some 10443
  /\ exists a,
       getAuthority disabled_cloud = (Ok a, disabled_cloud)
       /\ a_port a = None
       /\ a_port a <> securePort disabled_cloud
       /\ a_port a <> securePortSetting (values disabled_cloud)
       /\ a_port a <> upnpPort (values disabled_cloud).
Proof.
  split; [reflexivity |]. split; [reflexivity |].
  exists empty_authority. repeat split; discriminate.
Qed.

(** C7 at work: the toggle switched off yields the error object and
    leaves the state, alerts included, as it was. *)
Lemma sendRegistrationId_outcomes_witness :
  sendRegistrationId (H := SimplePlatform.platform) good_world
    "fcm-registration" false disconnected_cloud
  = (Ok (error_body (disabled_error (H := SimplePlatform.platform))),
     disconnected_cloud).
Proof.
  apply (proj1 (proj2 (sendRegistrationId_outcomes
                         (H := SimplePlatform.platform) good_world
                         "fcm-registration" false disconnected_cloud)
                 _ eq_refl)).
  reflexivity.
Defined.

(** C7 as stated fails twice: a custom domain without hostname makes
    [sendRegistrationId] throw, and the switched-off toggle returns its
    error object without posting any alert. *)
Lemma sendRegistrationId_throws_and_stays_silent :
  (exists e c',
     sendRegistrationId (H := SimplePlatform.platform) good_world
       "fcm-registration" false nameless_custom_cloud = (Throw e, c'))
  /\ exists r c',
       sendRegistrationId (H := SimplePlatform.platform) good_world
         "fcm-registration" false disconnected_cloud = (Ok r, c')
       /\ body_error r <> None
       /\ alerts_of (trace c') = [].
Proof.
  split.
  - eexists _, _. vm_compute. reflexivity.
  - eexists _, _. split; [vm_compute; reflexivity |].
    split; [discriminate | reflexivity].
Qed.

(** ** Callback rate limit *)

Section Callback.
Context `{Platform}.

(** C10. A handled callback records a timestamp and dials the relay; any
    callback read less than 5000 ms after that timestamp changes nothing:
    no dial to the relay, no reverse connection, no new timestamp; and the
    first callback after startup is handled (the clock reads at least
    5000 ms since 1970). *)
Theorem callback_rate_limit (now now' : Z) (rid : string)
    (address : option string) (s : Punch) :
  (backoff s + 5000 <= now ->
     let s1 := on_message now now' rid (CallbackMessage address) s in
     backoff s1 = now'
     /\ callback_dials s1 = callback_dials s ++ [callback_target rid address]
     /\ forall t t' rid2 address2,
          t < now' + 5000 ->
          on_message t t' rid2 (CallbackMessage address2) s1 = s1)
  /\ (now < backoff s + 5000 ->
      on_message now now' rid (CallbackMessage address) s = s)
  /\ (5000 <= now ->
      callback_dials
        (on_message now now' rid (CallbackMessage address) initial_punch)
      = [callback_target rid address]).
Proof.
  split; [| split].
  - intros Hn. simpl. destruct (Z.ltb_spec now (backoff s + 5000)); [lia |].
    simpl. split; [reflexivity |]. split; [reflexivity |].
    intros t t' rid2 address2 Ht.
    destruct (Z.ltb_spec t (now' + 5000)); [reflexivity | lia].
  - intros Hn. simpl.
    destruct (Z.ltb_spec now (backoff s + 5000)); [reflexivity | lia].
  - intros Hn. simpl. destruct (Z.ltb_spec now (0 + 5000)); [lia |].
    reflexivity.
Qed.

End Callback.

(** C10 at work: the first callback of a run is answered, one that comes
    3 seconds later is not. *)
Lemma callback_rate_limit_witness :
  let s1 := on_message (H := SimplePlatform.platform) 1700000000000
              1700000000001 "fcm-registration"
              (CallbackMessage (Some "relay.example.com:4001")) initial_punch in
  callback_dials s1
  = [callback_target (H := SimplePlatform.platform) "fcm-registration"
       (Some "relay.example.com:4001")]
  /\ on_message (H := SimplePlatform.platform) 1700000003000 1700000003000
       "fcm-registration" (CallbackMessage None) s1 = s1.
Proof.
  pose proof (callback_rate_limit (H := SimplePlatform.platform)
                1700000000000 1700000000001 "fcm-registration"
                (Some "relay.example.com:4001") initial_punch)
    as (Hh & _ & Hf).
  split.
  - apply Hf. lia.
  - destruct (Hh ltac:(simpl; lia)) as (_ & _ & Hd). apply Hd. lia.
Defined.

(** ** The reverse connection pool *)

Lemma createReverseConnection_wf (tgt : Target) (p : Pool) :
  pool_wf p -> pool_wf (createReverseConnection tgt p).
Proof.
  intros [Hs Hc]. split; simpl; intros n Hn.
  - apply elem_of_union in Hn as [Hn%elem_of_singleton | Hn];
      [lia | apply Hs in Hn; lia].
  - destruct (decide (n = created p)) as [-> | Hne]; [lia |].
    rewrite lookup_insert_ne in Hn by congruence. apply Hc in Hn. lia.
Qed.

Lemma createReverseConnection_size (tgt : Target) (p : Pool) :
  pool_wf p ->
  size (reverseConnections (createReverseConnection tgt p))
  = S (size (reverseConnections p)).
Proof.
  intros [Hs _]. simpl. rewrite size_union, size_singleton; [reflexivity |].
  intros n Hn%elem_of_singleton Hp. subst n. apply Hs in Hp. lia.
Qed.

(** The loop stops because the pool is full, not because it ran out of
    steps: it creates exactly the missing connections. *)
Lemma ensure_loop_spec (fuel : nat) (tgt : Target) (p : Pool) :
  pool_wf p ->
  (10 <= fuel + size (reverseConnections p))%nat ->
  let p' := ensure_loop fuel tgt p in
  pool_wf p'
  /\ size (reverseConnections p') = Nat.max 10 (size (reverseConnections p))
  /\ created p' = (created p + (10 - size (reverseConnections p)))%nat
  /\ reverseConnections p ⊆ reverseConnections p'
  /\ (forall n, (n < created p)%nat -> closures p' !! n = closures p !! n).
Proof.
  assert (Hdone : forall q : Pool,
            pool_wf q -> (10 <= size (reverseConnections q))%nat ->
            pool_wf q
            /\ size (reverseConnections q)
               = Nat.max 10 (size (reverseConnections q))
            /\ created q = (created q + (10 - size (reverseConnections q)))%nat
            /\ reverseConnections q ⊆ reverseConnections q
            /\ (forall n, (n < created q)%nat ->
                  closures q !! n = closures q !! n)).
  { intros q Hq Hs. split; [exact Hq |]. split; [lia |]. split; [lia |].
    split; [reflexivity | reflexivity]. }
  revert p. induction fuel as [| fuel IH]; intros p Hwf Hf; simpl in *.
  - now apply Hdone.
  - destruct (decide (size (reverseConnections p) < 10)%nat) as [Hlt | Hge].
    + pose proof (createReverseConnection_wf tgt p Hwf) as Hwf'.
      pose proof (createReverseConnection_size tgt p Hwf) as Hsz.
      destruct (IH (createReverseConnection tgt p) Hwf' ltac:(lia))
        as (W & S1 & C1 & I1 & L1).
      rewrite Hsz in S1, C1.
      change (created (createReverseConnection tgt p)) with (S (created p))
        in C1.
      split; [exact W |]. split; [lia |]. split; [lia |].
      split.
      * etransitivity; [| exact I1]. simpl. apply union_subseteq_r.
      * intros n Hn. rewrite L1 by (simpl; lia). simpl.
        apply lookup_insert_ne. lia.
    + apply Hdone; [exact Hwf | lia].
Qed.

Lemma ensureReverseConnections_spec (tgt : Target) (p : Pool) :
  pool_wf p ->
  let p' := ensureReverseConnections tgt p in
  pool_wf p'
  /\ size (reverseConnections p') = Nat.max 10 (size (reverseConnections p))
  /\ created p' = (created p + (10 - size (reverseConnections p)))%nat
  /\ reverseConnections p ⊆ reverseConnections p'
  /\ (forall n, (n < created p)%nat -> closures p' !! n = closures p !! n).
Proof. intros Hwf. apply ensure_loop_spec; [exact Hwf | lia]. Qed.

(** More steps than needed change nothing. *)
Lemma ensure_loop_enough (fuel : nat) (tgt : Target) (p : Pool) :
  pool_wf p ->
  (10 <= fuel + size (reverseConnections p))%nat ->
  ensure_loop (S fuel) tgt p = ensure_loop fuel tgt p.
Proof.
  revert p. induction fuel as [| fuel IH]; intros p Hwf Hf.
  - simpl. destruct (decide _); [simpl in Hf; lia | reflexivity].
  - change (ensure_loop (S (S fuel)) tgt p)
      with (if decide (size (reverseConnections p) < 10)%nat
            then ensure_loop (S fuel) tgt (createReverseConnection tgt p)
            else p).
    change (ensure_loop (S fuel) tgt p)
      with (if decide (size (reverseConnections p) < 10)%nat
            then ensure_loop fuel tgt (createReverseConnection tgt p)
            else p).
    destruct (decide _); [| reflexivity].
    apply IH; [now apply createReverseConnection_wf |].
    rewrite createReverseConnection_size by exact Hwf. lia.
Qed.

Lemma socket_claimed_wf (n : nat) (p : Pool) : pool_wf p -> pool_wf (socket_claimed n p).
Proof.
  intros [Hs Hc]. split; simpl; [exact Hs |].
  intros m Hm. apply Hc. rewrite lookup_alter in Hm.
  destruct (decide (n = m)); [| exact Hm].
  subst. destruct (closures p !! m); [eauto | now destruct Hm].
Qed.

Lemma remove_wf (n : nat) (p : Pool) :
  pool_wf p ->
  pool_wf {| reverseConnections := reverseConnections p ∖ {[n]};
             closures := closures p; created := created p |}.
Proof.
  intros [Hs Hc]. split; simpl; [| exact Hc].
  intros m Hm. apply Hs. now apply elem_of_difference in Hm as [Hm _].
Qed.

Lemma socket_closed_wf (n : nat) (p : Pool) : pool_wf p -> pool_wf (socket_closed n p).
Proof.
  intros Hwf. unfold socket_closed.
  destruct (closures p !! n) as [cl|]; [| exact Hwf].
  destruct (cl_claimed cl); [| now apply remove_wf].
  apply ensureReverseConnections_spec. now apply remove_wf.
Qed.

Lemma pool_step_wf (e : pool_event) (p : Pool) : pool_wf p -> pool_wf (pool_step e p).
Proof.
  intros Hwf. destruct e; simpl.
  - now apply ensureReverseConnections_spec.
  - now apply socket_claimed_wf.
  - now apply socket_closed_wf.
Qed.

Lemma empty_pool_wf : pool_wf empty_pool.
Proof.
  split; simpl; intros n Hn; [now apply not_elem_of_empty in Hn |].
  rewrite lookup_empty in Hn. now destruct Hn.
Qed.

Lemma pool_run_snoc (es : list pool_event) (e : pool_event) (p : Pool) :
  pool_run (es ++ [e]) p = pool_step e (pool_run es p).
Proof. unfold pool_run. now rewrite fold_left_app. Qed.

(** Every pool the plugin can reach is well formed and never holds more
    than 10 connections. *)
Lemma pool_run_invariant (es : list pool_event) :
  let p := pool_run es empty_pool in
  pool_wf p /\ (size (reverseConnections p) <= 10)%nat.
Proof.
  induction es as [| e es IH] using rev_ind; simpl.
  - split; [apply empty_pool_wf |].
    change (size (∅ : gset nat) <= 10)%nat. rewrite size_empty. lia.
  - rewrite pool_run_snoc. destruct IH as [Hwf Hsz].
    split; [now apply pool_step_wf |].
    set (p := pool_run es empty_pool) in *.
    destruct e as [tgt | n | n]; simpl.
    + destruct (ensureReverseConnections_spec tgt p Hwf) as (_ & -> & _). lia.
    + exact Hsz.
    + unfold socket_closed. destruct (closures p !! n) as [cl|]; [| exact Hsz].
      assert (Hr : (size (reverseConnections p ∖ {[n]}) <= 10)%nat).
      { etransitivity; [| exact Hsz]. apply subseteq_size.
        now apply subseteq_difference_l. }
      destruct (cl_claimed cl); [| exact Hr].
      destruct (ensureReverseConnections_spec (cl_target cl) _
                  (remove_wf n p Hwf)) as (_ & -> & _).
      simpl. lia.
Qed.

(** C2 (amended). In any pool the plugin can reach, a socket that closes
    leaves the pool, and nothing but its own close removes a socket. If it
    was never claimed, nothing else happens: no
    replacement is created and the pool may stay below 10. If it had been
    claimed, the pool is topped up at once to exactly 10 connections, by
    creating as many connections as are missing (one or more). The pool
    never holds more than 10 connections. *)
Theorem reverse_pool_close (es : list pool_event) (n : nat) (cl : Closure) :
  let p := pool_run es empty_pool in
  closures p !! n = Some cl ->
  let p' := socket_closed n p in
  (n ∉ reverseConnections p')
  /\ (size (reverseConnections p') <= 10)%nat
  /\ (cl_claimed cl = false ->
      reverseConnections p' = reverseConnections p ∖ {[n]}
      /\ created p' = created p)
  /\ (cl_claimed cl = true ->
      reverseConnections p ∖ {[n]} ⊆ reverseConnections p'
      /\ size (reverseConnections p') = 10%nat
      /\ created p'
         = (created p + (10 - size (reverseConnections p ∖ {[n]})))%nat)
  /\ (forall e m, m ∈ reverseConnections p ->
        m ∉ reverseConnections (pool_step e p) -> e = Closed m).
Proof.
  intros p Hcl p'.
  destruct (pool_run_invariant es) as [Hwf Hsz]. fold p in Hwf, Hsz.
  assert (Hkeep : forall k m, m ∈ reverseConnections p -> m <> k ->
                    m ∈ reverseConnections (socket_closed k p)).
  { intros k m Hm Hne. unfold socket_closed.
    destruct (closures p !! k) as [clk|]; [| exact Hm].
    assert (Hk : m ∈ reverseConnections p ∖ {[k]}).
    { apply elem_of_difference. split; [exact Hm |].
      now intros ->%elem_of_singleton. }
    destruct (cl_claimed clk); [| exact Hk].
    destruct (ensureReverseConnections_spec (cl_target clk) _
                (remove_wf k p Hwf)) as (_ & _ & _ & I1 & _).
    now apply I1. }
  assert (Honly : forall e m, m ∈ reverseConnections p ->
                    m ∉ reverseConnections (pool_step e p) -> e = Closed m).
  { intros [tgt | k | k] m Hm Hout; simpl in Hout.
    - destruct (ensureReverseConnections_spec tgt p Hwf)
        as (_ & _ & _ & I1 & _).
      exfalso. apply Hout. now apply I1.
    - contradiction.
    - destruct (decide (m = k)) as [-> | Hne]; [reflexivity |].
      exfalso. apply Hout. now apply Hkeep. }
  assert (Hn : (n < created p)%nat) by (apply Hwf; eauto).
  assert (Hr : (size (reverseConnections p ∖ {[n]}) <= 10)%nat).
  { etransitivity; [| exact Hsz]. apply subseteq_size.
    now apply subseteq_difference_l. }
  assert (Hgone : n ∉ reverseConnections p ∖ {[n]}).
  { intros [_ Hin]%elem_of_difference. apply Hin. now apply elem_of_singleton. }
  subst p'. unfold socket_closed. rewrite Hcl.
  destruct (cl_claimed cl) eqn:C.
  - destruct (ensureReverseConnections_spec (cl_target cl) _
                (remove_wf n p Hwf)) as (W & S1 & C1 & I1 & _).
    simpl in *.
    set (q := ensureReverseConnections (cl_target cl) _) in *.
    assert (Hnew : forall m, m ∈ reverseConnections q ->
                     m ∈ reverseConnections p ∖ {[n]} \/ (created p <= m)%nat).
    { clear -Hwf. subst q. unfold ensureReverseConnections.
      generalize 10%nat as fuel.
      set (r := {| reverseConnections := reverseConnections p ∖ {[n]};
                   closures := closures p; created := created p |}).
      assert (Hc : (created p <= created r)%nat) by (simpl; lia).
      assert (Hi : forall m, m ∈ reverseConnections r ->
                     m ∈ reverseConnections p ∖ {[n]} \/ (created p <= m)%nat)
        by (intros m Hm; left; exact Hm).
      clearbody r. intros fuel. revert r Hc Hi.
      induction fuel as [| fuel IH]; intros r Hc Hi m; simpl; [apply Hi |].
      destruct (decide _); [| apply Hi].
      apply IH; simpl; [lia |].
      intros k Hk. apply elem_of_union in Hk as [Hk%elem_of_singleton | Hk];
        [right; lia | now apply Hi]. }
    split; [| split; [lia | split; [discriminate | split; [intros _ |]]]].
    + intros Hin. apply Hnew in Hin as [Hin | Hin]; [now apply Hgone | lia].
    + split; [exact I1 | split; [lia | exact C1]].
    + exact Honly.
  - simpl. split; [exact Hgone |]. split; [exact Hr |].
    split; [intros _; split; reflexivity |].
    split; [discriminate | exact Honly].
Qed.

(** C2 at work: a claimed socket that closes is replaced. *)
Lemma reverse_pool_close_witness :
  let p := pool_run [Ensure sample_target; Claimed 3%nat] empty_pool in
  size (reverseConnections (socket_closed 3 p)) = 10%nat
  /\ created (socket_closed 3 p) = 11%nat.
Proof.
  destruct (reverse_pool_close [Ensure sample_target; Claimed 3%nat] 3%nat
              {| cl_target := sample_target; cl_claimed := true |}
              ltac:(vm_compute; reflexivity)) as (_ & _ & _ & Hc & _).
  destruct (Hc eq_refl) as (_ & S1 & C1).
  split; [exact S1 | exact C1].
Defined.

(** C2 as stated fails: of ten pooled sockets, none claimed, one closes;
    it is removed, no replacement is attempted, and the pool stays at nine
    with nothing in flight. *)
Lemma unclaimed_close_is_not_replaced :
  let p := pool_run [Ensure sample_target] empty_pool in
  let p' := pool_step (Closed 0) p in
  size (reverseConnections p) = 10%nat
  /\ closures p !! 0%nat = Some {| cl_target := sample_target;
                                   cl_claimed := false |}
  /\ size (reverseConnections p') = 9%nat
  /\ created p' = created p
  /\ (size (reverseConnections p') < 10)%nat.
Proof. vm_compute. repeat split. lia. Qed.

(** ** The whitelist cache *)

Section Whitelist.
Context `{Platform}.

(** A call run without interruption, written out. *)
Lemma whitelist_unfold (w : World) (localUrl : string) (ttl : Z)
    (baseUrl : string) (c : Cloud) :
  whitelist w localUrl ttl baseUrl c
  = match URL_pathname localUrl with
    | None => throw "TypeError: Invalid URL"
    | Some pathname =>
        ssl <- read getSSLHostname ;;
        match ssl with
        | Some _ => ret (baseUrl ++ pathname)%string
        | None =>
            cache <- read whitelisted ;;
            match cache !! pathname with
            | Some url => ret url
            | None =>
                v <- read values ;;
                match token_info v with
                | Some (String a t) =>
                    host <- read getHostname ;;
                    emit (HttpScope host pathname ttl (String a t)) ;;;
                    scope <- await (w_scope w) ;;
                    let tokens :=
                      qsstringify
                        [("user_token", userToken scope);
                         ("user_token_signature", userTokenSignature scope)] in
                    let url := (baseUrl ++ pathname ++ "?" ++ tokens)%string in
                    update (with_whitelisted <[pathname := url]>) ;;;
                    ret url
                | _ => throw not_logged_in
                end
            end
        end
    end c.
Proof.
  unfold whitelist, finish, whitelist_start, whitelist_resume.
  destruct (URL_pathname localUrl) as [p |]; [| reflexivity].
  unfold bind at 1. rewrite !bind_read.
  destruct (getSSLHostname c); [reflexivity |].
  rewrite !bind_read. destruct (whitelisted c !! p); [reflexivity |].
  rewrite !bind_read. destruct (token_info (values c)) as [[| a t] |];
    reflexivity.
Qed.

Lemma convert_unfold (w : World) (data toMimeType : string) (c : Cloud) :
  convert w data toMimeType c
  = (v <- read values ;;
     tunnel <- read cloudflareTunnel ;;
     if truthy_str tunnel && negb (mode_eqb (forwardingMode v) CustomDomain)
        && mime_short_lived toMimeType
     then
       host <- read cloudflareTunnelHost ;;
       ret (URL_rehost data (show_str tunnel) (show_str host))
     else
       host <- read getHostname ;;
       whitelist w data TEN_YEARS_MS ("https://" ++ host)%string) c.
Proof.
  unfold convert, whitelist, finish, convert_start.
  unfold bind at 1. rewrite !bind_read.
  destruct (_ && _ && _); rewrite !bind_read; reflexivity.
Qed.

Lemma push_convert_unfold (w : World) (data : string) (c : Cloud) :
  push_convert w data c
  = (ssl <- read getSSLHostname ;;
     match ssl with
     | Some validDomain =>
         ret ("https://" ++ validDomain ++ w_cloudMessagePath w ++ "/" ++ data)%string
     | None =>
         host <- read getHostname ;;
         whitelist w ("http://127.0.0.1/push/" ++ data)%string TEN_YEARS_MS
           ("https://" ++ host ++ SCRYPTED_CLOUD_MESSAGE_PATH)%string
     end) c.
Proof.
  unfold push_convert, whitelist, finish, push_convert_start.
  unfold bind at 1. rewrite !bind_read.
  destruct (getSSLHostname c); rewrite ?bind_read; reflexivity.
Qed.

(** A cached path is answered from the cache: no state change, hence no
    relay call. *)
Lemma whitelist_cached (w : World) (localUrl : string) (ttl : Z)
    (baseUrl p url : string) (c : Cloud) :
  URL_pathname localUrl = Some p ->
  getSSLHostname c = None ->
  whitelisted c !! p = Some url ->
  whitelist w localUrl ttl baseUrl c = (Ok url, c).
Proof.
  intros Hp Hs Hc. rewrite whitelist_unfold, Hp.
  rewrite bind_read, Hs, bind_read, Hc. reflexivity.
Qed.

(** A successful call leaves its answer in the cache. *)
Lemma whitelist_caches (w : World) (localUrl : string) (ttl : Z)
    (baseUrl p url : string) (c c1 : Cloud) :
  URL_pathname localUrl = Some p ->
  getSSLHostname c = None ->
  whitelist w localUrl ttl baseUrl c = (Ok url, c1) ->
  whitelisted c1 !! p = Some url.
Proof.
  intros Hp Hs. rewrite whitelist_unfold, Hp.
  rewrite bind_read, Hs, bind_read.
  destruct (whitelisted c !! p) as [u|] eqn:Hc.
  - intros [= <- <-]. exact Hc.
  - rewrite bind_read. destruct (token_info (values c)) as [[|a t]|];
      try discriminate.
    rewrite bind_read, bind_emit. unfold bind at 1. unfold await.
    destruct (w_scope w) as [scope | e]; [| discriminate].
    rewrite bind_update. intros [= <- <-]. simpl. apply lookup_insert_eq.
Qed.

(** A call run without interruption only adds to the cache. *)
Lemma whitelist_cache_grows (w : World) (localUrl : string) (ttl : Z)
    (baseUrl : string) (c : Cloud) :
  whitelisted c ⊆ whitelisted (snd (whitelist w localUrl ttl baseUrl c)).
Proof.
  rewrite whitelist_unfold.
  destruct (URL_pathname localUrl) as [p|]; [| reflexivity].
  rewrite bind_read. destruct (getSSLHostname c); [reflexivity |].
  rewrite bind_read. destruct (whitelisted c !! p) eqn:Hc; [reflexivity |].
  rewrite bind_read. destruct (token_info (values c)) as [[|a t]|];
    try reflexivity.
  rewrite bind_read, bind_emit. unfold bind at 1. unfold await.
  destruct (w_scope w) as [scope | e]; [| reflexivity].
  rewrite bind_update. simpl. now apply insert_subseteq.
Qed.

Lemma run_conversion_cache_grows (w : World) (k : conversion) (c : Cloud) :
  whitelisted c ⊆ whitelisted (snd (run_conversion w k c)).
Proof.
  destruct k as [localUrl ttl baseUrl | data toMimeType | data]; simpl.
  - apply whitelist_cache_grows.
  - rewrite convert_unfold, !bind_read.
    destruct (_ && _ && _); [reflexivity |].
    rewrite bind_read. apply whitelist_cache_grows.
  - rewrite push_convert_unfold, bind_read.
    destruct (getSSLHostname c); [reflexivity |].
    rewrite bind_read. apply whitelist_cache_grows.
Qed.

(** *** Calls that overlap *)

(** Up to its await a call writes nothing into the cache, and it waits
    for the relay only for a path the cache does not hold. *)
Lemma whitelist_start_cache (localUrl : string) (ttl : Z) (baseUrl : string)
    (c : Cloud) :
  whitelisted (snd (whitelist_start localUrl ttl baseUrl c)) = whitelisted c
  /\ forall x, fst (whitelist_start localUrl ttl baseUrl c) = Ok (inr x) ->
               whitelisted c !! s_pathname x = None.
Proof.
  unfold whitelist_start.
  destruct (URL_pathname localUrl) as [p|]; [| split; [reflexivity | discriminate]].
  rewrite bind_read. destruct (getSSLHostname c);
    [split; [reflexivity | discriminate] |].
  rewrite bind_read. destruct (whitelisted c !! p) eqn:Hc;
    [split; [reflexivity | discriminate] |].
  rewrite bind_read. destruct (token_info (values c)) as [[|a t]|];
    try (split; [reflexivity | discriminate]).
  rewrite bind_read, bind_emit. split; [reflexivity |].
  intros x [= <-]. exact Hc.
Qed.

Lemma conversion_start_cache (w : World) (k : conversion) (c : Cloud) :
  whitelisted (snd (conversion_start w k c)) = whitelisted c
  /\ forall x, fst (conversion_start w k c) = Ok (inr x) ->
               whitelisted c !! s_pathname x = None.
Proof.
  destruct k as [localUrl ttl baseUrl | data toMimeType | data]; simpl.
  - apply whitelist_start_cache.
  - unfold convert_start. rewrite !bind_read.
    destruct (_ && _ && _); rewrite bind_read;
      [split; [reflexivity | discriminate] |].
    apply whitelist_start_cache.
  - unfold push_convert_start. rewrite bind_read.
    destruct (getSSLHostname c); [split; [reflexivity | discriminate] |].
    rewrite bind_read. apply whitelist_start_cache.
Qed.

(** With the path in the cache a conversion returns at once. *)
Lemma conversion_start_cached (w : World) (k : conversion) (p url : string)
    (c : Cloud) :
  getSSLHostname c = None ->
  URL_pathname (conversion_url k) = Some p ->
  takes_short_lived_branch c k = false ->
  whitelisted c !! p = Some url ->
  conversion_start w k c = (Ok (inl url), c).
Proof.
  intros Hs Hk Hb Hc.
  assert (W : forall l t b, URL_pathname l = Some p ->
                whitelist_start l t b c = (Ok (inl url), c)).
  { intros l t b Hl. unfold whitelist_start.
    now rewrite Hl, bind_read, Hs, bind_read, Hc. }
  destruct k as [lu t b | data toMimeType | data]; simpl in *.
  - now apply W.
  - unfold convert_start. rewrite !bind_read, Hb, bind_read. now apply W.
  - unfold push_convert_start. rewrite bind_read, Hs, bind_read. now apply W.
Qed.

Lemma run_conversion_finish (w : World) (k : conversion) (c : Cloud) :
  run_conversion w k c = finish w (conversion_start w k) c.
Proof. now destruct k. Qed.

(** The response writes the entry of its own path, and no other. *)
Lemma whitelist_resume_cache (x : Suspended) (response : result ScopeBody)
    (p : string) (c : Cloud) :
  s_pathname x <> p ->
  whitelisted (snd (whitelist_resume x response c)) !! p = whitelisted c !! p.
Proof.
  intros Hne. unfold whitelist_resume, bind at 1, await.
  destruct response as [scope | e]; [| reflexivity].
  rewrite bind_update. simpl. now apply lookup_insert_ne.
Qed.

Lemma happen_settled (w : World) (e : Happening) (p url : string)
    (s : Process) :
  settled p url s -> settled p url (happen w e s).
Proof.
  intros (Hc & Hq). destruct e as [k | i response | v tunnel]; simpl.
  - unfold start_call.
    destruct (conversion_start_cache w k (plugin s)) as (Hw & Hx).
    destruct (conversion_start w k (plugin s)) as [r c];
      cbn [fst snd] in *.
    split; cbn [plugin awaiting]; [now rewrite Hw |].
    destruct r as [[u | x] | err]; try exact Hq.
    apply Forall_app. split; [exact Hq |]. constructor; [| constructor].
    intros E. specialize (Hx x eq_refl). rewrite E in Hx. congruence.
  - unfold respond. destruct (awaiting s !! i) as [x |] eqn:Hi;
      [| split; assumption].
    assert (Hne : s_pathname x <> p).
    { exact (proj1 (Forall_lookup _ _) Hq i x Hi). }
    pose proof (whitelist_resume_cache x response p (plugin s) Hne) as Hr.
    destruct (whitelist_resume x response (plugin s)) as [r c];
      cbn [fst snd] in *.
    split; cbn [plugin awaiting]; [now rewrite Hr | now apply Forall_delete].
  - split; assumption.
Qed.

Lemma happen_all_settled (w : World) (es : list Happening) (p url : string)
    (s : Process) :
  settled p url s -> settled p url (happen_all w es s).
Proof.
  revert s. induction es as [| e es IH]; intros s Hs; [exact Hs |].
  simpl. apply IH. now apply happen_settled.
Qed.

(** C9 (amended). With no TLS-verified hostname, once a [whitelist] call
    for a path has succeeded while no other call for that path is waiting
    for the relay (be it the response to a waiting call that completes
    it, or a call run without interruption), the cache holds its URL for
    good: whatever conversions are called, whatever responses arrive to
    waiting calls and however the settings change afterwards, the entry is
    neither removed nor overwritten, and every later [whitelist] call,
    push conversion and [convert] call that does not take the short-lived
    tunnel branch, for a URL with the same path, returns the very same URL
    at once and leaves the state untouched, so no relay scope call is
    made. *)
Theorem whitelist_cache_round_trip (w : World) (p : string) :
  (forall (s : Process) (i : nat) (x : Suspended) (scope : ScopeBody),
     awaiting s !! i = Some x ->
     s_pathname x = p ->
     Forall (fun y => s_pathname y <> p) (delete i (awaiting s)) ->
     exists url,
       fst (respond i (Ok scope) s) = Some (Ok url)
       /\ settled p url (snd (respond i (Ok scope) s)))
  /\ (forall (s : Process) (localUrl : string) (ttl : Z) (baseUrl url : string)
        (c1 : Cloud),
        URL_pathname localUrl = Some p ->
        getSSLHostname (plugin s) = None ->
        Forall (fun y => s_pathname y <> p) (awaiting s) ->
        whitelist w localUrl ttl baseUrl (plugin s) = (Ok url, c1) ->
        settled p url {| plugin := c1; awaiting := awaiting s |})
  /\ (forall (url : string) (s : Process) (es : list Happening),
        settled p url s ->
        let s' := happen_all w es s in
        whitelisted (plugin s') !! p = Some url
        /\ forall k : conversion,
             getSSLHostname (plugin s') = None ->
             URL_pathname (conversion_url k) = Some p ->
             takes_short_lived_branch (plugin s') k = false ->
             start_call w k s' = (Ok (inl url), s')
             /\ run_conversion w k (plugin s') = (Ok url, plugin s')
             /\ scope_calls_of (trace (snd (run_conversion w k (plugin s'))))
                = scope_calls_of (trace (plugin s'))).
Proof.
  split; [| split].
  - intros s i x scope Hi Hx Hq. unfold respond. rewrite Hi.
    unfold whitelist_resume, bind at 1, await. rewrite bind_update.
    eexists. split; [reflexivity |]. split; [| exact Hq].
    simpl. rewrite Hx. apply lookup_insert_eq.
  - intros s localUrl ttl baseUrl url c1 Hp Hs Hq Hw. split; [| exact Hq].
    simpl. exact (whitelist_caches _ _ _ _ _ _ _ _ Hp Hs Hw).
  - intros url s es Hst s'.
    destruct (happen_all_settled w es p url s Hst) as (Hc & Hq).
    fold s' in Hc, Hq. split; [exact Hc |].
    intros k Hs Hk Hb.
    pose proof (conversion_start_cached w k p url (plugin s') Hs Hk Hb Hc) as E.
    assert (R : run_conversion w k (plugin s') = (Ok url, plugin s')).
    { rewrite run_conversion_finish. unfold finish.
      now rewrite (bind_ok _ _ _ _ _ E). }
    split; [| split; [exact R | now rewrite R]].
    unfold start_call. rewrite E. now destruct s'.
Qed.

End Whitelist.

(** The state after a first conversion of the sample URL has been called
    and, while it waits, a conversion of another URL. *)
Lemma two_calls_waiting :
  awaiting (happen_all (H := SimplePlatform.platform) good_world
              [Start (CallConvert sample_local_url "text/plain");
               Start (CallPushConvert "abc")]
              {| plugin := fresh_cloud; awaiting := [] |})
  = [{| s_pathname := "/endpoint/@scrypted/core/public/";
        s_baseUrl := "https://home.scrypted.app" |};
     {| s_pathname := "/push/abc";
        s_baseUrl := "https://home.scrypted.app/_punch/cloudmessage" |}].
Proof. vm_compute. reflexivity. Qed.

(** C9 at work: the relay answers the first of two waiting calls; after
    the other answer and a further call, a conversion of the same URL is
    answered from the cache. *)
Lemma whitelist_cache_round_trip_witness :
  let s := happen_all (H := SimplePlatform.platform) good_world
             [Start (CallConvert sample_local_url "text/plain");
              Start (CallPushConvert "abc")]
             {| plugin := fresh_cloud; awaiting := [] |} in
  let scope := {| userToken := Some "ut"; userTokenSignature := Some "sig" |} in
  let s' := happen_all (H := SimplePlatform.platform) good_world
              [Respond 0 (Ok scope); Start (CallPushConvert "def")]
              (snd (respond (H := SimplePlatform.platform) 0 (Ok scope) s)) in
  exists url,
    fst (respond (H := SimplePlatform.platform) 0 (Ok scope) s) = Some (Ok url)
    /\ start_call (H := SimplePlatform.platform) good_world
         (CallConvert sample_local_url "text/plain") s'
       = (Ok (inl url), s').
Proof.
  intros s scope s'.
  pose proof (whitelist_cache_round_trip (H := SimplePlatform.platform)
                good_world "/endpoint/@scrypted/core/public/")
    as (First & _ & Later).
  destruct (First s 0%nat
              {| s_pathname := "/endpoint/@scrypted/core/public/";
                 s_baseUrl := "https://home.scrypted.app" |}
              scope ltac:(vm_compute; reflexivity) eq_refl
              ltac:(vm_compute; repeat constructor; discriminate))
    as (url & R & St).
  exists url. split; [exact R |].
  destruct (Later url _ [Respond 0 (Ok scope); Start (CallPushConvert "def")] St)
    as (_ & L).
  exact (proj1 (L (CallConvert sample_local_url "text/plain")
                  ltac:(vm_compute; reflexivity)
                  ltac:(vm_compute; reflexivity)
                  ltac:(vm_compute; reflexivity))).
Defined.

(** Two calls for one path that overlap both ask the relay, and the
    response that arrives last overwrites the entry of the first: the URL
    the first call returned is not the one later calls get. *)
Example overlapping_calls_overwrite :
  let k := CallConvert sample_local_url "text/plain" in
  let s := happen_all (H := SimplePlatform.platform) good_world
             [Start k; Start k] {| plugin := fresh_cloud; awaiting := [] |} in
  let first := respond (H := SimplePlatform.platform) 0 (Ok {| userToken := Some "ut1";
                                userTokenSignature := Some "s1" |}) s in
  let second := respond (H := SimplePlatform.platform) 0 (Ok {| userToken := Some "ut2";
                                 userTokenSignature := Some "s2" |}) (snd first) in
  scope_calls_of (trace (plugin s))
  = ["/endpoint/@scrypted/core/public/"; "/endpoint/@scrypted/core/public/"]
  /\ fst first
     = Some (Ok "https://home.scrypted.app/endpoint/@scrypted/core/public/?user_token=ut1&user_token_signature=s1")
  /\ fst (start_call (H := SimplePlatform.platform) good_world k (snd second))
     = Ok (inl "https://home.scrypted.app/endpoint/@scrypted/core/public/?user_token=ut2&user_token_signature=s2").
Proof. vm_compute. repeat split. Qed.

(** C9 as stated fails: with a quick tunnel up (and still no TLS-verified
    hostname), a [convert] call that asks for a short-lived URL is answered
    from the tunnel and not with the cached URL of the same path. *)
Lemma short_lived_convert_bypasses_cache :
  let first := whitelist (H := SimplePlatform.platform) good_world
                 sample_local_url TEN_YEARS_MS "https://home.scrypted.app"
                 quick_tunnel_cloud in
  let later := convert (H := SimplePlatform.platform) good_world
                 sample_local_url "text/plain;short-lived=true" (snd first) in
  getSSLHostname (H := SimplePlatform.platform) quick_tunnel_cloud = None
  /\ getSSLHostname (H := SimplePlatform.platform) (snd first) = None
  /\ fst first
     = Ok "https://home.scrypted.app/endpoint/@scrypted/core/public/?user_token=ut&user_token_signature=sig"
  /\ fst later
     = Ok "https://abc.trycloudflare.com/endpoint/@scrypted/core/public/"
  /\ fst later <> fst first.
Proof. vm_compute. repeat split. discriminate. Qed.

(** ** The cloudflared log scanner *)

Module TunnelLogFacts.
Import TunnelLog.

Local Close Scope string_scope.
Local Close Scope Z_scope.
Local Open Scope N_scope.

#[local] Arguments N.eqb : simpl never.
#[local] Arguments N.ltb : simpl never.
#[local] Arguments N.leb : simpl never.

Lemma strip_prefix_app (p l : jsstring) : strip_prefix p (p ++ l) = Some l.
Proof.
  induction p as [| a p IH]; simpl; [reflexivity |].
  now rewrite N.eqb_refl.
Qed.

Lemma strip_prefix_Some (p l r : jsstring) :
  strip_prefix p l = Some r -> l = p ++ r.
Proof.
  revert l. induction p as [| a p IH]; intros [| b l]; simpl;
    try discriminate; try (now intros [= ->]).
  destruct (N.eqb_spec a b) as [-> | _]; [| discriminate].
  intros E. now rewrite (IH _ E).
Qed.

(** *** The pattern *)








Lemma config_regex_exec_unfold (line : jsstring) :
  config_regex_exec line
  = match match_config_here line with
    | Some g => Some g
    | None =>
        match line with
        | [] => None
        | _ :: rest => config_regex_exec rest
        end
    end.
Proof. destruct line; reflexivity. Qed.

Lemma occurs_unfold (p l : jsstring) :
  occurs p l
  = match strip_prefix p l with
    | Some _ => true
    | None => match l with [] => false | _ :: rest => occurs p rest end
    end.
Proof. destruct l; reflexivity. Qed.




(** *** The parser is total: fuel *)

Lemma skip_ws_length (l : jsstring) : (length (skip_ws l) <= length l)%nat.
Proof.
  induction l as [| c l IH]; simpl; [lia |].
  destruct (is_ws c); simpl; lia.
Qed.

Lemma cons_fst_length (c : N) (o : option (jsstring * jsstring))
    (s r : jsstring) (n : nat) :
  (forall s' r', o = Some (s', r') -> (length r' < n)%nat) ->
  cons_fst c o = Some (s, r) -> (length r < n)%nat.
Proof.
  intros Ho. destruct o as [[s' r']|]; simpl; [| discriminate].
  intros [= <- <-]. now apply (Ho s').
Qed.

Lemma parse_string_body_length (l s r : jsstring) :
  parse_string_body l = Some (s, r) -> (length r < length l)%nat.
Proof.
  remember (length l) as n eqn:Hn.
  assert (Hle : (length l <= n)%nat) by lia. clear Hn.
  revert l s r Hle.
  induction n as [| n IH]; intros [| c l] s r Hle; simpl in *;
    try discriminate; try lia.
  destruct (c =? 34); [intros [= <- <-]; lia |].
  destruct (c =? 92).
  - destruct l as [| e l]; [discriminate |].
    destruct (e =? 117).
    + destruct l as [| h1 [| h2 [| h3 [| h4 l]]]]; try discriminate.
      destruct (hex4 h1 h2 h3 h4); [| discriminate].
      intros E. eapply cons_fst_length in E; [apply Nat.lt_lt_succ_r, E |].
      intros s' r' E'. apply IH in E'; simpl in *; lia.
    + destruct (simple_escape e); [| discriminate].
      intros E. eapply cons_fst_length in E; [apply Nat.lt_lt_succ_r, E |].
      intros s' r' E'. apply IH in E'; simpl in *; lia.
  - destruct (c <? 32); [discriminate |].
    intros E. eapply cons_fst_length in E; [apply Nat.lt_lt_succ_r, E |].
    intros s' r' E'. apply IH in E'; simpl in *; lia.
Qed.

Lemma strip_prefix_length (p l r : jsstring) :
  strip_prefix p l = Some r -> (length r + length p = length l)%nat.
Proof.
  intros E%strip_prefix_Some. subst. rewrite length_app. lia.
Qed.

Lemma take_digits_length (l : jsstring) :
  (length (snd (take_digits l)) <= length l)%nat.
Proof.
  induction l as [| c l IH]; simpl; [lia |].
  destruct (is_digit c); simpl; [| lia].
  destruct (take_digits l). simpl in *. lia.
Qed.

Lemma parse_number_length (l lex r : jsstring) :
  parse_number l = Some (lex, r) -> (length r < length l)%nat.
Proof.
  unfold parse_number.
  set (l1 := match l with
             | c :: rest => if c =? 45 then ([c], rest) else ([], l)
             | [] => ([], l)
             end).
  assert (H1 : (length (snd l1) <= length l)%nat).
  { subst l1. destruct l as [| c l]; simpl; [lia |].
    destruct (c =? 45); simpl; lia. }
  destruct l1 as [sign l1']. simpl in H1.
  set (ip := match l1' with
             | c :: rest =>
                 if c =? 48 then Some ([c], rest)
                 else if is_digit c
                 then let (ds, r) := take_digits rest in Some (c :: ds, r)
                 else None
             | [] => None
             end).
  assert (H2 : forall i l2, ip = Some (i, l2) -> (length l2 < length l1')%nat).
  { subst ip. destruct l1' as [| c rest]; [discriminate |].
    intros i l2. destruct (c =? 48); [intros [= <- <-]; simpl; lia |].
    destruct (is_digit c); [| discriminate].
    pose proof (take_digits_length rest) as Ht.
    destruct (take_digits rest). intros [= <- <-]. simpl in *. lia. }
  destruct ip as [[i l2]|]; [| discriminate].
  specialize (H2 _ _ eq_refl).
  set (fp := match l2 with
             | c :: rest =>
                 if c =? 46 then
                   match take_digits rest with
                   | ([], _) => None
                   | (ds, r) => Some (c :: ds, r)
                   end
                 else Some ([], l2)
             | [] => Some ([], l2)
             end).
  assert (H3 : forall f l3, fp = Some (f, l3) -> (length l3 <= length l2)%nat).
  { subst fp. destruct l2 as [| c rest]; [intros f l3 [= <- <-]; lia |].
    intros f l3. destruct (c =? 46); [| intros [= <- <-]; lia].
    pose proof (take_digits_length rest) as Ht.
    destruct (take_digits rest) as [[| d ds] r0]; [discriminate |].
    intros [= <- <-]. simpl in *. lia. }
  destruct fp as [[f l3]|]; [| discriminate].
  specialize (H3 _ _ eq_refl).
  set (ep := match l3 with
             | c :: rest =>
                 if (c =? 101) || (c =? 69) then
                   let (sg, r0) :=
                     match rest with
                     | d :: rest' =>
                         if (d =? 43) || (d =? 45) then ([d], rest')
                         else ([], rest)
                     | [] => ([], rest)
                     end in
                   match take_digits r0 with
                   | ([], _) => None
                   | (ds, r) => Some (c :: sg ++ ds, r)
                   end
                 else Some ([], l3)
             | [] => Some ([], l3)
             end).
  assert (H4 : forall e l4, ep = Some (e, l4) -> (length l4 <= length l3)%nat).
  { subst ep. destruct l3 as [| c rest]; [intros e l4 [= <- <-]; lia |].
    intros e l4. destruct ((c =? 101) || (c =? 69)); [| intros [= <- <-]; lia].
    set (sr := match rest with
               | d :: rest' =>
                   if (d =? 43) || (d =? 45) then ([d], rest') else ([], rest)
               | [] => ([], rest)
               end).
    assert (Hs : (length (snd sr) <= length rest)%nat).
    { subst sr. destruct rest as [| d rest']; simpl; [lia |].
      destruct ((d =? 43) || (d =? 45)); simpl; lia. }
    destruct sr as [sg r0]. simpl in Hs.
    pose proof (take_digits_length r0) as Ht.
    destruct (take_digits r0) as [[| d ds] r1]; [discriminate |].
    intros [= <- <-]. simpl in *. lia. }
  destruct ep as [[e l4]|]; [| discriminate].
  specialize (H4 _ _ eq_refl).
  intros [= <- <-]. lia.
Qed.

Lemma skip_ws_cons_length (l r : jsstring) (d : N) :
  skip_ws l = d :: r -> (length r < length l)%nat.
Proof.
  intros E. pose proof (skip_ws_length l) as Hl. rewrite E in Hl.
  simpl in Hl. lia.
Qed.

(** Every value, element list and member list consumes input. *)
Lemma parse_consumes (f : nat) :
  (forall l v r, parse_value f l = Some (v, r) -> (length r < length l)%nat)
  /\ (forall l vs r,
        parse_elements f l = Some (vs, r) -> (length r < length l)%nat)
  /\ (forall l ms r,
        parse_members f l = Some (ms, r) -> (length r < length l)%nat).
Proof.
  induction f as [| f (IHv & IHe & IHm)];
    [repeat split; intros; discriminate |].
  split; [| split].
  - intros [| c rest] v r; cbn [parse_value]; [discriminate |].
    destruct (c =? 34).
    { destruct (parse_string_body rest) as [[s r0]|] eqn:E; [| discriminate].
      apply parse_string_body_length in E. intros [= <- <-]. simpl. lia. }
    destruct (c =? 91).
    { destruct (skip_ws rest) as [| d r0] eqn:Ew; [discriminate |].
      pose proof (skip_ws_cons_length _ _ _ Ew) as Hw.
      destruct (d =? 93); [intros [= <- <-]; simpl; lia |].
      destruct (parse_elements f (d :: r0)) as [[vs r1]|] eqn:E;
        [| discriminate].
      apply IHe in E. intros [= <- <-]. simpl in *. lia. }
    destruct (c =? 123).
    { destruct (skip_ws rest) as [| d r0] eqn:Ew; [discriminate |].
      pose proof (skip_ws_cons_length _ _ _ Ew) as Hw.
      destruct (d =? 125); [intros [= <- <-]; simpl; lia |].
      destruct (parse_members f (d :: r0)) as [[ms r1]|] eqn:E;
        [| discriminate].
      apply IHm in E. intros [= <- <-]. simpl in *. lia. }
    destruct (c =? 116).
    { destruct (strip_prefix _ _) as [r0|] eqn:E; [| discriminate].
      apply strip_prefix_length in E. intros [= <- <-]. simpl in *. lia. }
    destruct (c =? 102).
    { destruct (strip_prefix _ _) as [r0|] eqn:E; [| discriminate].
      apply strip_prefix_length in E. intros [= <- <-]. simpl in *. lia. }
    destruct (c =? 110).
    { destruct (strip_prefix _ _) as [r0|] eqn:E; [| discriminate].
      apply strip_prefix_length in E. intros [= <- <-]. simpl in *. lia. }
    destruct (parse_number (c :: rest)) as [[lex r0]|] eqn:E; [| discriminate].
    apply parse_number_length in E. intros [= <- <-]. exact E.
  - intros l vs r. cbn [parse_elements].
    destruct (parse_value f l) as [[v rest]|] eqn:E; [| discriminate].
    apply IHv in E.
    destruct (skip_ws rest) as [| d r0] eqn:Ew; [discriminate |].
    pose proof (skip_ws_cons_length _ _ _ Ew) as Hw.
    destruct (d =? 44).
    { destruct (parse_elements f (skip_ws r0)) as [[vs' r1]|] eqn:E';
        [| discriminate].
      apply IHe in E'. pose proof (skip_ws_length r0).
      intros [= <- <-]. lia. }
    destruct (d =? 93); [| discriminate]. intros [= <- <-]. lia.
  - intros [| q rest] ms r; cbn [parse_members]; [discriminate |].
    destruct (q =? 34); [| discriminate].
    destruct (parse_string_body rest) as [[key r0]|] eqn:Ek; [| discriminate].
    apply parse_string_body_length in Ek.
    destruct (skip_ws r0) as [| d r1] eqn:Ew; [discriminate |].
    pose proof (skip_ws_cons_length _ _ _ Ew) as Hw.
    destruct (d =? 58); [| discriminate].
    destruct (parse_value f (skip_ws r1)) as [[v r2]|] eqn:E; [| discriminate].
    apply IHv in E. pose proof (skip_ws_length r1).
    destruct (skip_ws r2) as [| e r3] eqn:Ew2; [discriminate |].
    pose proof (skip_ws_cons_length _ _ _ Ew2) as Hw2.
    destruct (e =? 44).
    { destruct (parse_members f (skip_ws r3)) as [[ms' r4]|] eqn:E';
        [| discriminate].
      apply IHm in E'. pose proof (skip_ws_length r3).
      intros [= <- <-]. simpl. lia. }
    destruct (e =? 125); [| discriminate]. intros [= <- <-]. simpl. lia.
Qed.

(** Above twice the length of the input the fuel does not matter. *)
Lemma parse_fuel (f1 : nat) :
  forall f2,
    (forall l, (2 * length l < f1)%nat -> (2 * length l < f2)%nat ->
       parse_value f1 l = parse_value f2 l)
    /\ (forall l, (2 * length l + 1 < f1)%nat -> (2 * length l + 1 < f2)%nat ->
          parse_elements f1 l = parse_elements f2 l)
    /\ (forall l, (2 * length l + 1 < f1)%nat -> (2 * length l + 1 < f2)%nat ->
          parse_members f1 l = parse_members f2 l).
Proof.
  induction f1 as [| f1 IH]; intros [| f2];
    try (repeat split; intros; lia).
  destruct (IH f2) as (IHv & IHe & IHm).
  destruct (parse_consumes f2) as (Cv & _ & _).
  split; [| split].
  - intros [| c rest] H1 H2; cbn [parse_value]; [reflexivity |].
    simpl length in *. pose proof (skip_ws_length rest).
    rewrite (IHe (skip_ws rest)) by lia.
    rewrite (IHm (skip_ws rest)) by lia. reflexivity.
  - intros l H1 H2. cbn [parse_elements].
    rewrite (IHv l) by lia.
    destruct (parse_value f2 l) as [[v rest]|] eqn:E; [| reflexivity].
    apply Cv in E.
    destruct (skip_ws rest) as [| d r0] eqn:Ew; [reflexivity |].
    pose proof (skip_ws_cons_length _ _ _ Ew). pose proof (skip_ws_length r0).
    rewrite (IHe (skip_ws r0)) by lia. reflexivity.
  - intros [| q rest] H1 H2; cbn [parse_members]; [reflexivity |].
    simpl length in *.
    destruct (q =? 34); [| reflexivity].
    destruct (parse_string_body rest) as [[key r0]|] eqn:Ek; [| reflexivity].
    apply parse_string_body_length in Ek.
    destruct (skip_ws r0) as [| d r1] eqn:Ew; [reflexivity |].
    pose proof (skip_ws_cons_length _ _ _ Ew). pose proof (skip_ws_length r1).
    destruct (d =? 58); [| reflexivity].
    rewrite (IHv (skip_ws r1)) by lia.
    destruct (parse_value f2 (skip_ws r1)) as [[v r2]|] eqn:E; [| reflexivity].
    apply Cv in E.
    destruct (skip_ws r2) as [| e r3] eqn:Ew2; [reflexivity |].
    pose proof (skip_ws_cons_length _ _ _ Ew2). pose proof (skip_ws_length r3).
    rewrite (IHm (skip_ws r3)) by lia. reflexivity.
Qed.

(** [JSON_parse] gives the answer of the parser with any larger fuel. *)
Lemma JSON_parse_fuel (text : jsstring) (f : nat) :
  (2 * length text < f)%nat ->
  JSON_parse text
  = match parse_value f (skip_ws text) with
    | Some (v, rest) =>
        match skip_ws rest with
        | [] => Some v
        | _ :: _ => None
        end
    | None => None
    end.
Proof.
  intros Hf. unfold JSON_parse. pose proof (skip_ws_length text).
  now rewrite (proj1 (parse_fuel (S (2 * length text)) f)) by lia.
Qed.

(** *** Decoding what was encoded *)





(** A group opens with a quote, so its first parse yields a string or
    fails: the second [JSON.parse] never has to convert its argument. *)
Lemma JSON_parse_quote_is_string (text : jsstring) (v : json) :
  JSON_parse (34 :: text) = Some v -> exists s, v = JString s.
Proof.
  unfold JSON_parse. change (skip_ws (34 :: text)) with (34 :: text).
  cbn [parse_value]. rewrite N.eqb_refl.
  destruct (parse_string_body text) as [[s r]|]; [| discriminate].
  destruct (skip_ws r); [| discriminate].
  intros [= <-]. now exists s.
Qed.

Lemma config_regex_exec_opens_with_quote (line g : jsstring) :
  config_regex_exec line = Some g -> exists t, g = 34 :: t.
Proof.
  induction line as [| c line IH]; rewrite config_regex_exec_unfold;
    unfold match_config_here;
    destruct (strip_prefix _ _) as [rest|];
    try destruct (lazy_until_close rest) as [m|]; simpl;
    try discriminate; try (intros [= <-]; now eexists); exact IH.
Qed.


(** *** Lines of a chunk *)


Lemma split_lines_nonempty (s : jsstring) : split_lines s <> [].
Proof.
  destruct s as [| c s]; simpl; [discriminate |].
  destruct (c =? 10); [discriminate |].
  destruct (split_lines s); discriminate.
Qed.

Lemma split_lines_newline (a b : jsstring) :
  split_lines (a ++ 10 :: b) = split_lines a ++ split_lines b.
Proof.
  induction a as [| c a IH]; [reflexivity |].
  cbn [app split_lines]. destruct (c =? 10).
  - now rewrite IH.
  - rewrite IH. pose proof (split_lines_nonempty a) as Hne.
    destruct (split_lines a) as [| x xs]; [contradiction | reflexivity].
Qed.

Lemma split_lines_head (s x : jsstring) (xs : list jsstring) :
  split_lines s = x :: xs -> exists post, s = x ++ post.
Proof.
  revert x xs. induction s as [| c s IH]; intros x xs.
  - intros [= <- <-]. now exists [].
  - cbn [split_lines]. destruct (c =? 10).
    + intros [= <- <-]. now exists (c :: s).
    + destruct (split_lines s) as [| y ys] eqn:E.
      * intros [= <- <-]. now exists s.
      * intros [= <- <-]. destruct (IH y ys eq_refl) as (post & ->).
        now exists post.
Qed.

Lemma split_lines_part (s line : jsstring) :
  In line (split_lines s) -> exists pre post, s = pre ++ line ++ post.
Proof.
  revert line. induction s as [| c s IH]; intros line.
  - simpl. intros [<- | []]. now exists [], [].
  - cbn [split_lines]. destruct (c =? 10).
    + intros [<- | Hin]; [now exists [], (c :: s) |].
      destruct (IH line Hin) as (pre & post & ->).
      now exists (c :: pre), post.
    + destruct (split_lines s) as [| y ys] eqn:E.
      * intros [<- | []]. now exists [], s.
      * intros [<- | Hin].
        -- destruct (split_lines_head s y ys E) as (post & ->).
           now exists [], post.
        -- destruct (IH line (or_intror Hin)) as (pre & post & ->).
           now exists (c :: pre), post.
Qed.

(** *** Lines without the marker *)

Lemma occurs_intro (p pre post : jsstring) :
  occurs p (pre ++ p ++ post) = true.
Proof.
  induction pre as [| c pre IH]; rewrite occurs_unfold.
  - simpl. now rewrite strip_prefix_app.
  - destruct (strip_prefix p _); [reflexivity |]. exact IH.
Qed.

Lemma occurs_elim (p l : jsstring) :
  occurs p l = true -> exists pre post, l = pre ++ p ++ post.
Proof.
  induction l as [| c l IH]; rewrite occurs_unfold.
  - destruct (strip_prefix p []) as [r|] eqn:E; [| discriminate].
    intros _. exists [], r. simpl. now apply strip_prefix_Some.
  - destruct (strip_prefix p (c :: l)) as [r|] eqn:E.
    + intros _. exists [], r. simpl. now apply strip_prefix_Some.
    + intros Ho. destruct (IH Ho) as (pre & post & ->).
      now exists (c :: pre), post.
Qed.


Lemma config_regex_exec_needs_marker (line g : jsstring) :
  config_regex_exec line = Some g -> occurs marker line = true.
Proof.
  induction line as [| c line IH];
    rewrite config_regex_exec_unfold, occurs_unfold;
    unfold match_config_here; fold marker;
    destruct (strip_prefix marker _) as [rest|]; try reflexivity.
  - discriminate.
  - exact IH.
Qed.

Lemma lines_without_marker (chunk : jsstring) :
  occurs marker chunk = false ->
  forall line, In line (split_lines chunk) -> scan_line line = NoConfig.
Proof.
  intros Hno line Hin. unfold scan_line.
  destruct (config_regex_exec line) as [g|] eqn:E; [| reflexivity].
  apply config_regex_exec_needs_marker, occurs_elim in E
    as (pre & post & ->).
  apply split_lines_part in Hin as (pre' & post' & Hc).
  assert (Hd : chunk = (pre' ++ pre) ++ marker ++ (post ++ post'))
    by (rewrite Hc; now rewrite <- !app_assoc).
  rewrite Hd, occurs_intro in Hno. discriminate.
Qed.

(** *** The listener on a whole line *)






(** *** Hostname discovery *)




End TunnelLogFacts.

(** * Further properties *)

(** ** Answers of the relay *)

Section RelayAnswers.
Context `{Platform}.

(** X1. When a changed pair reaches the relay (connected, logged in,
    address resolved, with or without a tunnel) and the relay accepts the
    registration, [updatePortForward] compares its address: the
    could-not-verify alert is posted exactly when the address is not
    'localhost', not the address the relay saw and not the tunnel host.
    The run ends normally and the address is persisted as the baseline
    either way. *)
Theorem updatePortForward_ip_check_is_advisory (w : World) (p : option Z)
    (c : Cloud) (ip : option string) (d : RegisterBody) :
  reaches_relay w p c ip ->
  baseline_changed (values c) (compared_port c p) ip = true ->
  w_register w = Ok (Some d) ->
  truthy_str (rb_error d) = false ->
  let r := updatePortForward w p c in
  fst r = Ok tt
  /\ lastPersistedIp (values (snd r)) = ip
  /\ alerts_of (trace (snd r))
     = alerts_of (trace c)
       ++ (if ip_unverified ip d (cloudflareTunnelHost c)
           then [verify_ip_alert (values c)] else []).
Proof.
  intros R B Hw Hd.
  destruct (updatePortForward_reaches_relay w p c ip R B) as (a & _ & E).
  rewrite Hw in E. unfold body_error in E. rewrite Hd in E. cbv zeta in E.
  cbv zeta. rewrite E. cbn [fst snd].
  split; [reflexivity |]. split; [reflexivity |].
  destruct (ip_unverified ip d (cloudflareTunnelHost c));
    cbn [trace values with_values with_event].
  - rewrite alerts_of_snoc, request_sent_alerts.
    unfold verify_ip_alert. now rewrite request_sent_values.
  - rewrite request_sent_alerts. symmetry. apply app_nil_r.
Qed.

(** X2. When a changed pair reaches the relay (connected, logged in,
    address resolved to the tunnel host or by the relay, no Duck DNS pair,
    port accepted) and the registration fails, or the relay turns it
    down, the persisted baseline stays as it was: the run ends normally,
    and the next run with the same port and address sends the
    registration again. *)
Theorem updatePortForward_failed_registration_is_retried (w : World)
    (p : option Z) (c : Cloud) (ip : option string) :
  reaches_relay w p c ip ->
  baseline_changed (values c) (compared_port c p) ip = true ->
  registration_fails w ->
  let r1 := updatePortForward w p c in
  let r2 := updatePortForward w p (snd r1) in
  fst r1 = Ok tt
  /\ lastPersistedUpnpPort (values (snd r1)) = lastPersistedUpnpPort (values c)
  /\ lastPersistedIp (values (snd r1)) = lastPersistedIp (values c)
  /\ fst r2 = Ok tt
  /\ length (registrations_of (trace (snd r2)))
     = (length (registrations_of (trace c)) + 2)%nat.
Proof.
  intros R B F.
  assert (Step : forall c0, reaches_relay w p c0 ip ->
            baseline_changed (values c0) (compared_port c0 p) ip = true ->
            let r := updatePortForward w p c0 in
            fst r = Ok tt
            /\ values (snd r) = set_upnpPort p (values c0)
            /\ length (registrations_of (trace (snd r)))
               = S (length (registrations_of (trace c0)))).
  { intros c0 R0 B0.
    destruct (updatePortForward_reaches_relay w p c0 ip R0 B0) as (a & _ & E).
    unfold registration_fails in F. cbv zeta. rewrite E.
    destruct (w_register w) as [body | e].
    - destruct (body_error body) as [err|]; [| contradiction].
      cbn [fst snd trace values with_values with_event].
      rewrite request_sent_values.
      rewrite registrations_of_snoc_other by exact I.
      rewrite request_sent_registrations, length_app. simpl.
      repeat split; lia.
    - cbn [fst snd]. rewrite request_sent_values.
      rewrite request_sent_registrations, length_app. simpl.
      repeat split; lia. }
  destruct (Step c R B) as (O1 & V1 & L1). cbv zeta in *.
  pose proof (updatePortForward_frame w p c) as Fr.
  assert (R1 : reaches_relay w p (snd (updatePortForward w p c)) ip).
  { apply (reaches_relay_frame w p c); [exact R | right; exact Fr]. }
  assert (B1 : baseline_changed (values (snd (updatePortForward w p c)))
                 (compared_port (snd (updatePortForward w p c)) p) ip = true).
  { rewrite (compared_port_frame p c) by (right; exact Fr).
    rewrite V1. exact B. }
  destruct (Step _ R1 B1) as (O2 & _ & L2). cbv zeta in *.
  rewrite V1. repeat split; try assumption. lia.
Qed.

(** X3. With a Duck DNS hostname and token configured (outside Custom
    Domain mode) [updatePortForward] never gets past the address: after
    the one update request to Duck DNS it throws, whatever Duck DNS
    answers (the Duck DNS error when the request fails, the Let's Encrypt
    error when it succeeds), without registering and without touching the
    baseline; only the port has been persisted. *)
Theorem updatePortForward_duck_dns_always_throws (w : World) (p : option Z)
    (c : Cloud) :
  forwardingMode (values c) <> CustomDomain ->
  truthy_str (duckDnsHostname (values c)) = true ->
  truthy_str (duckDnsToken (values c)) = true ->
  let r := updatePortForward w p c in
  (exists e, fst r = Throw e)
  /\ fst r = Throw (match w_duckdns w with
                    | Throw _ => "Duck DNS Error. See Console Logs."
                    | Ok _ => "Let's Encrypt Error. See Console Logs."
                    end)
  /\ values (snd r) = set_upnpPort p (values c)
  /\ trace (snd r)
     = trace c ++ [HttpDuckDns (show_str (duckDnsHostname (values c)))
                               (show_str (duckDnsToken (values c)))].
Proof.
  intros Hm Hh Ht. cbv zeta.
  set (c0 := with_values (set_upnpPort p) c).
  set (msg := match w_duckdns w with
              | Throw _ => "Duck DNS Error. See Console Logs."
              | Ok _ => "Let's Encrypt Error. See Console Logs."
              end).
  assert (Hres : resolve_ip w c0
                 = (Throw msg,
                    with_event
                      (HttpDuckDns (show_str (duckDnsHostname (values c)))
                         (show_str (duckDnsToken (values c)))) c0)).
  { unfold resolve_ip. rewrite !bind_read. simpl.
    destruct (mode_eqb (forwardingMode (values c)) CustomDomain) eqn:E.
    { apply mode_eqb_eq in E. contradiction. }
    rewrite Hh, Ht. simpl. rewrite bind_emit. subst msg.
    destruct (w_duckdns w); reflexivity. }
  unfold updatePortForward. rewrite bind_update. fold c0.
  rewrite (bind_throw _ _ _ _ _ Hres). simpl.
  split; [eexists; reflexivity |]. repeat split.
Qed.

End RelayAnswers.

Lemma router_cloud_reaches_relay (w : World) :
  w_ip w = Ok (Some "203.0.113.7") ->
  reaches_relay (H := SimplePlatform.platform) w (Some 50000) router_cloud
    (Some "203.0.113.7").
Proof.
  intros Hip. unfold reaches_relay. simpl.
  repeat split; try reflexivity; [exact Hip | intros _; discriminate].
Qed.

Lemma updatePortForward_ip_check_is_advisory_witness :
  let r := updatePortForward (H := SimplePlatform.platform) mismatching_world
             (Some 50000) router_cloud in
  fst r = Ok tt
  /\ lastPersistedIp (values (snd r)) = Some "203.0.113.7"
  /\ alerts_of (trace (snd r))
     = ["Scrypted Cloud could not verify the IP Address of your custom domain undefined."].
Proof.
  exact (updatePortForward_ip_check_is_advisory
           (H := SimplePlatform.platform) mismatching_world (Some 50000)
           router_cloud (Some "203.0.113.7")
           {| rb_error := None; rb_ip_address := Some "198.51.100.20" |}
           (router_cloud_reaches_relay mismatching_world eq_refl)
           eq_refl eq_refl eq_refl).
Defined.

(** With the tunnel up the address is the tunnel host, which the relay
    does not report back; the check lets it pass without an alert. *)
Example updatePortForward_tunnel_host_is_not_checked :
  let r := updatePortForward (H := SimplePlatform.platform) mismatching_world
             (Some 50000) quick_tunnel_cloud in
  fst r = Ok tt
  /\ lastPersistedIp (values (snd r)) = Some "abc.trycloudflare.com"
  /\ alerts_of (trace (snd r)) = [].
Proof. vm_compute. repeat split. Qed.

Lemma updatePortForward_failed_registration_is_retried_witness :
  let r1 := updatePortForward (H := SimplePlatform.platform) rejecting_world
              (Some 50000) router_cloud in
  let r2 := updatePortForward (H := SimplePlatform.platform) rejecting_world
              (Some 50000) (snd r1) in
  fst r1 = Ok tt
  /\ lastPersistedUpnpPort (values (snd r1)) = None
  /\ lastPersistedIp (values (snd r1)) = None
  /\ fst r2 = Ok tt
  /\ length (registrations_of (trace (snd r2))) = 2%nat.
Proof.
  apply (updatePortForward_failed_registration_is_retried
           (H := SimplePlatform.platform) rejecting_world (Some 50000)
           router_cloud (Some "203.0.113.7")
           (router_cloud_reaches_relay rejecting_world eq_refl) eq_refl).
  vm_compute. discriminate.
Defined.

(** The same through the tunnel: a registration the relay turns down is
    sent again by the next run. *)
Example updatePortForward_failed_registration_with_tunnel :
  let r1 := updatePortForward (H := SimplePlatform.platform) rejecting_world
              (Some 50000) quick_tunnel_cloud in
  let r2 := updatePortForward (H := SimplePlatform.platform) rejecting_world
              (Some 50000) (snd r1) in
  fst r1 = Ok tt
  /\ lastPersistedIp (values (snd r1)) = None
  /\ fst r2 = Ok tt
  /\ length (registrations_of (trace (snd r2))) = 2%nat.
Proof. vm_compute. repeat split. Qed.

Lemma updatePortForward_duck_dns_always_throws_witness :
  let r := updatePortForward (H := SimplePlatform.platform) good_world
             (Some 50000) duck_cloud in
  (exists e, fst r = Throw e)
  /\ fst r = Throw "Let's Encrypt Error. See Console Logs."
  /\ values (snd r) = set_upnpPort (Some 50000) (values duck_cloud)
  /\ trace (snd r) = [HttpDuckDns "nvr.duckdns.org" "duck-token"].
Proof.
  apply (updatePortForward_duck_dns_always_throws
           (H := SimplePlatform.platform) good_world (Some 50000) duck_cloud);
    [discriminate | reflexivity | reflexivity].
Defined.

(** ** Error paths of [refreshPortForward] *)

Section RefreshErrors.
Context `{Platform}.

(** X4. In every mode but Disabled a persisted port 443 stops
    [refreshPortForward] at once, Custom Domain mode included: the status
    becomes the port 443 error, the alert and the settings event are
    posted, and nothing else happens: no mapping, no request to the
    relay, no change of the settings. *)
Theorem refreshPortForward_refuses_port_443 (w : World) (c : Cloud) :
  forwardingMode (values c) <> Disabled ->
  upnpPort (values c) = Some 443 ->
  refreshPortForward w c
  = (Ok tt,
     with_event SettingsEvent
       (with_event (Alert port_443_not_allowed)
          (with_upnpStatus "Error: Port 443 Not Allowed" c))).
Proof.
  intros Hm Hp. unfold refreshPortForward. rewrite bind_read.
  destruct (mode_eqb (forwardingMode (values c)) Disabled) eqn:E.
  { apply mode_eqb_eq in E. contradiction. }
  unfold chosen_port. rewrite Hp. simpl.
  now rewrite bind_update, bind_alert.
Qed.

(** X5. In UPnP mode without a configured local address
    [refreshPortForward] only posts the address alert: no mapping is
    requested, the relay is not contacted, and status and settings stay
    as they were; a port drawn at random is not persisted. *)
Theorem refreshPortForward_without_local_address (w : World) (c : Cloud) :
  forwardingMode (values c) = UPNP ->
  chosen_port w (values c) <> 443 ->
  match w_localAddresses w with
  | Some (String _ _ :: _) => False
  | _ => True
  end ->
  refreshPortForward w c = (Ok tt, with_event (Alert no_local_address) c).
Proof.
  intros Hm Hp Ha. unfold refreshPortForward. rewrite bind_read, Hm. simpl.
  destruct (Z.eqb_spec (chosen_port w (values c)) 443) as [E|_];
    [contradiction |].
  destruct (w_localAddresses w) as [[| [| a t] rest] |];
    try reflexivity; contradiction.
Qed.

(** X6. In UPnP mode, when the router refuses the mapping, the callback
    sets the status to the console error, posts the UPnP alert and stops:
    the one mapping has been requested, but the port is not persisted and
    no registration is sent. *)
Theorem refreshPortForward_router_refuses (w : World) (c : Cloud) (a : ascii)
    (t : string) (rest : list string) (err : string) :
  forwardingMode (values c) = UPNP ->
  chosen_port w (values c) <> 443 ->
  w_localAddresses w = Some (String a t :: rest) ->
  w_portMapping_err w = Some err ->
  let r := refreshPortForward w c in
  fst r = Ok tt
  /\ upnpStatus (snd r) = "Error: See Console"
  /\ values (snd r) = values c
  /\ trace (snd r)
     = trace c
       ++ [UpnpPortMapping {| pm_public_port := chosen_port w (values c);
                              pm_private_host := String a t;
                              pm_private_port := securePort c;
                              pm_ttl := 1800 |};
           UpnpGetMappings; SettingsEvent; Alert upnp_failed].
Proof.
  intros Hm Hp Ha He. cbv zeta.
  rewrite (refreshPortForward_upnp_eq w c a t rest Hm Hp Ha).
  unfold detached, portMapping_done. rewrite bind_emit, He.
  rewrite bind_update, bind_emit. unfold alert, emit, update. simpl.
  repeat split. now rewrite <- !app_assoc.
Qed.

(** X7. Whatever happens in it, a run of [updatePortForward] persists its
    port argument and leaves the rest of the configuration alone: mode,
    hostname, Duck DNS settings, login token, the connection toggle, the
    tunnel, the secure port and the whitelist cache are unchanged, and no
    UPnP mapping is requested. *)
Theorem updatePortForward_keeps_configuration (w : World) (p : option Z)
    (c : Cloud) :
  let c' := snd (updatePortForward w p c) in
  upnpPort (values c') = p
  /\ forwardingMode (values c') = forwardingMode (values c)
  /\ hostname (values c') = hostname (values c)
  /\ duckDnsHostname (values c') = duckDnsHostname (values c)
  /\ duckDnsToken (values c') = duckDnsToken (values c)
  /\ token_info (values c') = token_info (values c)
  /\ connectHomeScryptedApp (values c') = connectHomeScryptedApp (values c)
  /\ cloudflareTunnel c' = cloudflareTunnel c
  /\ securePort c' = securePort c
  /\ whitelisted c' = whitelisted c
  /\ mappings_of (trace c') = mappings_of (trace c).
Proof.
  destruct (updatePortForward_frame w p c) as [F1 F2 F3 F4 F5 F6 F7 F8 F9 F10 F11].
  cbv zeta. repeat split; assumption.
Qed.

End RefreshErrors.

Lemma refreshPortForward_refuses_port_443_witness :
  refreshPortForward (H := SimplePlatform.platform) good_world port_443_cloud
  = (Ok tt,
     with_event SettingsEvent
       (with_event (Alert port_443_not_allowed)
          (with_upnpStatus "Error: Port 443 Not Allowed" port_443_cloud))).
Proof.
  apply (refreshPortForward_refuses_port_443 (H := SimplePlatform.platform)
           good_world port_443_cloud); [discriminate | reflexivity].
Defined.

Lemma refreshPortForward_without_local_address_witness :
  refreshPortForward (H := SimplePlatform.platform) no_address_world upnp_cloud
  = (Ok tt, with_event (Alert no_local_address) upnp_cloud).
Proof.
  apply (refreshPortForward_without_local_address
           (H := SimplePlatform.platform) no_address_world upnp_cloud);
    [reflexivity | vm_compute; discriminate | exact I].
Defined.

Lemma refreshPortForward_router_refuses_witness :
  let r := refreshPortForward (H := SimplePlatform.platform)
             refusing_router_world upnp_cloud in
  fst r = Ok tt
  /\ upnpStatus (snd r) = "Error: See Console"
  /\ values (snd r) = values upnp_cloud
  /\ trace (snd r)
     = [UpnpPortMapping {| pm_public_port := 50000;
                           pm_private_host := "192.168.1.10";
                           pm_private_port := Some 10443;
                           pm_ttl := 1800 |};
        UpnpGetMappings; SettingsEvent; Alert upnp_failed].
Proof.
  apply (refreshPortForward_router_refuses (H := SimplePlatform.platform)
           refusing_router_world upnp_cloud "1" "92.168.1.10" []
           "ETIMEDOUT");
    [reflexivity | vm_compute; discriminate | reflexivity | reflexivity].
Defined.

(** ** Public URLs without the relay *)

Section Conversions.
Context `{Platform}.

Lemma whitelist_logged_out (w : World) (localUrl : string) (ttl : Z)
    (baseUrl : string) (c : Cloud) :
  truthy_str (token_info (values c)) = false ->
  snd (whitelist w localUrl ttl baseUrl c) = c
  /\ forall path,
       URL_pathname localUrl = Some path ->
       getSSLHostname c = None ->
       whitelisted c !! path = None ->
       fst (whitelist w localUrl ttl baseUrl c) = Throw not_logged_in.
Proof.
  intros Ht. rewrite !whitelist_unfold.
  destruct (URL_pathname localUrl) as [p|];
    [| split; [reflexivity | discriminate]].
  rewrite bind_read. destruct (getSSLHostname c) as [h|];
    [split; [reflexivity | discriminate] |].
  rewrite bind_read. destruct (whitelisted c !! p) as [u|] eqn:Hc.
  - split; [reflexivity |]. intros path [= <-] _ Hn. congruence.
  - rewrite bind_read.
    destruct (token_info (values c)) as [[| a t] |]; try discriminate;
      (split; [reflexivity | reflexivity]).
Qed.

(** X8. Logged out, no conversion of a local URL into a public one
    contacts the relay or changes anything, whichever of the three entry
    points is used; and when there is neither a TLS-verified hostname nor
    a tunnel answer nor a cached URL for the path, the conversion throws
    the not-logged-in error. *)
Theorem conversions_logged_out (w : World) (k : conversion) (c : Cloud) :
  truthy_str (token_info (values c)) = false ->
  snd (run_conversion w k c) = c
  /\ forall path,
       URL_pathname (conversion_url k) = Some path ->
       getSSLHostname c = None ->
       takes_short_lived_branch c k = false ->
       whitelisted c !! path = None ->
       fst (run_conversion w k c) = Throw not_logged_in.
Proof.
  intros Ht. destruct k as [localUrl ttl baseUrl | data mime | data]; simpl.
  - destruct (whitelist_logged_out w localUrl ttl baseUrl c Ht) as (S & T).
    split; [exact S |]. intros path Hp Hs _ Hc. now apply (T path).
  - rewrite !convert_unfold, !bind_read.
    destruct (truthy_str (cloudflareTunnel c)
              && negb (mode_eqb (forwardingMode (values c)) CustomDomain)
              && mime_short_lived mime).
    + rewrite bind_read. split; [reflexivity | discriminate].
    + rewrite bind_read.
      destruct (whitelist_logged_out w data TEN_YEARS_MS
                  ("https://" ++ getHostname c)%string c Ht) as (S & T).
      split; [exact S |]. intros path Hp Hs _ Hc. now apply (T path).
  - rewrite !push_convert_unfold, bind_read.
    destruct (getSSLHostname c) as [h|] eqn:Hs.
    + split; [reflexivity | discriminate].
    + rewrite bind_read.
      destruct (whitelist_logged_out w ("http://127.0.0.1/push/" ++ data)%string
                  TEN_YEARS_MS
                  ("https://" ++ getHostname c ++ SCRYPTED_CLOUD_MESSAGE_PATH)%string
                  c Ht) as (S & T).
      split; [exact S |]. intros path Hp _ _ Hc. now apply (T path).
Qed.

(** X9. When the scope request to the relay fails, [whitelist] throws
    the failure and caches nothing: a second call for the same path asks
    the relay again. *)
Theorem whitelist_failed_scope_is_not_cached (w : World) (localUrl : string)
    (ttl : Z) (baseUrl path e : string) (c : Cloud) :
  URL_pathname localUrl = Some path ->
  getSSLHostname c = None ->
  whitelisted c !! path = None ->
  truthy_str (token_info (values c)) = true ->
  w_scope w = Throw e ->
  let r1 := whitelist w localUrl ttl baseUrl c in
  let r2 := whitelist w localUrl ttl baseUrl (snd r1) in
  fst r1 = Throw e
  /\ whitelisted (snd r1) = whitelisted c
  /\ fst r2 = Throw e
  /\ scope_calls_of (trace (snd r2)) = scope_calls_of (trace c) ++ [path; path].
Proof.
  intros Hp Hs Hc Ht Hw.
  assert (Step : forall c0, getSSLHostname c0 = None ->
            whitelisted c0 !! path = None ->
            token_info (values c0) = token_info (values c) ->
            whitelist w localUrl ttl baseUrl c0
            = (Throw e,
               with_event
                 (HttpScope (getHostname c0) path ttl
                    (show_str (token_info (values c)))) c0)).
  { intros c0 Hs0 Hc0 Ht0. rewrite whitelist_unfold, Hp.
    rewrite bind_read, Hs0, bind_read, Hc0, bind_read, Ht0.
    destruct (token_info (values c)) as [[| a t] |]; try discriminate.
    rewrite bind_read, bind_emit. unfold bind at 1, await. now rewrite Hw. }
  cbv zeta. rewrite (Step c Hs Hc eq_refl). cbn [fst snd].
  rewrite Step; [| exact Hs | exact Hc | reflexivity].
  cbn [fst snd trace with_event whitelisted].
  repeat split. unfold scope_calls_of.
  rewrite (omap_snoc_Some _ _ _ path) by reflexivity.
  rewrite (omap_snoc_Some _ _ _ path) by reflexivity.
  now rewrite <- app_assoc.
Qed.

(** X10. In Custom Domain mode with a hostname, [convert] answers with
    the local path under that hostname, for every target type. It needs
    neither the relay nor the cache nor a login, and a tunnel that is up
    is not used even for short-lived URLs. *)
Theorem convert_under_custom_domain (w : World) (data mime h path : string)
    (c : Cloud) :
  forwardingMode (values c) = CustomDomain ->
  hostname (values c) = Some h ->
  h <> EmptyString ->
  URL_pathname data = Some path ->
  convert w data mime c = (Ok ("https://" ++ h ++ path)%string, c).
Proof.
  intros Hm Hh Hne Hp.
  assert (Hssl : getSSLHostname c = Some h).
  { unfold getSSLHostname. cbv zeta. rewrite Hm, Hh. simpl.
    destruct h; [contradiction | reflexivity]. }
  rewrite convert_unfold, !bind_read, Hm. simpl.
  rewrite andb_false_r. simpl. rewrite bind_read.
  rewrite whitelist_unfold, Hp, bind_read, Hssl.
  unfold getHostname. rewrite Hssl. reflexivity.
Qed.

End Conversions.

Lemma conversions_logged_out_witness :
  snd (run_conversion (H := SimplePlatform.platform) good_world
         (CallPushConvert "42") logged_out_cloud) = logged_out_cloud
  /\ fst (run_conversion (H := SimplePlatform.platform) good_world
            (CallPushConvert "42") logged_out_cloud) = Throw not_logged_in.
Proof.
  destruct (conversions_logged_out (H := SimplePlatform.platform) good_world
              (CallPushConvert "42") logged_out_cloud eq_refl) as (S & T).
  split; [exact S |].
  apply (T "/push/42"); reflexivity.
Defined.

Lemma whitelist_failed_scope_is_not_cached_witness :
  let r1 := whitelist (H := SimplePlatform.platform) scope_failing_world
              sample_local_url TEN_YEARS_MS "https://home.scrypted.app"
              fresh_cloud in
  let r2 := whitelist (H := SimplePlatform.platform) scope_failing_world
              sample_local_url TEN_YEARS_MS "https://home.scrypted.app"
              (snd r1) in
  fst r1 = Throw "Error: 503"
  /\ whitelisted (snd r1) = whitelisted fresh_cloud
  /\ fst r2 = Throw "Error: 503"
  /\ scope_calls_of (trace (snd r2))
     = ["/endpoint/@scrypted/core/public/";
        "/endpoint/@scrypted/core/public/"].
Proof.
  apply (whitelist_failed_scope_is_not_cached (H := SimplePlatform.platform)
           scope_failing_world sample_local_url TEN_YEARS_MS
           "https://home.scrypted.app" "/endpoint/@scrypted/core/public/"
           "Error: 503" fresh_cloud); reflexivity.
Defined.

Lemma convert_under_custom_domain_witness :
  convert (H := SimplePlatform.platform) good_world sample_local_url
    "text/plain;short-lived=true"
    (with_tunnel (Some "https://abc.trycloudflare.com") custom_domain_cloud)
  = (Ok "https://nvr.example.com/endpoint/@scrypted/core/public/",
     with_tunnel (Some "https://abc.trycloudflare.com") custom_domain_cloud).
Proof.
  apply (convert_under_custom_domain (H := SimplePlatform.platform)
           good_world sample_local_url "text/plain;short-lived=true"
           "nvr.example.com" "/endpoint/@scrypted/core/public/"
           (with_tunnel (Some "https://abc.trycloudflare.com")
              custom_domain_cloud));
    [reflexivity | reflexivity | discriminate | reflexivity].
Defined.

(** ** Filling the reverse connection pool *)

Lemma ensure_loop_full (fuel : nat) (tgt : Target) (p : Pool) :
  (10 <= size (reverseConnections p))%nat -> ensure_loop fuel tgt p = p.
Proof.
  intros Hs. destruct fuel as [| fuel]; [reflexivity |]. simpl.
  destruct (decide _); [lia | reflexivity].
Qed.

Lemma ensure_loop_created (fuel : nat) (tgt : Target) (p : Pool) :
  (created p <= created (ensure_loop fuel tgt p))%nat.
Proof.
  revert p. induction fuel as [| fuel IH]; intros p; simpl; [lia |].
  destruct (decide _); [| lia].
  etransitivity; [| apply IH]. simpl. lia.
Qed.

Lemma ensure_loop_closures (fuel : nat) (tgt : Target) (p : Pool) (n : nat) :
  (n < created p)%nat ->
  closures (ensure_loop fuel tgt p) !! n = closures p !! n.
Proof.
  revert p. induction fuel as [| fuel IH]; intros p Hn; simpl; [reflexivity |].
  destruct (decide _); [| reflexivity].
  rewrite IH by (simpl; lia). simpl. apply lookup_insert_ne. lia.
Qed.

Lemma ensure_loop_new (fuel : nat) (tgt : Target) (p : Pool) (n : nat) :
  n ∈ reverseConnections (ensure_loop fuel tgt p) ->
  n ∈ reverseConnections p
  \/ ((created p <= n < created (ensure_loop fuel tgt p))%nat
      /\ closures (ensure_loop fuel tgt p) !! n
         = Some {| cl_target := tgt; cl_claimed := false |}).
Proof.
  revert p. induction fuel as [| fuel IH]; intros p; simpl; [now left |].
  destruct (decide _); [| now left].
  intros Hn. apply IH in Hn as [Hn | (Hr & Hc)].
  - simpl in Hn. apply elem_of_union in Hn as [Hn%elem_of_singleton | Hn];
      [| now left].
    subst n. right. split.
    + split; [lia |].
      pose proof (ensure_loop_created fuel tgt (createReverseConnection tgt p))
        as Hc. simpl in Hc. lia.
    + rewrite ensure_loop_closures by (simpl; lia). simpl.
      apply lookup_insert_eq.
  - right. simpl in Hr. split; [lia | exact Hc].
Qed.

(** X11. Once the pool has been filled, filling it again creates nothing,
    also when the second call names another relay edge: the sockets
    dialed to the first edge stay as they are. *)
Theorem ensureReverseConnections_idempotent (tgt tgt' : Target) (p : Pool) :
  pool_wf p ->
  ensureReverseConnections tgt' (ensureReverseConnections tgt p)
  = ensureReverseConnections tgt p.
Proof.
  intros Hwf.
  destruct (ensureReverseConnections_spec tgt p Hwf) as (_ & Hs & _).
  unfold ensureReverseConnections at 1. apply ensure_loop_full. lia.
Qed.

(** X12. Filling the pool keeps every socket it held and the close
    handlers installed so far; each socket it adds is a newly created one,
    dialed to the edge given in this call and not yet claimed. *)
Theorem ensureReverseConnections_new_sockets (tgt : Target) (p : Pool)
    (n : nat) :
  pool_wf p ->
  let p' := ensureReverseConnections tgt p in
  (n ∈ reverseConnections p -> n ∈ reverseConnections p')
  /\ ((n < created p)%nat -> closures p' !! n = closures p !! n)
  /\ (n ∈ reverseConnections p' -> n ∉ reverseConnections p ->
      (created p <= n < created p')%nat
      /\ closures p' !! n = Some {| cl_target := tgt; cl_claimed := false |}).
Proof.
  intros Hwf. cbv zeta.
  destruct (ensureReverseConnections_spec tgt p Hwf) as (_ & _ & _ & I1 & _).
  split; [apply I1 |]. split; [apply ensure_loop_closures |].
  intros Hin Hout.
  apply ensure_loop_new in Hin as [Hin | Hin]; [contradiction | exact Hin].
Qed.

Lemma handlers_installed_step (e : pool_event) (p : Pool) :
  pool_wf p -> handlers_installed p -> handlers_installed (pool_step e p).
Proof.
  intros Hwf Hh.
  assert (Hens : forall tgt q, pool_wf q -> handlers_installed q ->
                   handlers_installed (ensureReverseConnections tgt q)).
  { intros tgt q Hq Hi n Hn.
    apply ensure_loop_new in Hn as [Hn | (_ & Hc)].
    - unfold ensureReverseConnections.
      rewrite ensure_loop_closures by (apply (proj1 Hq); exact Hn).
      now apply Hi.
    - unfold ensureReverseConnections. rewrite Hc. eauto. }
  destruct e as [tgt | k | k]; simpl.
  - now apply Hens.
  - intros n Hn. simpl in *. apply Hh in Hn as [cl Hcl].
    destruct (decide (n = k)) as [-> | Hne].
    + rewrite lookup_alter_eq, Hcl. simpl. eauto.
    + rewrite lookup_alter_ne by congruence. eauto.
  - unfold socket_closed. destruct (closures p !! k) as [cl|]; [| exact Hh].
    assert (Hrem : handlers_installed
                     {| reverseConnections := reverseConnections p ∖ {[k]};
                        closures := closures p; created := created p |}).
    { intros n Hn. simpl in *. apply elem_of_difference in Hn as [Hn _].
      now apply Hh. }
    destruct (cl_claimed cl); [| exact Hrem].
    apply Hens; [now apply remove_wf | exact Hrem].
Qed.

(** X13. In every pool the plugin can reach, each pooled socket has its
    close handler installed, so a close of a pooled socket always runs
    the handler and removes the socket from the pool. *)
Theorem pooled_sockets_have_handlers (es : list pool_event) (n : nat) :
  let p := pool_run es empty_pool in
  n ∈ reverseConnections p ->
  is_Some (closures p !! n)
  /\ (n ∉ reverseConnections (socket_closed n p)).
Proof.
  cbv zeta.
  assert (Inv : pool_wf (pool_run es empty_pool)
                /\ handlers_installed (pool_run es empty_pool)).
  { induction es as [| e es IH] using rev_ind.
    - split; [apply empty_pool_wf |]. intros m Hm. simpl in Hm.
      now apply not_elem_of_empty in Hm.
    - rewrite pool_run_snoc. destruct IH as (W & I0).
      split; [now apply pool_step_wf | now apply handlers_installed_step]. }
  destruct Inv as (Hwf & Hi). intros Hn.
  destruct (Hi n Hn) as [cl Hcl]. split; [eauto |].
  unfold socket_closed. rewrite Hcl.
  set (q := {| reverseConnections := reverseConnections _ ∖ {[n]};
               closures := _; created := _ |}).
  assert (Hq : n ∉ reverseConnections q).
  { simpl. intros [_ Hin]%elem_of_difference. apply Hin.
    now apply elem_of_singleton. }
  destruct (cl_claimed cl); [| exact Hq].
  intros Hin. apply ensure_loop_new in Hin as [Hin | ((Hlo & _) & _)];
    [contradiction |].
  simpl in Hlo. assert ((n < created (pool_run es empty_pool))%nat)
    by (apply (proj1 Hwf); exact Hn). lia.
Qed.

Lemma ensureReverseConnections_idempotent_witness :
  ensureReverseConnections other_target
    (ensureReverseConnections sample_target empty_pool)
  = ensureReverseConnections sample_target empty_pool.
Proof.
  apply (ensureReverseConnections_idempotent sample_target other_target
           empty_pool).
  split; intros n Hn; simpl in Hn;
    [now apply not_elem_of_empty in Hn
    | rewrite lookup_empty in Hn; now destruct Hn].
Defined.

Lemma ensureReverseConnections_new_sockets_witness :
  let p := socket_closed 3 (ensureReverseConnections sample_target empty_pool) in
  let p' := ensureReverseConnections other_target p in
  (10 <= 10 < created p')%nat
  /\ closures p' !! 10%nat
     = Some {| cl_target := other_target; cl_claimed := false |}.
Proof.
  refine (proj2 (proj2 (ensureReverseConnections_new_sockets other_target
            (socket_closed 3 (ensureReverseConnections sample_target empty_pool))
            10%nat _)) _ _).
  - apply socket_closed_wf.
    destruct (ensureReverseConnections_spec sample_target empty_pool
                empty_pool_wf) as (W & _). exact W.
  - apply (bool_decide_unpack _). vm_compute. exact I.
  - apply (bool_decide_unpack _). vm_compute. exact I.
Defined.

Lemma pooled_sockets_have_handlers_witness :
  let p := pool_run [Ensure sample_target; Claimed 3%nat] empty_pool in
  is_Some (closures p !! 3%nat)
  /\ (3%nat ∉ reverseConnections (socket_closed 3 p)).
Proof.
  apply (pooled_sockets_have_handlers [Ensure sample_target; Claimed 3%nat]
           3%nat).
  apply (bool_decide_unpack _). vm_compute. exact I.
Defined.

(** ** The relay address of a callback *)

Lemma split_colon_plain (h : string) :
  has_colon h = false -> split_colon h = [h].
Proof.
  induction h as [| c h IH]; simpl; [reflexivity |].
  destruct (Ascii.eqb c ":"); [discriminate |]. simpl.
  intros Hh. now rewrite (IH Hh).
Qed.

Lemma split_colon_head (h rest : string) :
  has_colon h = false ->
  split_colon (h ++ String ":" rest)%string = h :: split_colon rest.
Proof.
  induction h as [| c h IH]; simpl; [reflexivity |].
  destruct (Ascii.eqb c ":"); [discriminate |]. simpl.
  intros Hh. now rewrite (IH Hh).
Qed.

(** X14. The relay edge a callback names: without an address it is the
    default server on port 4001; an address [host:port] gives that host
    and port, anything after a second colon being dropped; an address
    without a colon gives the host and no port at all, the default port
    is not used then. *)
Theorem callback_target_of_address `{Platform} (rid h p rest : string) :
  has_colon h = false ->
  has_colon p = false ->
  callback_target rid None
  = {| t_registrationId := rid; t_serverPort := Some "4001";
       t_serverHost := SCRYPTED_SERVER |}
  /\ callback_target rid (Some h)
     = {| t_registrationId := rid; t_serverPort := None; t_serverHost := h |}
  /\ callback_target rid (Some (h ++ ":" ++ p)%string)
     = {| t_registrationId := rid; t_serverPort := Some p; t_serverHost := h |}
  /\ callback_target rid (Some (h ++ ":" ++ p ++ ":" ++ rest)%string)
     = {| t_registrationId := rid; t_serverPort := Some p; t_serverHost := h |}.
Proof.
  intros Hh Hp. unfold callback_target.
  split; [reflexivity |]. split; [now rewrite split_colon_plain |].
  split.
  - change (h ++ ":" ++ p)%string with (h ++ String ":" p)%string.
    rewrite split_colon_head by exact Hh.
    now rewrite split_colon_plain.
  - change (h ++ ":" ++ p ++ ":" ++ rest)%string
      with (h ++ String ":" (p ++ String ":" rest))%string.
    rewrite split_colon_head by exact Hh.
    now rewrite split_colon_head.
Qed.

Lemma callback_target_of_address_witness :
  callback_target (H := SimplePlatform.platform) "fcm-registration" None
  = sample_target
  /\ callback_target (H := SimplePlatform.platform) "fcm-registration"
       (Some "edge.scrypted.app")
     = {| t_registrationId := "fcm-registration"; t_serverPort := None;
          t_serverHost := "edge.scrypted.app" |}
  /\ callback_target (H := SimplePlatform.platform) "fcm-registration"
       (Some "edge.scrypted.app:4002")
     = other_target
  /\ callback_target (H := SimplePlatform.platform) "fcm-registration"
       (Some "edge.scrypted.app:4002:x")
     = other_target.
Proof.
  exact (callback_target_of_address (H := SimplePlatform.platform)
           "fcm-registration" "edge.scrypted.app" "4002" "x" eq_refl eq_refl).
Defined.

(** ** More on the cloudflared log scanner *)

Module TunnelLogScan.
Import TunnelLog.
Import TunnelLogFacts.

Local Close Scope string_scope.
Local Close Scope Z_scope.
Local Open Scope N_scope.

#[local] Arguments N.eqb : simpl never.

(** X16. The scanner treats the lines of a chunk one after the other: a
    chunk made of two parts joined by a newline has the effect of the
    first part followed by the effect of the second. *)
Theorem on_stderr_data_newline (a b : jsstring) (d : option resolution) :
  on_stderr_data (a ++ 10 :: b) d = on_stderr_data b (on_stderr_data a d).
Proof.
  unfold on_stderr_data. now rewrite split_lines_newline, fold_left_app.
Qed.

(** X17. Output of cloudflared in which the text [config=] followed by a
    double quote does not occur is ignored by the scanner, however it is
    cut into lines: the pending promise stays as it is. *)
Theorem on_stderr_data_without_marker (chunk : jsstring)
    (d : option resolution) :
  occurs marker chunk = false -> on_stderr_data chunk d = d.
Proof.
  intros Hno. unfold on_stderr_data.
  pose proof (lines_without_marker chunk Hno) as Hl.
  revert d. induction (split_lines chunk) as [| line lines IH]; intros d;
    simpl; [reflexivity |].
  rewrite (Hl line (or_introl eq_refl)).
  apply IH. intros l Hin. apply Hl. now right.
Qed.

Lemma on_stderr_data_without_marker_witness :
  on_stderr_data (js "INF Starting tunnel") None = None.
Proof.
  apply (on_stderr_data_without_marker (js "INF Starting tunnel") None).
  vm_compute. reflexivity.
Defined.

End TunnelLogScan.

(** ** The HTTP endpoint *)

Lemma append_cons (a : ascii) (p s : string) :
  (String a p ++ s)%string = String a (p ++ s)%string.
Proof. reflexivity. Qed.

Lemma append_empty (s : string) : (EmptyString ++ s)%string = s.
Proof. reflexivity. Qed.

Lemma startsWith_app (p s : string) : startsWith (p ++ s) p = true.
Proof.
  induction p as [| a p IH]; [now destruct s |].
  rewrite append_cons. cbn [startsWith]. now rewrite Ascii.eqb_refl.
Qed.

Lemma substring_from_separator (p s : string) (sep : ascii) :
  substring_from (S (String.length p)) (p ++ String sep s) = s.
Proof.
  induction p as [| a p IH]; [reflexivity |].
  rewrite append_cons. exact IH.
Qed.

Lemma endsWith_refl (p : string) : endsWith p p = true.
Proof. destruct p; cbn [endsWith]; now rewrite String.eqb_refl. Qed.

Lemma endsWith_app (s p : string) : endsWith (s ++ p) p = true.
Proof.
  induction s as [| a s IH].
  - rewrite append_empty. apply endsWith_refl.
  - rewrite append_cons. cbn [endsWith]. rewrite IH. apply orb_true_r.
Qed.

(** X18. The public URL the push converter hands out under a
    TLS-verified hostname leads back to the device it was made for: a
    request for its path, other than a preflight, is delivered by
    [onRequest] to the endpoint the URL was converted from, with the root
    path reset. The character between the message path and the endpoint
    is skipped, not checked. *)
Theorem push_url_round_trip `{Platform} (w : World) (randomBytes : string)
    (devices : string -> option (list string)) (data domain : string)
    (sep : ascii) (c : Cloud) (request : HttpRequest) :
  getSSLHostname c = Some domain ->
  rq_url request = (w_cloudMessagePath w ++ String sep data)%string ->
  endsWith (rq_url request) "/testPortForward" = false ->
  toLowerCase (rq_method request) <> "options" ->
  push_convert w data c
  = (Ok ("https://" ++ domain ++ w_cloudMessagePath w ++ "/" ++ data)%string, c)
  /\ onRequest w randomBytes devices request
     = (SendCors (rq_origin request),
        Some (deliverPush devices data (set_rootPath "/" request))).
Proof.
  intros Hs Hu He Hm. split.
  - rewrite push_convert_unfold. now rewrite bind_read, Hs.
  - unfold onRequest. rewrite He.
    destruct (String.eqb_spec (toLowerCase (rq_method request)) "options")
      as [E | _]; [contradiction |].
    cbv zeta. rewrite Hu, startsWith_app, substring_from_separator.
    reflexivity.
Qed.

(** X19. [onRequest] starts a push delivery exactly for a request that
    is neither the port forward probe nor a preflight and whose URL
    starts with the cloud message path; the random bytes are sent to the
    probe and to nothing else. *)
Theorem onRequest_delivers_iff (w : World) (randomBytes : string)
    (devices : string -> option (list string)) (request : HttpRequest) :
  (snd (onRequest w randomBytes devices request) <> None
   <-> endsWith (rq_url request) "/testPortForward" = false
       /\ toLowerCase (rq_method request) <> "options"
       /\ startsWith (rq_url request) (w_cloudMessagePath w) = true)
  /\ (fst (onRequest w randomBytes devices request) = SendBody randomBytes
      <-> endsWith (rq_url request) "/testPortForward" = true).
Proof.
  unfold onRequest.
  destruct (endsWith (rq_url request) "/testPortForward"); simpl.
  - split; split; try reflexivity; try tauto. intros (E & _). discriminate.
  - destruct (String.eqb_spec (toLowerCase (rq_method request)) "options")
      as [E | N]; simpl.
    + split; split; try discriminate; tauto.
    + destruct (startsWith (rq_url request) (w_cloudMessagePath w)); simpl.
      * split; split; try discriminate; tauto.
      * split; split; try discriminate; try tauto.
        intros (_ & _ & E). discriminate.
Qed.

Lemma push_url_round_trip_witness :
  let request := {| rq_url := "/endpoint/@scrypted/cloud/public/cmt/42";
                    rq_method := "POST";
                    rq_origin := None;
                    rq_rootPath := None |} in
  push_convert (H := SimplePlatform.platform) good_world "42"
    (with_tunnel (Some "https://abc.trycloudflare.com") custom_domain_cloud)
  = (Ok "https://nvr.example.com/endpoint/@scrypted/cloud/public/cmt/42",
     with_tunnel (Some "https://abc.trycloudflare.com") custom_domain_cloud)
  /\ onRequest good_world sample_random_bytes sample_devices request
     = (SendCors None, Some (OnPush "42" (set_rootPath "/" request))).
Proof.
  apply (push_url_round_trip (H := SimplePlatform.platform) good_world
           sample_random_bytes sample_devices "42" "nvr.example.com" "/"
           (with_tunnel (Some "https://abc.trycloudflare.com")
              custom_domain_cloud)
           {| rq_url := "/endpoint/@scrypted/cloud/public/cmt/42";
              rq_method := "POST"; rq_origin := None; rq_rootPath := None |});
    [reflexivity | reflexivity | reflexivity | discriminate].
Defined.

(** ** The port forward test *)

Lemma alerts_of_last (l : list event) (msg : string) :
  last (alerts_of (l ++ [Alert msg])) = Some msg.
Proof. rewrite alerts_of_snoc. apply last_snoc. Qed.

Lemma test_failed_run (e : string) (c : Cloud) :
  test_failed e c
  = (Ok tt, with_event (Alert ("Port Forward Test Failed: " ++ e)%string) c).
Proof. reflexivity. Qed.

(** X20. [testPortForward] never throws and never changes the settings;
    it always ends by posting its verdict, the success alert or a failure
    alert. The verdict is success only if forwarding is not disabled, the
    authority is valid, and the relay, asked for the test URL of that
    authority, answered without error with exactly this server's random
    bytes. *)
Theorem testPortForward_verdict (pluginPath randomBytes : string)
    (curl : string -> result (option CurlBody)) (c : Cloud) :
  let r := testPortForward pluginPath randomBytes curl c in
  fst r = Ok tt
  /\ values (snd r) = values c
  /\ exists verdict,
       last (alerts_of (trace (snd r))) = Some verdict
       /\ (verdict = test_succeeded
           \/ exists e, verdict = ("Port Forward Test Failed: " ++ e)%string)
       /\ (verdict = test_succeeded ->
           forwardingMode (values c) <> Disabled
           /\ exists a body,
                fst (getAuthority c) = Ok a
                /\ curl (test_target a pluginPath) = Ok (Some body)
                /\ truthy_str (cb_error body) = false
                /\ cb_data body = Some randomBytes).
Proof.
  cbv zeta. unfold testPortForward. rewrite bind_read.
  assert (Hfail : forall e c', values c' = values c ->
            fst (test_failed e c') = Ok tt
            /\ values (snd (test_failed e c')) = values c
            /\ exists verdict,
                 last (alerts_of (trace (snd (test_failed e c')))) = Some verdict
                 /\ (verdict = test_succeeded
                     \/ exists e0,
                          verdict = ("Port Forward Test Failed: " ++ e0)%string)
                 /\ (verdict = test_succeeded ->
                     forwardingMode (values c) <> Disabled
                     /\ exists a body,
                          fst (getAuthority c) = Ok a
                          /\ curl (test_target a pluginPath) = Ok (Some body)
                          /\ truthy_str (cb_error body) = false
                          /\ cb_data body = Some randomBytes)).
  { intros e c' Hv. rewrite test_failed_run. cbn [fst snd].
    split; [reflexivity |]. split; [exact Hv |].
    exists ("Port Forward Test Failed: " ++ e)%string. cbn [trace with_event].
    split; [apply alerts_of_last |]. split; [right; now exists e |].
    unfold test_succeeded. simpl. discriminate. }
  destruct (mode_eqb (forwardingMode (values c)) Disabled) eqn:D;
    [now apply Hfail |].
  assert (Hnd : forwardingMode (values c) <> Disabled).
  { intros E. rewrite E in D. discriminate. }
  destruct (getAuthority c) as [[a | e] c'] eqn:Ha.
  - pose proof (getAuthority_ok_state _ _ _ Ha) as ->.
    destruct (curl (test_target a pluginPath)) as [[body |] | e] eqn:Hc;
      try (now apply Hfail).
    destruct (truthy_str (cb_error body)) eqn:He; [now apply Hfail |].
    destruct (str_opt_eqb (cb_data body) (Some randomBytes)) eqn:Hd;
      simpl; [| now apply Hfail].
    apply str_opt_eqb_eq in Hd. split; [reflexivity |].
    split; [reflexivity |]. exists test_succeeded.
    split; [apply alerts_of_last |]. split; [now left |].
    intros _. split; [exact Hnd |]. exists a, body. auto.
  - apply Hfail.
    destruct (getAuthority_throw_state _ _ _ Ha) as (-> & _).
    reflexivity.
Qed.

(** X21. The test closes the loop through the plugin's own endpoint: when
    the relay fetches the test URL from this server and hands back what
    [onRequest] answered for the path of that URL, the test succeeds; had
    the relay fetched a path that does not end in the probe name, the
    test would fail whenever the random bytes are not empty. *)
Theorem testPortForward_round_trip (w : World) (pluginPath randomBytes : string)
    (devices : string -> option (list string)) (request : HttpRequest)
    (a : Authority) (c : Cloud) :
  forwardingMode (values c) <> Disabled ->
  fst (getAuthority c) = Ok a ->
  (rq_url request = (pluginPath ++ "/testPortForward")%string ->
   testPortForward pluginPath randomBytes
     (relaying_curl w randomBytes devices request) c
   = (Ok tt, with_event (Alert test_succeeded) c))
  /\ (endsWith (rq_url request) "/testPortForward" = false ->
      randomBytes <> EmptyString ->
      testPortForward pluginPath randomBytes
        (relaying_curl w randomBytes devices request) c
      = test_failed
          "Error: Server received data that did not match this server." c).
Proof.
  intros Hnd Ha. unfold testPortForward. rewrite bind_read.
  destruct (mode_eqb (forwardingMode (values c)) Disabled) eqn:D.
  { apply mode_eqb_eq in D. contradiction. }
  destruct (getAuthority c) as [[a0 | e] c'] eqn:Hg; [| discriminate].
  pose proof (getAuthority_ok_state _ _ _ Hg) as ->.
  unfold relaying_curl, onRequest. cbn [cb_error cb_data truthy_str].
  split.
  - intros Hu. rewrite Hu, endsWith_app. cbn [fst response_body].
    assert (E : str_opt_eqb (Some randomBytes) (Some randomBytes) = true)
      by now apply str_opt_eqb_eq.
    rewrite E. reflexivity.
  - intros He Hr. rewrite He.
    assert (E : forall o x,
              str_opt_eqb
                (Some (response_body (fst (SendCors o, x : option (delivery string HttpRequest)))))
                (Some randomBytes) = false).
    { intros o x. cbn [fst response_body].
      destruct (str_opt_eqb (Some EmptyString) (Some randomBytes)) eqn:E;
        [| reflexivity].
      apply str_opt_eqb_eq in E. congruence. }
    destruct (String.eqb (toLowerCase (rq_method request)) "options");
      [now rewrite E |].
    cbv zeta.
    destruct (startsWith (rq_url request) (w_cloudMessagePath w));
      now rewrite E.
Qed.

Lemma testPortForward_round_trip_witness :
  testPortForward "/endpoint/@scrypted/cloud/public" sample_random_bytes
    (relaying_curl good_world sample_random_bytes sample_devices
       {| rq_url := "/endpoint/@scrypted/cloud/public/testPortForward";
          rq_method := "GET"; rq_origin := None; rq_rootPath := None |})
    router_cloud
  = (Ok tt, with_event (Alert test_succeeded) router_cloud).
Proof.
  apply (testPortForward_round_trip good_world
           "/endpoint/@scrypted/cloud/public" sample_random_bytes
           sample_devices
           {| rq_url := "/endpoint/@scrypted/cloud/public/testPortForward";
              rq_method := "GET"; rq_origin := None; rq_rootPath := None |}
           {| a_upnp_port := Some 50000; a_port := Some 50000;
              a_hostname := None |}
           router_cloud);
    [discriminate | reflexivity | reflexivity].
Defined.

(** ** Cloud messages *)

Module CloudMessageFacts.
Import TunnelLog CloudMessage.

Local Close Scope string_scope.
Local Close Scope Z_scope.
Local Open Scope N_scope.

#[local] Arguments N.eqb : simpl never.

Lemma replace_first_prefix (pat s : jsstring) :
  replace_first pat [] (pat ++ s) = s.
Proof.
  destruct (pat ++ s) as [| c l] eqn:E; simpl;
    rewrite <- E, TunnelLogFacts.strip_prefix_app; reflexivity.
Qed.

Lemma lookup_member_set (key : jsstring) (new : json)
    (ms : list (jsstring * json)) :
  lookup_member key
    (map (fun m => if jseqb (fst m) key then (fst m, new) else m) ms)
  = option_map (fun _ => new) (lookup_member key ms).
Proof.
  induction ms as [| [k v] ms IH]; [reflexivity |].
  cbn [map lookup_member fst]. rewrite IH.
  destruct (jseqb k key) eqn:E; cbn [lookup_member]; rewrite ?IH;
    destruct (lookup_member key ms); simpl; try reflexivity;
    now rewrite E.
Qed.

(** X22. A cloud message whose request parses to an object with a root
    path under [/push/] is delivered to the endpoint named by the rest of
    that path, and the handler sees the root path reset to a slash.
    Nothing else is ever delivered: whenever the listener delivers, the
    request was such an object. *)
Theorem cloudmessage_push_endpoint (devices : jsstring -> option (list string))
    (request : jsstring) :
  (forall payload endpoint,
     JSON_parse request = Some payload ->
     get_prop (js "rootPath") payload = Some (JString (js "/push/" ++ endpoint)) ->
     on_cloudmessage devices request
     = Delivered (deliverPush devices endpoint (set_payload_rootPath payload))
     /\ get_prop (js "rootPath") (set_payload_rootPath payload)
        = Some (JString (js "/")))
  /\ (forall d,
        on_cloudmessage devices request = Delivered d ->
        exists payload endpoint,
          JSON_parse request = Some payload
          /\ get_prop (js "rootPath") payload
             = Some (JString (js "/push/" ++ endpoint))
          /\ d = deliverPush devices endpoint (set_payload_rootPath payload)).
Proof.
  split.
  - intros payload endpoint Hp Hr. unfold on_cloudmessage. rewrite Hp.
    destruct payload as [| b | n | s | items | ms]; try discriminate.
    cbn [get_prop] in Hr. cbn [get_prop]. rewrite Hr.
    rewrite TunnelLogFacts.strip_prefix_app, replace_first_prefix.
    split; [reflexivity |].
    unfold set_payload_rootPath. cbn [get_prop].
    rewrite (lookup_member_set (js "rootPath") (JString (js "/")) ms), Hr.
    reflexivity.
  - intros d. unfold on_cloudmessage.
    destruct (JSON_parse request) as [payload |]; [| discriminate].
    assert (Hgen : match get_prop (js "rootPath") payload with
                   | Some (JString s) =>
                       match strip_prefix (js "/push/") s with
                       | Some _ =>
                           Delivered
                             (deliverPush devices
                                (replace_first (js "/push/") [] s)
                                (set_payload_rootPath payload))
                       | None => Ignored
                       end
                   | None | Some JNull => Ignored
                   | Some _ => Caught
                   end = Delivered d ->
                   exists payload0 endpoint,
                     Some payload = Some payload0
                     /\ get_prop (js "rootPath") payload0
                        = Some (JString (js "/push/" ++ endpoint))
                     /\ d = deliverPush devices endpoint (set_payload_rootPath payload0)).
    { destruct (get_prop (js "rootPath") payload)
        as [[| b | n | s | i | m] |] eqn:G; try discriminate.
      destruct (strip_prefix (js "/push/") s) as [e |] eqn:E;
        [| discriminate].
      apply TunnelLogFacts.strip_prefix_Some in E. subst s.
      rewrite replace_first_prefix. intros [= <-].
      exists payload, e. auto. }
    destruct payload; try exact Hgen; discriminate.
Qed.

Lemma cloudmessage_push_endpoint_witness :
  on_cloudmessage sample_push_devices sample_push_request
  = Delivered
      (OnPush (js "42")
         (JObject [(js "rootPath", JString (js "/"));
                   (js "body", JString (js "ding"))])).
Proof.
  exact (proj1 (proj1 (cloudmessage_push_endpoint sample_push_devices
                         sample_push_request)
                  (JObject [(js "rootPath", JString (js "/push/42"));
                            (js "body", JString (js "ding"))])
                  (js "42")
                  ltac:(vm_compute; reflexivity)
                  ltac:(vm_compute; reflexivity))).
Defined.

End CloudMessageFacts.

(** * The virtual thermostat *)

(** Rounding to a double keeps the sign. *)
Lemma pow2_pos (k : Z) : (0 < pow2 k)%Q.
Proof.
  unfold pow2. destruct (Z.leb_spec 0 k) as [Hk | Hk].
  - change 0%Q with (inject_Z 0). rewrite <- Zlt_Qlt.
    now apply Z.pow_pos_nonneg.
  - assert (Hp : (0 < inject_Z (2 ^ (- k)))%Q).
    { change 0%Q with (inject_Z 0). rewrite <- Zlt_Qlt.
      apply Z.pow_pos_nonneg; lia. }
    apply Qlt_shift_div_l; [exact Hp | lra].
Qed.

Lemma binary64_nonneg (q : Q) : (0 <= q)%Q -> (0 <= binary64 q)%Q.
Proof.
  intros Hq. unfold binary64. cbv zeta.
  pose proof (pow2_pos (ulp_exp q)) as Hu.
  set (u := pow2 (ulp_exp q)) in *.
  assert (Hr : 0 <= round_half_even (q / u)).
  { apply round_half_even_ge. change (inject_Z 0) with 0%Q.
    apply Qle_shift_div_l; [exact Hu | lra]. }
  rewrite Zle_Qle in Hr. change (inject_Z 0) with 0%Q in Hr.
  apply Qmult_le_0_compat; [exact Hr | lra].
Qed.

Module ThermostatFacts.
Import Thermostat ThermostatSpec.

Lemma same_setup_refl (t : Thermostat) : same_setup t t.
Proof. repeat split. Qed.

Lemma same_setup_switch (t t' : Thermostat) (d : dev) :
  same_setup t t' -> switch d t' = switch d t.
Proof. intros (_ & Hh & Hc & _). now destruct d. Qed.

Lemma setState_spec (s : string) (t : Thermostat) :
  thermostatState (snd (setState s t)) = Some s
  /\ same_setup t (snd (setState s t))
  /\ (forall e, In e (fst (setState s t)) ->
        e = Info ("Thermostat state changed. " ++ s)%string
        \/ e = SetItem "thermostatState" s).
Proof.
  unfold setState.
  destruct (str_opt_eqb (thermostatState t) (Some s)) eqn:E; simpl.
  - apply str_opt_eqb_eq in E. split; [exact E |].
    split; [apply same_setup_refl | intros e []].
  - split; [reflexivity |]. split; [repeat split |].
    intros e [<- | [<- | []]]; [left | right]; reflexivity.
Qed.

Lemma turn_off_if_on_spec (d : dev) (t : Thermostat) (e : effect) :
  In e (turn_off_if_on d t) -> e = TurnOff d /\ switch d t = Some true.
Proof.
  unfold turn_off_if_on, is_on.
  destruct (switch d t) as [[|] |]; simpl; try tauto.
  intros [<- | []]. split; reflexivity.
Qed.

Lemma allOff_spec (t : Thermostat) (e : effect) :
  In e (allOff t) -> exists d, e = TurnOff d /\ switch d t = Some true.
Proof.
  unfold allOff. rewrite in_app_iff.
  intros [H | H]; apply turn_off_if_on_spec in H; eauto.
Qed.

Lemma allOff_complete (t : Thermostat) (d : dev) :
  is_on d t = true -> In (TurnOff d) (allOff t).
Proof.
  intros Hd. unfold allOff, turn_off_if_on. rewrite in_app_iff.
  destruct d; rewrite Hd; simpl; tauto.
Qed.

Lemma all_off_shape (s : string) (t : Thermostat) :
  s = "Off" \/ s = "HeatCooled" ->
  shape t (let (es, t') := setState s t in done (es ++ allOff t) t').
Proof.
  intros Hs. pose proof (shape_all_off t s Hs) as Sh.
  now destruct (setState s t).
Qed.

Lemma updateState_shape (t : Thermostat) : shape t (updateState t).
Proof.
  unfold updateState. cbv zeta.
  destruct (String.eqb _ "Off"); [apply all_off_shape; now left |].
  destruct (String.eqb _ "Cool").
  { destruct (sensor t) as [temp |] eqn:Hs; [| now apply shape_type_error].
    destruct (negb _); [apply shape_error |].
    apply (shape_manage t _ _ Cooler (Some Heater)). now right. }
  destruct (String.eqb _ "Heat").
  { destruct (sensor t) as [temp |] eqn:Hs; [| now apply shape_type_error].
    destruct (negb _); [apply shape_error |].
    apply (shape_manage t _ _ Heater (Some Cooler)). now right. }
  destruct (String.eqb _ "HeatCool"); [| apply shape_error].
  destruct (sensor t) as [temp |] eqn:Hs; [| now apply shape_type_error].
  destruct (negb _ || negb _); [apply shape_error |].
  destruct (_ && _ && _); [apply all_off_shape; now right |].
  destruct (lt temp _ || _);
    [apply (shape_manage t _ _ Heater None); now left |].
  destruct (gt temp _ || _);
    [apply (shape_manage t _ _ Cooler None); now left |].
  apply all_off_shape. now right.
Qed.

(** What [manageSetpoint] comes to once its switch is assigned. *)
Lemma manageSetpoint_spec (mode : string) (diff : num) (er : dev)
    (other : option dev) (ing ed : string) (t : Thermostat) (er_on : bool) :
  switch er t = Some er_on ->
  let starts := negb (lt diff (Some 0%Q))
                && (gt diff threshold
                    || negb (str_opt_eqb (thermostatState t) (Some ing))) in
  let s := if starts then ing else ed in
  manageSetpoint mode diff er other ing ed t
  = done ((match other with
           | Some o => turn_off_if_on o t
           | None => []
           end)
          ++ fst (setState s t)
          ++ (if starts then (if er_on then [] else [TurnOn er])
              else (if er_on then [TurnOff er] else [])))
      (snd (setState s t)).
Proof.
  intros Hsw. cbv zeta. unfold manageSetpoint. rewrite Hsw.
  destruct (lt diff (Some 0%Q)); cbn [negb andb].
  - now destruct (setState ed t).
  - destruct (gt diff threshold
              || negb (str_opt_eqb (thermostatState t) (Some ing))).
    + now destruct (setState ing t).
    + now destruct (setState ed t).
Qed.

Lemma ing_of_opposite (d : dev) : ing_of (opposite d) <> ing_of d.
Proof. destruct d; discriminate. Qed.

Lemma ed_not_ing (d d' : dev) : ed_of d <> ing_of d'.
Proof. destruct d, d'; discriminate. Qed.

Lemma updateState_same_setup (t : Thermostat) :
  same_setup t (after (updateState t)).
Proof.
  destruct (updateState_shape t) as [msg | Hs | s Hs | mode diff er other Ho];
    simpl; try apply same_setup_refl.
  - apply setState_spec.
  - destruct (switch er t) as [er_on |] eqn:Hsw.
    + rewrite (manageSetpoint_spec _ _ _ _ _ _ _ _ Hsw). simpl.
      apply setState_spec.
    + unfold manageSetpoint. rewrite Hsw. apply same_setup_refl.
Qed.

(** X23. Whatever the mode and the readings, [updateState] only sends
    commands that change something: a switch is told to turn on only
    when it is assigned and reports off, and told to turn off only when
    it reports on. *)
Theorem updateState_commands_fit (t : Thermostat) :
  commands_fit t (effects (updateState t)).
Proof.
  assert (Hset : forall s e, In e (fst (setState s t)) ->
                   forall d, e <> TurnOn d /\ e <> TurnOff d).
  { intros s e He d. apply setState_spec in He as [-> | ->];
      split; discriminate. }
  destruct (updateState_shape t) as [msg | Hs | s Hs | mode diff er other Ho];
    intros d; simpl.
  - split; intros [E | []]; discriminate.
  - tauto.
  - rewrite !in_app_iff. split; intros [H | H].
    + now apply Hset with (d := d) in H.
    + apply allOff_spec in H as (d' & E & _). discriminate.
    + now apply Hset with (d := d) in H.
    + apply allOff_spec in H as (d' & [= <-] & Hon). exact Hon.
  - destruct (switch er t) as [er_on |] eqn:Hsw.
    2:{ unfold manageSetpoint. rewrite Hsw. simpl.
        split; intros [E | []]; discriminate. }
    rewrite (manageSetpoint_spec _ _ _ _ _ _ _ _ Hsw). simpl.
    rewrite !in_app_iff.
    assert (Hother : forall e,
              In e (match other with
                    | Some o => turn_off_if_on o t
                    | None => []
                    end) ->
              exists o, e = TurnOff o /\ switch o t = Some true).
    { intros e He. destruct other as [o |]; [| destruct He].
      apply turn_off_if_on_spec in He. eauto. }
    split; intros [H | [H | H]].
    + apply Hother in H as (o & E & _). discriminate.
    + now apply Hset with (d := d) in H.
    + destruct (_ && _), er_on; simpl in H; try tauto;
        destruct H as [[= <-] | []]; exact Hsw.
    + apply Hother in H as (o & [= <-] & Hon). exact Hon.
    + now apply Hset with (d := d) in H.
    + destruct (_ && _), er_on; simpl in H; try tauto;
        destruct H as [[= <-] | []]; exact Hsw.
Qed.

(** X24. The state an update stores and the switch commands of the same
    update agree: after an update that turns a switch on, the stored
    state is the -ing state of that switch, and after one that turns a
    switch off it is not. So when the switch then reports the change, the
    event handler finds nothing to correct and leaves the mode alone. *)
Theorem updateState_commands_match_state (t : Thermostat) (d : dev) :
  let o := updateState t in
  commands_match_state (thermostatState (after o)) (effects o)
  /\ (In (TurnOn d) (effects o) ->
      manageEvent true (ing_of d) (set_switch d true (after o))
      = done [] (set_switch d true (after o)))
  /\ (In (TurnOff d) (effects o) ->
      manageEvent false (ing_of d) (set_switch d false (after o))
      = done [] (set_switch d false (after o))).
Proof.
  cbv zeta.
  assert (Hm : commands_match_state (thermostatState (after (updateState t)))
                 (effects (updateState t))).
  { assert (Hset : forall s e, In e (fst (setState s t)) ->
                     forall d, e <> TurnOn d /\ e <> TurnOff d).
    { intros s e He d0. apply setState_spec in He as [-> | ->];
        split; discriminate. }
    destruct (updateState_shape t) as [msg | Hs | s Hs | mode diff er other Ho];
      intros d0; simpl.
    - split; intros [E | []]; discriminate.
    - tauto.
    - rewrite !in_app_iff.
      destruct (setState_spec s t) as (-> & _ & _).
      split; intros [H | H].
      + now apply Hset with (d := d0) in H.
      + apply allOff_spec in H as (d' & E & _). discriminate.
      + now apply Hset with (d := d0) in H.
      + intros [= E]. destruct Hs as [-> | ->], d0; discriminate.
    - destruct (switch er t) as [er_on |] eqn:Hsw.
      2:{ unfold manageSetpoint. rewrite Hsw. simpl.
          split; intros [E | []]; discriminate. }
      rewrite (manageSetpoint_spec _ _ _ _ _ _ _ _ Hsw). simpl.
      rewrite !in_app_iff.
      match goal with
      | |- context [setState ?s t] =>
          destruct (setState_spec s t) as (-> & _ & _)
      end.
      split; intros [H | [H | H]].
      + destruct other as [o |]; [| destruct H].
        apply turn_off_if_on_spec in H as (E & _). discriminate.
      + now apply Hset with (d := d0) in H.
      + destruct (_ && _), er_on; simpl in H; try tauto;
          destruct H as [[= <-] | []]; reflexivity.
      + destruct other as [o |]; [| destruct H].
        apply turn_off_if_on_spec in H as ([= <-] & _).
        destruct Ho as [[=] | [= ->]].
        destruct (_ && _); intros [= E]; destruct er; discriminate.
      + now apply Hset with (d := d0) in H.
      + destruct (_ && _), er_on; simpl in H; try tauto;
          destruct H as [[= <-] | []].
        intros [= E]. destruct er; discriminate. }
  split; [exact Hm |]. split; intros Hin.
  - destruct (Hm d) as (Hon & _). specialize (Hon Hin).
    unfold manageEvent, state_is. destruct d; simpl; rewrite Hon; reflexivity.
  - destruct (Hm d) as (_ & Hoff). specialize (Hoff Hin).
    unfold manageEvent, state_is.
    assert (E : str_opt_eqb (thermostatState (after (updateState t)))
                  (Some (ing_of d)) = false).
    { destruct (str_opt_eqb _ _) eqn:E; [| reflexivity].
      apply str_opt_eqb_eq in E. contradiction. }
    destruct d; simpl; simpl in E; rewrite E; reflexivity.
Qed.

Lemma lt_spec (a b : Q) : lt (Some a) (Some b) = true <-> (a < b)%Q.
Proof.
  unfold lt. rewrite negb_true_iff.
  destruct (Qle_bool b a) eqn:E.
  - apply Qle_bool_iff in E. split; [discriminate |].
    intros Hlt. exfalso. now apply (Qlt_not_le _ _ Hlt).
  - split; [intros _ | reflexivity]. apply Qnot_le_lt. intros Hle.
    apply Qle_bool_iff in Hle. congruence.
Qed.

Lemma lt_false (a b : Q) : lt (Some a) (Some b) = false <-> (b <= a)%Q.
Proof.
  unfold lt. rewrite negb_false_iff. apply Qle_bool_iff.
Qed.

Lemma truthy_spec (q : Q) : truthy (Some q) = true <-> ~ (q == 0)%Q.
Proof.
  unfold truthy. rewrite negb_true_iff.
  destruct (Qeq_bool q 0) eqn:E.
  - apply Qeq_bool_iff in E. split; [discriminate | contradiction].
  - split; [| reflexivity]. intros _ Hq. apply Qeq_bool_iff in Hq. congruence.
Qed.

Lemma updateState_unfold_mode (t : Thermostat) :
  updateState t
  = let thermostatMode := effective_mode t in
    if String.eqb thermostatMode "Off" then
      let (es, t') := setState "Off" t in
      done (es ++ allOff t) t'
    else if String.eqb thermostatMode "Cool" then
      match sensor t with
      | None => type_error [] t
      | Some temperature =>
          let thermostatSetpoint := or_else (thermostatSetpoint t) temperature in
          if negb (truthy thermostatSetpoint)
          then done [Error "No thermostat setpoint is defined."] t
          else manageSetpoint thermostatMode (sub temperature thermostatSetpoint)
                 Cooler (Some Heater) "Cooling" "Cooled" t
      end
    else if String.eqb thermostatMode "Heat" then
      match sensor t with
      | None => type_error [] t
      | Some temperature =>
          let thermostatSetpoint := or_else (thermostatSetpoint t) temperature in
          if negb (truthy thermostatSetpoint)
          then done [Error "No thermostat setpoint is defined."] t
          else manageSetpoint thermostatMode (sub thermostatSetpoint temperature)
                 Heater (Some Cooler) "Heating" "Heated" t
      end
    else if String.eqb thermostatMode "HeatCool" then
      match sensor t with
      | None => type_error [] t
      | Some temperature =>
          let thermostatSetpointLow :=
            or_else (thermostatSetpointLow t) temperature in
          let thermostatSetpointHigh :=
            or_else (thermostatSetpointHigh t) temperature in
          if negb (truthy thermostatSetpointLow)
             || negb (truthy thermostatSetpointHigh)
          then done [Error "No thermostat setpoint low/high is defined."] t
          else if (state_is "HeatCooled" t || state_is "Heated" t
                   || state_is "Cooled" t)
                  && gt temperature (sub thermostatSetpointLow threshold)
                  && lt temperature (add thermostatSetpointHigh threshold)
          then
            let (es, t') := setState "HeatCooled" t in
            done (es ++ allOff t) t'
          else if lt temperature thermostatSetpointLow || state_is "Heating" t
          then manageSetpoint thermostatMode
                 (sub thermostatSetpointHigh temperature)
                 Heater None "Heating" "Heated" t
          else if gt temperature thermostatSetpointHigh || state_is "Cooling" t
          then manageSetpoint thermostatMode
                 (sub temperature thermostatSetpointLow)
                 Cooler None "Cooling" "Cooled" t
          else
            let (es, t') := setState "HeatCooled" t in
            done (es ++ allOff t) t'
      end
    else done [Error ("Unknown mode " ++ thermostatMode)%string] t.
Proof. reflexivity. Qed.

Lemma updateState_off (t : Thermostat) :
  effective_mode t = "Off" ->
  updateState t
  = done (fst (setState "Off" t) ++ allOff t) (snd (setState "Off" t)).
Proof.
  intros Hm. rewrite updateState_unfold_mode. cbv zeta. rewrite Hm.
  cbn [String.eqb Ascii.eqb Bool.eqb andb]. now destruct (setState "Off" t).
Qed.

Lemma setState_no_command (s : string) (t : Thermostat) (d : dev) :
  ~ In (TurnOn d) (fst (setState s t)) /\ ~ In (TurnOff d) (fst (setState s t)).
Proof.
  split; intros He; apply setState_spec in He as [E | E]; discriminate.
Qed.

Lemma updateState_off_state (t : Thermostat) :
  effective_mode t = "Off" ->
  threw (updateState t) = false
  /\ thermostatState (after (updateState t)) = Some "Off".
Proof.
  intros Hm. rewrite (updateState_off t Hm). cbn [after threw done].
  split; [reflexivity | apply setState_spec].
Qed.

Lemma off_effects_turn_nothing_on (t : Thermostat) (d : dev) :
  ~ In (TurnOn d) (fst (setState "Off" t) ++ allOff t).
Proof.
  rewrite in_app_iff. intros [H | H].
  - exact (proj1 (setState_no_command "Off" t d) H).
  - apply allOff_spec in H as (d' & E & _). discriminate.
Qed.

(** X25. In Off mode, and when no mode is set at all, an update stores
    the state Off, turns off every switch that reports on, and never
    turns anything on; it does not need the sensor. *)
Theorem updateState_off_mode (t : Thermostat) :
  effective_mode t = "Off" ->
  let o := updateState t in
  threw o = false
  /\ thermostatState (after o) = Some "Off"
  /\ (forall d, ~ In (TurnOn d) (effects o))
  /\ (forall d, is_on d t = true -> In (TurnOff d) (effects o)).
Proof.
  intros Hm. cbv zeta.
  destruct (updateState_off_state t Hm) as (Hthrew & Hstate).
  split; [exact Hthrew |]. split; [exact Hstate |].
  rewrite (updateState_off t Hm). cbn [effects done]. split.
  - intros d. apply off_effects_turn_nothing_on.
  - intros d Hd. rewrite in_app_iff. right. now apply allOff_complete.
Qed.

Lemma updateState_single (t : Thermostat) (er : dev) (temperature : num) :
  effective_mode t = mode_for er ->
  sensor t = Some temperature ->
  truthy (or_else (thermostatSetpoint t) temperature) = true ->
  updateState t
  = manageSetpoint (mode_for er)
      (match er with
       | Cooler => sub temperature (or_else (thermostatSetpoint t) temperature)
       | Heater => sub (or_else (thermostatSetpoint t) temperature) temperature
       end)
      er (Some (opposite er)) (ing_of er) (ed_of er) t.
Proof.
  intros Hm Hs Ht. rewrite updateState_unfold_mode. cbv zeta.
  rewrite Hm, Hs, Ht. now destruct er.
Qed.

(** X26. In Cool mode the heater is never turned on, and in Heat mode
    the cooler is never turned on. When the working switch is assigned
    and a setpoint (or else a temperature reading) is defined, the
    opposite switch is turned off if it reports on. *)
Theorem updateState_single_mode (t : Thermostat) (er : dev) :
  effective_mode t = mode_for er ->
  let o := updateState t in
  ~ In (TurnOn (opposite er)) (effects o)
  /\ (forall temperature,
        sensor t = Some temperature ->
        truthy (or_else (thermostatSetpoint t) temperature) = true ->
        switch er t <> None ->
        is_on (opposite er) t = true ->
        In (TurnOff (opposite er)) (effects o)).
Proof.
  intros Hm. cbv zeta.
  destruct (sensor t) as [temperature |] eqn:Hs.
  2:{ assert (E : updateState t = type_error [] t).
      { rewrite updateState_unfold_mode. cbv zeta. rewrite Hm, Hs.
        now destruct er. }
      rewrite E. simpl. split; [tauto | discriminate]. }
  destruct (truthy (or_else (thermostatSetpoint t) temperature)) eqn:Ht.
  2:{ assert (E : updateState t
                  = done [Error "No thermostat setpoint is defined."] t).
      { rewrite updateState_unfold_mode. cbv zeta. rewrite Hm, Hs, Ht.
        now destruct er. }
      rewrite E. simpl. split; [intros [E' | []]; discriminate |].
      intros temp [= <-]. congruence. }
  rewrite (updateState_single t er temperature Hm Hs Ht).
  destruct (switch er t) as [er_on |] eqn:Hsw.
  2:{ unfold manageSetpoint. rewrite Hsw. simpl.
      split; [intros [E | []]; discriminate |]. intros; congruence. }
  rewrite (manageSetpoint_spec _ _ _ _ _ _ _ _ Hsw).
  cbn [effects after threw done].
  split.
  - rewrite !in_app_iff. intros [H | [H | H]].
    + apply turn_off_if_on_spec in H as (E & _). discriminate.
    + exact (proj1 (setState_no_command _ t _) H).
    + destruct (_ && _), er_on; simpl in H; try tauto;
        destruct H as [E | []]; destruct er; discriminate.
  - intros temp _ _ _ Hon. rewrite in_app_iff. left.
    unfold turn_off_if_on. rewrite Hon. now left.
Qed.

(** X27. In the heat-and-cool mode the opposite switch is not looked at.
    With both setpoints set (neither is zero) and the low one not above
    the high one: when the thermostat is cooling, the cooler reports on,
    and the temperature is found below the low setpoint, the update
    stores the state Heating and turns the heater on without turning the
    cooler off: both run at once. *)
Theorem heatcool_leaves_cooler_running (t : Thermostat) (temp low high : Q) :
  effective_mode t = "HeatCool" ->
  sensor t = Some (Some temp) ->
  thermostatSetpointLow t = Some low ->
  thermostatSetpointHigh t = Some high ->
  ~ (low == 0)%Q -> ~ (high == 0)%Q ->
  (temp < low)%Q -> (low <= high)%Q ->
  thermostatState t = Some "Cooling" ->
  heater t = Some false ->
  cooler t = Some true ->
  let o := updateState t in
  effects o = [Info "Thermostat state changed. Heating";
               SetItem "thermostatState" "Heating"; TurnOn Heater]
  /\ thermostatState (after o) = Some "Heating"
  /\ is_on Cooler (after o) = true.
Proof.
  intros Hm Hs Hl Hh Hl0 Hh0 Hlt Hle Hst Hhe Hco. cbv zeta.
  assert (Hlo : or_else (thermostatSetpointLow t) (Some temp) = Some low).
  { unfold or_else. now rewrite Hl, (proj2 (truthy_spec low) Hl0). }
  assert (Hhi : or_else (thermostatSetpointHigh t) (Some temp) = Some high).
  { unfold or_else. now rewrite Hh, (proj2 (truthy_spec high) Hh0). }
  rewrite updateState_unfold_mode. cbv zeta.
  rewrite Hm, Hs. cbn [String.eqb Ascii.eqb Bool.eqb andb].
  rewrite Hlo, Hhi.
  rewrite (proj2 (truthy_spec low) Hl0), (proj2 (truthy_spec high) Hh0).
  cbn [negb orb]. unfold state_is. rewrite Hst.
  cbn [str_opt_eqb String.eqb Ascii.eqb Bool.eqb andb orb].
  rewrite (proj2 (lt_spec temp low) Hlt). cbn [orb].
  unfold manageSetpoint. cbn [switch]. rewrite Hhe.
  assert (E1 : lt (sub (Some high) (Some temp)) (Some 0%Q) = false).
  { apply lt_false. apply binary64_nonneg. lra. }
  rewrite E1. unfold setState. rewrite Hst.
  cbn [str_opt_eqb String.eqb Ascii.eqb Bool.eqb andb orb negb].
  rewrite orb_true_r. cbn [done effects after app].
  split; [reflexivity |]. split; [reflexivity |].
  unfold is_on. cbn [switch set_thermostatState cooler]. now rewrite Hco.
Qed.

Lemma heatcool_leaves_cooler_running_witness :
  effects (updateState overshoot)
  = [Info "Thermostat state changed. Heating";
     SetItem "thermostatState" "Heating"; TurnOn Heater]
  /\ thermostatState (after (updateState overshoot)) = Some "Heating"
  /\ is_on Cooler (after (updateState overshoot)) = true.
Proof.
  apply (heatcool_leaves_cooler_running overshoot (19 # 1) (20 # 1) (24 # 1));
    try reflexivity; intros E; discriminate E.
Defined.

Lemma updateState_off_mode_witness :
  let o := updateState (set_thermostatMode None overshoot) in
  threw o = false
  /\ thermostatState (after o) = Some "Off"
  /\ (forall d, ~ In (TurnOn d) (effects o))
  /\ (forall d, is_on d (set_thermostatMode None overshoot) = true ->
        In (TurnOff d) (effects o)).
Proof.
  exact (updateState_off_mode (set_thermostatMode None overshoot) eq_refl).
Defined.

Lemma updateState_single_mode_witness :
  let o := updateState (set_switch Heater true sample) in
  ~ In (TurnOn Heater) (effects o) /\ In (TurnOff Heater) (effects o).
Proof.
  destruct (updateState_single_mode (set_switch Heater true sample) Cooler
              eq_refl) as (Hn & Hoff).
  split; [exact Hn |].
  apply (Hoff (Some (23 # 1))); [reflexivity | reflexivity | discriminate
                                | reflexivity].
Defined.

Lemma same_setup_effective_mode (t t' : Thermostat) :
  same_setup t t' -> effective_mode t' = effective_mode t.
Proof. intros (_ & _ & _ & Hm & _). unfold effective_mode. now rewrite Hm. Qed.

(** The state stored by an update in Cool or Heat mode. *)
Lemma updateState_single_state (t : Thermostat) (er : dev) (temp sp : Q) :
  effective_mode t = mode_for er ->
  sensor t = Some (Some temp) ->
  thermostatSetpoint t = Some sp ->
  ~ (sp == 0)%Q ->
  switch er t <> None ->
  let diff := binary64 match er with
                       | Cooler => temp - sp
                       | Heater => sp - temp
                       end in
  thermostatState (after (updateState t))
  = Some (if negb (lt (Some diff) (Some 0%Q))
             && (gt (Some diff) threshold || negb (state_is (ing_of er) t))
          then ing_of er else ed_of er).
Proof.
  intros Hm Hs Hp Hp0 Hsw. cbv zeta.
  assert (Hor : or_else (thermostatSetpoint t) (Some temp) = Some sp).
  { unfold or_else. now rewrite Hp, (proj2 (truthy_spec sp) Hp0). }
  rewrite (updateState_single t er (Some temp) Hm Hs)
    by (rewrite Hor; now apply truthy_spec).
  rewrite Hor. destruct (switch er t) as [er_on |] eqn:E; [| congruence].
  rewrite (manageSetpoint_spec _ _ _ _ _ _ _ _ E).
  cbn [after done]. unfold state_is.
  destruct er; cbn [sub]; apply setState_spec.
Qed.

(** X28. In Cool and in Heat mode, with a setpoint other than zero, the
    stored state follows the distance between temperature and setpoint
    as the code computes it: the difference of the two doubles, rounded
    to a double, taken in the direction the switch works against. Above
    the threshold of two degrees the switch works, below zero it rests,
    and from zero to two every update reverses the previous decision, so
    that two updates at the same reading leave the state they found. *)
Theorem updateState_band (t : Thermostat) (er : dev) (temp sp : Q) :
  effective_mode t = mode_for er ->
  sensor t = Some (Some temp) ->
  thermostatSetpoint t = Some sp ->
  ~ (sp == 0)%Q ->
  switch er t <> None ->
  let diff := binary64 match er with
                       | Cooler => temp - sp
                       | Heater => sp - temp
                       end in
  let t1 := after (updateState t) in
  let t2 := after (updateState t1) in
  ((diff < 0)%Q -> thermostatState t1 = Some (ed_of er))
  /\ ((2 < diff)%Q -> thermostatState t1 = Some (ing_of er))
  /\ ((0 <= diff)%Q -> (diff <= 2)%Q ->
      thermostatState t1
      = Some (if state_is (ing_of er) t then ed_of er else ing_of er)
      /\ thermostatState t2
         = Some (if state_is (ing_of er) t then ing_of er else ed_of er)).
Proof.
  intros Hm Hs Hp Hp0 Hsw diff t1 t2.
  pose proof (updateState_single_state t er temp sp Hm Hs Hp Hp0 Hsw) as H1.
  cbv zeta in H1. fold diff t1 in H1.
  pose proof (updateState_same_setup t) as Hsame. fold t1 in Hsame.
  assert (H2 : thermostatState t2
               = Some (if negb (lt (Some diff) (Some 0%Q))
                          && (gt (Some diff) threshold
                              || negb (state_is (ing_of er) t1))
                       then ing_of er else ed_of er)).
  { pose proof Hsame as (S1 & S2 & S3 & S4 & S5 & _).
    apply (updateState_single_state t1 er temp sp).
    - rewrite <- Hm. apply same_setup_effective_mode.
      apply updateState_same_setup.
    - now rewrite S1.
    - now rewrite S5.
    - exact Hp0.
    - rewrite (same_setup_switch t t1 er (updateState_same_setup t)).
      exact Hsw. }
  split; [| split].
  - intros Hd. rewrite H1, (proj2 (lt_spec diff 0) Hd). reflexivity.
  - intros Hd. rewrite H1.
    assert (E0 : lt (Some diff) (Some 0%Q) = false) by (apply lt_false; lra).
    assert (E2 : gt (Some diff) threshold = true) by (apply lt_spec; exact Hd).
    now rewrite E0, E2.
  - intros Hlo Hhi.
    assert (E0 : lt (Some diff) (Some 0%Q) = false) by (apply lt_false; lra).
    assert (E2 : gt (Some diff) threshold = false)
      by (apply lt_false; exact Hhi).
    rewrite E0, E2 in H1, H2. cbn [negb andb orb] in H1, H2.
    assert (Hflip : thermostatState t1
                    = Some (if state_is (ing_of er) t
                            then ed_of er else ing_of er)).
    { rewrite H1. now destruct (state_is (ing_of er) t). }
    split; [exact Hflip |].
    rewrite H2. unfold state_is at 1. rewrite Hflip.
    destruct (state_is (ing_of er) t); destruct er; reflexivity.
Qed.

Lemma updateState_band_witness :
  thermostatState (after (updateState sample)) = Some "Cooling"
  /\ thermostatState (after (updateState (after (updateState sample))))
     = Some "Cooled".
Proof.
  destruct (updateState_band sample Cooler (23 # 1) (22 # 1)
              eq_refl eq_refl eq_refl ltac:(intros E; discriminate E)
              ltac:(discriminate)) as (_ & _ & Hband).
  apply Hband; intros E; discriminate E.
Defined.

(** The difference is the one of doubles: at 2.1 degrees with the
    setpoint at 0.1 the two doubles differ by a little more than two, the
    difference computed is exactly two, and a cooling thermostat rests. *)
Example updateState_rounded_difference :
  let temp := binary64 (21 # 10) in
  let sp := binary64 (1 # 10) in
  let t := {| sensor := Some (Some temp);
              heater := Some false;
              cooler := Some true;
              thermostatMode := Some "Cool";
              thermostatSetpoint := Some sp;
              thermostatSetpointLow := None;
              thermostatSetpointHigh := None;
              thermostatState := Some "Cooling";
              lastThermostatMode := Some "Cool" |} in
  (2 < temp - sp)%Q
  /\ (binary64 (temp - sp) == 2)%Q
  /\ sub (Some temp) (Some sp) = Some (binary64 (temp - sp))
  /\ thermostatState (after (updateState t)) = Some "Cooled".
Proof. vm_compute. repeat split. Qed.

Lemma then_updateState_after (es : list effect) (t : Thermostat) :
  same_setup t (after (then_updateState es t))
  /\ after (then_updateState es t) = after (updateState t)
  /\ effects (then_updateState es t) = es ++ effects (updateState t).
Proof.
  split; [apply updateState_same_setup |]. split; reflexivity.
Qed.

Lemma setThermostatMode_mode (mode : string) (t : Thermostat) :
  thermostatMode (after (setThermostatMode mode t))
  = (if String.eqb mode "On" then lastThermostatMode t else Some mode)
  /\ lastThermostatMode (after (setThermostatMode mode t))
     = (if String.eqb mode "On" || String.eqb mode "Off"
        then lastThermostatMode t else Some mode).
Proof.
  unfold setThermostatMode.
  destruct (String.eqb mode "On"); [| destruct (String.eqb mode "Off")];
    cbn [negb orb];
    match goal with
    | |- context [then_updateState ?es ?t0] =>
        destruct (then_updateState_after es t0)
          as ((_ & _ & _ & Hm & _ & _ & _ & Hl) & _ & _)
    end;
    rewrite Hm, Hl; split; reflexivity.
Qed.

(** X29. The mode last chosen survives switching the thermostat off:
    after a mode other than On and Off has been set, setting Off stores
    the state Off, and setting On afterwards brings that mode back. *)
Theorem setThermostatMode_off_on_round_trip (t : Thermostat) (mode : string) :
  mode <> "On" ->
  mode <> "Off" ->
  let t1 := after (setThermostatMode mode t) in
  let t2 := after (setThermostatMode "Off" t1) in
  let t3 := after (setThermostatMode "On" t2) in
  thermostatMode t1 = Some mode
  /\ thermostatMode t2 = Some "Off"
  /\ thermostatState t2 = Some "Off"
  /\ thermostatMode t3 = Some mode.
Proof.
  intros Hon Hoff t1 t2 t3.
  apply String.eqb_neq in Hon, Hoff.
  destruct (setThermostatMode_mode mode t) as (M1 & L1). fold t1 in M1, L1.
  rewrite Hon, Hoff in *. cbn [orb] in L1.
  destruct (setThermostatMode_mode "Off" t1) as (M2 & L2). fold t2 in M2, L2.
  cbn [String.eqb Ascii.eqb Bool.eqb andb orb] in M2, L2.
  destruct (setThermostatMode_mode "On" t2) as (M3 & _). fold t3 in M3.
  cbn [String.eqb Ascii.eqb Bool.eqb andb orb] in M3.
  split; [exact M1 |]. split; [exact M2 |]. split.
  - subst t2. unfold setThermostatMode.
    cbn [String.eqb Ascii.eqb Bool.eqb andb negb].
    exact (proj2 (updateState_off_state
                    (set_thermostatMode (Some "Off") t1) eq_refl)).
  - now rewrite M3, L2, L1.
Qed.

Lemma setThermostatMode_off_on_round_trip_witness :
  let t1 := after (setThermostatMode "Heat" sample) in
  let t2 := after (setThermostatMode "Off" t1) in
  let t3 := after (setThermostatMode "On" t2) in
  thermostatMode t1 = Some "Heat"
  /\ thermostatMode t2 = Some "Off"
  /\ thermostatState t2 = Some "Off"
  /\ thermostatMode t3 = Some "Heat".
Proof.
  apply (setThermostatMode_off_on_round_trip sample "Heat"); discriminate.
Defined.

(** X30. A switch operated by hand steers the thermostat. Turned off
    while the stored state is the -ing state of that switch, it puts the
    thermostat into Off mode: the state Off is stored and nothing is
    turned on. Turned on while the stored state is another one, it brings
    back the remembered mode; when no mode was ever remembered, that
    amounts to Off, and every switch that reports on, the one just
    operated included, is turned off again. *)
Theorem manageEvent_manual_switch (t : Thermostat) (d : dev) :
  (state_is (ing_of d) t = true ->
   let o := manageEvent false (ing_of d) t in
   thermostatMode (after o) = Some "Off"
   /\ thermostatState (after o) = Some "Off"
   /\ forall d', ~ In (TurnOn d') (effects o))
  /\ (state_is (ing_of d) t = false ->
      let o := manageEvent true (ing_of d) t in
      thermostatMode (after o) = lastThermostatMode t
      /\ (truthy_str (lastThermostatMode t) = false ->
          thermostatState (after o) = Some "Off"
          /\ forall d', is_on d' t = true -> In (TurnOff d') (effects o))).
Proof.
  split; intros Hst; cbv zeta; unfold manageEvent; rewrite Hst; cbn [negb];
    unfold unawaited; cbn [effects after].
  - destruct (setThermostatMode_mode "Off" t) as (M & _).
    split; [exact M |].
    unfold setThermostatMode.
    cbn [String.eqb Ascii.eqb Bool.eqb andb negb].
    pose proof (updateState_off_state (set_thermostatMode (Some "Off") t)
                  eq_refl) as (_ & S).
    split; [exact S |].
    intros d'. cbn [then_updateState effects]. rewrite in_app_iff.
    rewrite (updateState_off (set_thermostatMode (Some "Off") t) eq_refl).
    intros [[E | []] | H]; [discriminate |].
    now apply off_effects_turn_nothing_on in H.
  - destruct (setThermostatMode_mode "On" t) as (M & _).
    split; [exact M |]. intros Hl.
    unfold setThermostatMode.
    cbn [String.eqb Ascii.eqb Bool.eqb andb negb].
    assert (Hm : effective_mode (set_thermostatMode (lastThermostatMode t) t)
                 = "Off").
    { unfold effective_mode. cbn [thermostatMode set_thermostatMode].
      now rewrite Hl. }
    pose proof (updateState_off_state _ Hm) as (_ & S).
    split; [exact S |].
    intros d' Hd'. cbn [then_updateState effects]. rewrite in_app_iff.
    right. rewrite (updateState_off _ Hm). cbn [effects done].
    rewrite in_app_iff. right. apply allOff_complete.
    unfold is_on in *. now destruct d'.
Qed.

Lemma manageEvent_manual_switch_witness :
  let o := manageEvent false "Cooling" overshoot in
  thermostatMode (after o) = Some "Off"
  /\ thermostatState (after o) = Some "Off"
  /\ forall d', ~ In (TurnOn d') (effects o).
Proof.
  exact (proj1 (manageEvent_manual_switch overshoot Cooler) eq_refl).
Defined.

End ThermostatFacts.
